(** * PythiaEvolution: the token-highlighting heuristic and its renderer

    A shallow embedding of [streamlit_app.py] and
    [create_interactive_visualization.py]: the tokenizer, the common-term
    extractor, the token highlighter, the per-cluster renderer, the two
    panels of the page and the loader of the per-neuron series files.

    Python [str] values are lists of characters.  A character is an
    [ascii], read as the code point of the same number (0..255), and the
    character classes below are Python's classes on those code points. *)

From Stdlib Require Import Ascii String DecimalString DecimalPos DecimalZ.
From Stdlib Require Import List ZArith NArith Lia Bool Permutation Sorted.
Import ListNotations.

Set Implicit Arguments.

(** ** Strings and character classes *)

Definition str := list ascii.

Definition lit (x : string) : str := list_ascii_of_string x.
Arguments lit x%_string.

Definition ord (c : ascii) : N := N_of_ascii c.

Definition in_range (lo hi : N) (c : ascii) : bool :=
  ((lo <=? ord c) && (ord c <=? hi))%N.

(** [str.isspace] and the regular expression class [\s]. *)
Definition is_space (c : ascii) : bool :=
  in_range 9 13 c || in_range 28 32 c || (ord c =? 133)%N || (ord c =? 160)%N.

(** The regular expression class [\S]. *)
Definition not_space (c : ascii) : bool := negb (is_space c).

(** The regular expression class [\w]: alphanumeric characters and the
    underscore. *)
Definition is_word (c : ascii) : bool :=
  in_range 48 57 c || in_range 65 90 c || (ord c =? 95)%N || in_range 97 122 c
  || (ord c =? 170)%N || in_range 178 179 c || (ord c =? 181)%N
  || in_range 185 186 c || in_range 188 190 c
  || in_range 192 214 c || in_range 216 246 c || in_range 248 255 c.

(** The regular expression class [[^\w]]. *)
Definition not_word (c : ascii) : bool := negb (is_word c).

(** The regular expression class [[a-z]]. *)
Definition is_az (c : ascii) : bool := in_range 97 122 c.

Definition lower_char (c : ascii) : ascii :=
  if in_range 65 90 c || in_range 192 214 c || in_range 216 222 c
  then ascii_of_N (ord c + 32) else c.

(** [s.lower()] *)
Definition lower (s : str) : str := map lower_char s.

Definition str_eqb (a b : str) : bool :=
  if list_eq_dec ascii_dec a b then true else false.

Fixpoint take_while (p : ascii -> bool) (s : str) : str :=
  match s with
  | c :: s' => if p c then c :: take_while p s' else []
  | [] => []
  end.

Fixpoint drop_while (p : ascii -> bool) (s : str) : str :=
  match s with
  | c :: s' => if p c then drop_while p s' else s
  | [] => []
  end.

(** [s.strip()]: leading and trailing whitespace removed. *)
Definition strip (s : str) : str :=
  rev (drop_while is_space (rev (drop_while is_space s))).

(** Truth value of a string: non-empty. *)
Definition truthy (s : str) : bool :=
  match s with [] => false | _ :: _ => true end.

(** [sep.join(parts)] *)
Fixpoint join (sep : str) (parts : list str) : str :=
  match parts with
  | [] => []
  | [p] => p
  | p :: rest => p ++ sep ++ join sep rest
  end.

(** ** The regular expressions of the program

    A backtracking matcher for the constructs the three patterns use: a
    character class, a greedy [+] on a class, [\b], sequence and ordered
    alternation.  The continuation receives the character before the
    current position, the rest of the input and the number of characters
    matched so far. *)

Inductive regex : Type :=
| Cls (p : ascii -> bool)
| PlusCls (p : ascii -> bool)
| WordB
| Seq (r1 r2 : regex)
| Alt (r1 r2 : regex).

Definition cont := option ascii -> str -> nat -> option nat.

Fixpoint plus_cls (p : ascii -> bool) (k : cont) (s : str) (n : nat)
  : option nat :=
  match s with
  | [] => None
  | c :: s' =>
      if p c then
        match plus_cls p k s' (S n) with
        | Some m => Some m
        | None => k (Some c) s' (S n)
        end
      else None
  end.

Definition is_word_at (o : option ascii) : bool :=
  match o with Some c => is_word c | None => false end.

Fixpoint rmatch (r : regex) (k : cont) (prev : option ascii) (s : str)
  (n : nat) : option nat :=
  match r with
  | Cls p =>
      match s with
      | c :: s' => if p c then k (Some c) s' (S n) else None
      | [] => None
      end
  | PlusCls p => plus_cls p k s n
  | WordB =>
      if xorb (is_word_at prev) (is_word_at (hd_error s))
      then k prev s n else None
  | Seq r1 r2 => rmatch r1 (rmatch r2 k) prev s n
  | Alt r1 r2 =>
      match rmatch r1 k prev s n with
      | Some m => Some m
      | None => rmatch r2 k prev s n
      end
  end.

Definition accept : cont := fun _ _ n => Some n.

(** Length of the match that starts at the current position, if any. *)
Definition match_here (r : regex) (prev : option ascii) (s : str)
  : option nat :=
  rmatch r accept prev s 0.

(** [re.findall(r, s)]: the scan moves one character at a time; [skip]
    counts the characters still covered by the last match.  The three
    patterns of the program never match the empty string (see
    [tok_re_here], [word_re_here] and [nonword_re_here]), which is the only
    case where Python's scan has further rules. *)
Fixpoint findall_from (r : regex) (prev : option ascii) (skip : nat)
  (s : str) : list str :=
  match s with
  | [] =>
      match skip, match_here r prev [] with
      | O, Some _ => [[]]
      | _, _ => []
      end
  | c :: s' =>
      match skip with
      | S k => findall_from r (Some c) k s'
      | O =>
          match match_here r prev s with
          | Some n => firstn n s :: findall_from r (Some c) (pred n) s'
          | None => findall_from r (Some c) 0 s'
          end
      end
  end.

Definition re_findall (r : regex) (s : str) : list str :=
  findall_from r None 0 s.

(** [re.sub(r, repl, s)], with the same scan. *)
Fixpoint sub_from (r : regex) (repl : str) (prev : option ascii)
  (skip : nat) (s : str) : str :=
  match s with
  | [] => []
  | c :: s' =>
      match skip with
      | S k => sub_from r repl (Some c) k s'
      | O =>
          match match_here r prev s with
          | Some (S n) => repl ++ sub_from r repl (Some c) n s'
          | _ => c :: sub_from r repl (Some c) 0 s'
          end
      end
  end.

Definition re_sub (r : regex) (repl : str) (s : str) : str :=
  sub_from r repl None 0 s.

(** [\S+|\s+] *)
Definition tok_re : regex := Alt (PlusCls not_space) (PlusCls is_space).

(** [\b[a-z]+\b] *)
Definition word_re : regex := Seq WordB (Seq (PlusCls is_az) WordB).

(** [[^\w]] *)
Definition nonword_re : regex := Cls not_word.

(** ** Tokenizer *)

Definition tokenize_text (text : str) : list str :=
  let tokens := re_findall tok_re text in
  filter (fun token => truthy (strip token)) tokens.

(** ** Python containers and built-ins *)

Definition len {A : Type} (l : list A) : Z := Z.of_nat (length l).

(** [range(a, b)] *)
Definition py_range (a b : Z) : list Z :=
  map (fun i => a + Z.of_nat i)%Z (seq 0 (Z.to_nat (b - a))).

(** A slice bound, as Python normalises it: a negative index counts from
    the end, and the result is clamped to [0, len]. *)
Definition slice_bound (n i : Z) : Z :=
  if (i <? 0)%Z then Z.max 0 (i + n) else Z.min i n.

(** [l[lo:hi]] *)
Definition py_slice {A : Type} (l : list A) (lo hi : Z) : list A :=
  let a := slice_bound (len l) lo in
  let b := slice_bound (len l) hi in
  firstn (Z.to_nat (b - a)) (skipn (Z.to_nat a) l).

(** A [dict] keeps its keys in insertion order; assigning to a key that is
    present keeps its place. *)
Section Dict.
Variables K V : Type.
Variable eqb : K -> K -> bool.

Definition dict := list (K * V).

Fixpoint dict_get (d : dict) (k : K) : option V :=
  match d with
  | [] => None
  | (k', v) :: d' => if eqb k' k then Some v else dict_get d' k
  end.

Fixpoint dict_set (d : dict) (k : K) (v : V) : dict :=
  match d with
  | [] => [(k, v)]
  | (k', v') :: d' =>
      if eqb k' k then (k', v) :: d' else (k', v') :: dict_set d' k v
  end.

Definition dict_mem (d : dict) (k : K) : bool :=
  match dict_get d k with Some _ => true | None => false end.

(** [d.get(k, default)] *)
Definition dict_get_default (d : dict) (k : K) (default : V) : V :=
  match dict_get d k with Some v => v | None => default end.
End Dict.

Definition counts := dict str Z.

(** [d[k] = d.get(k, 0) + 1] *)
Definition incr (d : counts) (k : str) : counts :=
  dict_set str_eqb d k (dict_get_default str_eqb d k 0 + 1)%Z.

(** ** Common-term extractor *)

Definition stop_words : list str :=
  map lit
  ["the"; "a"; "an"; "and"; "or"; "but"; "in"; "on"; "at"; "to"; "for"; "of"; "with"; "by";
   "from"; "up"; "about"; "into"; "through"; "during"; "before"; "after"; "above"; "below";
   "between"; "among"; "this"; "that"; "these"; "those"; "i"; "you"; "he"; "she"; "it"; "we";
   "they"; "me"; "him"; "her"; "us"; "them"; "my"; "your"; "his"; "her"; "its"; "our"; "their";
   "is"; "are"; "was"; "were"; "be"; "been"; "being"; "have"; "has"; "had"; "do"; "does"; "did";
   "will"; "would"; "could"; "should"; "may"; "might"; "can"; "must"; "shall"; "not"; "no"; "yes";
   "as"; "so"; "if"; "when"; "where"; "why"; "how"; "what"; "who"; "which"; "whose"; "whom";
   "all"; "any"; "some"; "many"; "few"; "most"; "more"; "less"; "much"; "little"; "very"; "too";
   "also"; "only"; "just"; "even"; "still"; "again"; "here"; "there"; "now"; "then"; "today";
   "yesterday"; "tomorrow"; "one"; "two"; "three"; "first"; "second"; "third"; "last"; "next"
  ]%string.

(** [w in stop_words] *)
Definition in_stop_words (w : str) : bool := existsb (str_eqb w) stop_words.

(** [len(word) >= min_length and word not in stop_words] *)
Definition keep_word (min_length : Z) (word : str) : bool :=
  (min_length <=? len word)%Z && negb (in_stop_words word).

(** The first loop: whole words. *)
Definition count_words (min_length : Z) (words : list str) : counts :=
  fold_left
    (fun word_counts word =>
       if keep_word min_length word then incr word_counts word
       else word_counts)
    words [].

(** The three nested loops on one kept word: fragment lengths, start
    positions, the slice. *)
Definition count_word_fragments (min_length : Z) (fragment_counts : counts)
  (word : str) : counts :=
  fold_left
    (fun fc frag_len =>
       fold_left
         (fun fc start =>
            let fragment := py_slice word start (start + frag_len) in
            if in_stop_words fragment then fc else incr fc fragment)
         (py_range 0 (len word - frag_len + 1)) fc)
    (py_range min_length (Z.min (len word + 1) 8)) fragment_counts.

(** The second loop: fragments. *)
Definition count_fragments (min_length : Z) (words : list str) : counts :=
  fold_left
    (fun fragment_counts word =>
       if keep_word min_length word
       then count_word_fragments min_length fragment_counts word
       else fragment_counts)
    words [].

(** [all_counts[word] = count * 2] for every whole word. *)
Definition add_words (word_counts : counts) : counts :=
  fold_left
    (fun all_counts wc => dict_set str_eqb all_counts (fst wc) (snd wc * 2)%Z)
    word_counts [].

(** Fragments counted at least 5 times are added, or summed into the entry
    that is there. *)
Definition add_fragments (all_counts fragment_counts : counts) : counts :=
  fold_left
    (fun all_counts fc =>
       let fragment := fst fc in
       let count := snd fc in
       if (5 <=? count)%Z then
         match dict_get str_eqb all_counts fragment with
         | None => dict_set str_eqb all_counts fragment count
         | Some v => dict_set str_eqb all_counts fragment (v + count)%Z
         end
       else all_counts)
    fragment_counts all_counts.

(** [sorted(items, key=lambda x: x[1], reverse=True)]: a stable sort, so
    entries of equal count keep their order. *)
Fixpoint insert_desc (x : str * Z) (l : list (str * Z)) : list (str * Z) :=
  match l with
  | [] => [x]
  | y :: l' =>
      if (snd x <? snd y)%Z then y :: insert_desc x l' else x :: l
  end.

Definition sorted_by_count_desc (items : list (str * Z)) : list (str * Z) :=
  fold_right insert_desc [] items.

Definition merged_counts (min_length : Z) (words : list str) : counts :=
  add_fragments (add_words (count_words min_length words))
                (count_fragments min_length words).

Definition analyze_common_words (texts : list str) (min_length top_n : Z)
  : list str :=
  match texts with
  | [] => []
  | _ =>
      let combined_text := lower (join (lit " ") texts) in
      let words := re_findall word_re combined_text in
      let all_counts := merged_counts min_length words in
      let sorted_words := sorted_by_count_desc all_counts in
      map fst (py_slice sorted_words 0 top_n)
  end.

(** ** Token highlighter *)

(** [a in b] on strings: [a] occurs in [b] as a contiguous occurs_in. *)
Fixpoint starts_with (a b : str) : bool :=
  match a, b with
  | [], _ => true
  | x :: a', y :: b' => Ascii.eqb x y && starts_with a' b'
  | _ :: _, [] => false
  end.

Fixpoint str_in (a b : str) : bool :=
  starts_with a b ||
  match b with
  | [] => false
  | _ :: b' => str_in a b'
  end.

(** [re.sub(r'[^\w]', '', token.lower())] *)
Definition clean_token (token : str) : str :=
  re_sub nonword_re [] (lower token).

(** The body of the loop on tokens, the same in [highlight_pattern] and in
    [highlight_tokens]. *)
Definition is_highlighted (common_words : list str) (token : str) : bool :=
  let clean := clean_token token in
  if truthy clean then
    existsb (fun common_word =>
               str_in common_word clean || str_in clean common_word)
            common_words
  else false.

(** The two activation values, 0.1 and 0.9. *)
Inductive activation : Type := Low | High.

Definition activation_of (b : bool) : activation := if b then High else Low.

(** [highlight_pattern] of the static export; its [pattern] and
    [cluster_id] arguments are not read.  [cluster_texts] defaults to
    [None], which [not cluster_texts] treats as the empty list. *)
Definition highlight_pattern (tokens : list str) (is_right_panel : bool)
  (cluster_texts : list str) : list activation :=
  match cluster_texts with
  | [] => repeat Low (length tokens)
  | _ =>
      if negb is_right_panel then repeat Low (length tokens)
      else
        let common_words := analyze_common_words cluster_texts 3 2 in
        map (fun token => activation_of (is_highlighted common_words token))
            tokens
  end.

Definition dquote : ascii := ascii_of_N 34.

(** [<span class="token activation-...">token</span>] *)
Definition span (cls : string) (token : str) : str :=
  lit "<span class=" ++ [dquote] ++ lit "token " ++ lit cls ++ [dquote]
  ++ lit ">" ++ token ++ lit "</span>".

(** [highlight_tokens] of the dashboard: the markup of one example. *)
Definition highlight_tokens (text : str) (cluster_texts : list str)
  (is_right_panel : bool) : str :=
  if negb is_right_panel then text
  else
    match cluster_texts with
    | [] => text
    | _ =>
        let common_words := analyze_common_words cluster_texts 3 2 in
        let tokens := tokenize_text text in
        concat
          (map (fun token =>
                  if is_highlighted common_words token
                  then span "activation-high" token
                  else span "activation-low" token)
               tokens)
    end.

(** ** Renderer of the dashboard *)

(** One JSON object of a series file: the fields the program reads, each
    absent ([None]) or present. *)
Record checkpoint_record : Type := {
  checkpoint_step : option Z;
  text_examples : option (list str);
  cluster_labels : option (list Z)
}.

(** The calls that put something on the page.  The markup around the
    values is left out; the values are the ones the f-strings print. *)
Inductive ui_call : Type :=
| ClusterOpen (color : str) (cluster_id : Z) (n_examples : Z)
| ExampleDiv (highlighted_text : str)
| MoreExamples (n : Z)
| ClusterClose
| StError (message : str).

Definition cluster_colors : list str :=
  map lit
  ["#FF6B6B"; "#4ECDC4"; "#45B7D1"; "#96CEB4"; "#FFEAA7";
   "#DDA0DD"; "#F39C12"; "#E74C3C"; "#9B59B6"; "#3498DB"]%string.

Definition clusters_t := dict Z (list str).

(** The grouping loop, on the pairs of a label and an example: a label
    seen for the first time gets an empty list, then the example is
    appended to the list of its label. *)
Definition group_pairs (pairs : list (Z * str)) : clusters_t :=
  fold_left
    (fun clusters le =>
       let label := fst le in
       let example := snd le in
       let clusters :=
         if dict_mem Z.eqb clusters label then clusters
         else dict_set Z.eqb clusters label [] in
       dict_set Z.eqb clusters label
                (dict_get_default Z.eqb clusters label [] ++ [example]))
    pairs [].

(** The loop runs on [zip(cluster_labels, text_examples)]. *)
Definition group_examples (labels : list Z) (examples : list str)
  : clusters_t :=
  group_pairs (combine labels examples).

(** [sorted(keys)] *)
Fixpoint insert_asc (x : Z) (l : list Z) : list Z :=
  match l with
  | [] => [x]
  | y :: l' => if (y <? x)%Z then y :: insert_asc x l' else x :: l
  end.

Definition sorted_keys (keys : list Z) : list Z :=
  fold_right insert_asc [] keys.

(** One turn of the loop on clusters. *)
Definition display_cluster (clusters : clusters_t) (is_right_panel : bool)
  (cluster_id : Z) : list ui_call :=
  let examples := dict_get_default Z.eqb clusters cluster_id [] in
  let color :=
    nth (Z.to_nat (cluster_id mod len cluster_colors)) cluster_colors [] in
  [ClusterOpen color cluster_id (len examples)]
  ++ map (fun example =>
            ExampleDiv (highlight_tokens example examples is_right_panel))
         (py_slice examples 0 5)
  ++ (if (5 <? len examples)%Z then [MoreExamples (len examples - 5)] else [])
  ++ [ClusterClose].

Definition display_cluster_data (data : checkpoint_record)
  (is_right_panel : bool) : list ui_call :=
  match cluster_labels data, text_examples data with
  | Some labels, Some examples =>
      let clusters := group_examples labels examples in
      flat_map (display_cluster clusters is_right_panel)
               (sorted_keys (map fst clusters))
  | _, _ => [StError (lit "Invalid data format")]
  end.

(** ** The two panels *)

(** A value, or the message of the exception raised. *)
Inductive result (A : Type) : Type :=
| Ok (a : A)
| Raise (exc : str).
Arguments Ok {A} a.
Arguments Raise {A} exc.

Definition bind {A B : Type} (r : result A) (f : A -> result B) : result B :=
  match r with
  | Ok a => f a
  | Raise e => Raise e
  end.

(** [next((d for d in data if d['checkpoint_step'] == step), None)]: the
    first record of that step; a record without the field raises. *)
Fixpoint next_with_step (data : list checkpoint_record) (step : Z)
  : result (option checkpoint_record) :=
  match data with
  | [] => Ok None
  | d :: rest =>
      match checkpoint_step d with
      | None => Raise (lit "KeyError: 'checkpoint_step'")
      | Some s => if (s =? step)%Z then Ok (Some d) else next_with_step rest step
      end
  end.

(** Truth value of a record: it has at least one key. *)
Definition record_truthy (d : checkpoint_record) : bool :=
  match checkpoint_step d, text_examples d, cluster_labels d with
  | None, None, None => false
  | _, _, _ => true
  end.

(** [data[-1] if data else None] *)
Definition last_record (data : list checkpoint_record)
  : option checkpoint_record :=
  last (map Some data) None.

Definition final_step : Z := 143000.

(** The left column: the checkpoint chosen on the slider.  This is the
    block of the column by itself; [main] comes to it after it has read
    the step of every record, see [main_view]. *)
Definition left_panel (data : list checkpoint_record) (checkpoint : Z)
  : result (list ui_call) :=
  bind (next_with_step data checkpoint) (fun current_data =>
    match current_data with
    | Some d =>
        if record_truthy d then Ok (display_cluster_data d false)
        else Ok [StError (lit "No data available for this checkpoint")]
    | None => Ok [StError (lit "No data available for this checkpoint")]
    end).

(** The right column: the final checkpoint, or else the last record.
    Again the block of the column by itself, see [main_view]. *)
Definition right_panel (data : list checkpoint_record)
  : result (list ui_call) :=
  let default := last_record data in
  bind (next_with_step data final_step) (fun found =>
    let final_data := match found with Some d => Some d | None => default end in
    match final_data with
    | Some d =>
        if record_truthy d then Ok (display_cluster_data d true)
        else Ok [StError (lit "No final data available")]
    | None => Ok [StError (lit "No final data available")]
    end).

(** ** Loader of the dashboard *)

(** [s.endswith(suffix)] *)
Definition endswith (s suffix : str) : bool :=
  starts_with (rev suffix) (rev s).

(** [s.replace(old, new)] for a non-empty [old]: occurrences are replaced
    from the left and do not overlap. *)
Fixpoint replace_from (old new : str) (skip : nat) (s : str) : str :=
  match s with
  | [] => []
  | c :: s' =>
      match skip with
      | S k => replace_from old new k s'
      | O =>
          if starts_with old s
          then new ++ replace_from old new (pred (length old)) s'
          else c :: replace_from old new 0 s'
      end
  end.

Definition replace (s old new : str) : str := replace_from old new 0 s.

(** Order of strings: by code point, a prefix first. *)
Fixpoint str_ltb (a b : str) : bool :=
  match a, b with
  | _, [] => false
  | [], _ :: _ => true
  | x :: a', y :: b' =>
      (ord x <? ord y)%N || ((ord x =? ord y)%N && str_ltb a' b')
  end.

Fixpoint insert_str (x : str) (l : list str) : list str :=
  match l with
  | [] => [x]
  | y :: l' => if str_ltb y x then y :: insert_str x l' else x :: l
  end.

Definition sorted_strs (l : list str) : list str := fold_right insert_str [] l.

(** A directory lists its files in the order of [os.listdir]; a file is
    its name and its lines.  The file system is the list of the paths
    that exist. *)
Definition file : Type := str * list str.
Definition file_system : Type := dict str (list file).

Definition search_paths (model_name : str) : option (list str) :=
  if str_eqb model_name (lit "Pythia-70M")
  then Some [lit "results"; lit "results/pythia70m"]
  else if str_eqb model_name (lit "Pythia-160M")
  then Some [lit "results/pythia160m"]
  else None.

(** The test on a file name, and the neuron it names. *)
Definition neuron_of_filename (model_name filename : str) : option str :=
  if str_eqb model_name (lit "Pythia-70M")
     && endswith filename (lit "_pythia70m_ckpt_series.jsonl")
  then Some (replace filename (lit "_pythia70m_ckpt_series.jsonl") [])
  else if str_eqb model_name (lit "Pythia-160M")
          && endswith filename (lit "_pythia160m_ckpt_series.jsonl")
  then Some (replace filename (lit "_pythia160m_ckpt_series.jsonl") [])
  else None.

(** The loader's variables: the series by neuron, the neurons found and
    the errors shown on the page. *)
Record load_state : Type := {
  all_neuron_data : dict str (list checkpoint_record);
  available_neurons : list str;
  shown : list ui_call
}.

Section Loader.
(** [json.loads]: the record of a line, or the exception. *)
Variable json_loads : str -> result checkpoint_record.

(** The loop on the lines of one file. *)
Fixpoint parse_lines (lines : list str) : result (list checkpoint_record) :=
  match lines with
  | [] => Ok []
  | line :: rest =>
      bind (json_loads (strip line)) (fun d =>
      bind (parse_lines rest) (fun data => Ok (d :: data)))
  end.

(** One turn of the loop on file names: other names are passed over; a
    file that loads is stored under its neuron; an exception is shown
    and the loop goes on. *)
Definition load_file (model_name : str) (st : load_state)
  (f : file) : load_state :=
  let filename := fst f in
  match neuron_of_filename model_name filename with
  | None => st
  | Some neuron_id =>
      match parse_lines (snd f) with
      | Ok data =>
          {| all_neuron_data :=
               dict_set str_eqb (all_neuron_data st) neuron_id data;
             available_neurons := available_neurons st ++ [neuron_id];
             shown := shown st |}
      | Raise e =>
          {| all_neuron_data := all_neuron_data st;
             available_neurons := available_neurons st;
             shown :=
               shown st
               ++ [StError (lit "Error loading " ++ filename ++ lit ": " ++ e)] |}
      end
  end.

Definition load_path (fs : file_system) (model_name : str)
  (st : load_state) (search_path : str) : load_state :=
  match dict_get str_eqb fs search_path with
  | None => st
  | Some files => fold_left (load_file model_name) files st
  end.

Definition load_neuron_data (fs : file_system) (model_name : str)
  : load_state :=
  let st0 := {| all_neuron_data := []; available_neurons := []; shown := [] |} in
  match search_paths model_name with
  | None => st0
  | Some paths =>
      let st := fold_left (load_path fs model_name) paths st0 in
      {| all_neuron_data := all_neuron_data st;
         available_neurons := sorted_strs (available_neurons st);
         shown := shown st |}
  end.
End Loader.

(** ** Notions used to state the properties *)

(** The class of the run a character starts. *)
Definition class_of (c : ascii) : ascii -> bool :=
  if is_space c then is_space else not_space.

(** A run: not empty, and of whitespace only or of none. *)
Definition run_ok (m : str) : Prop :=
  m <> [] /\ (forallb is_space m = true \/ forallb not_space m = true).

(** [a] occurs in [b]. *)
Definition occurs_in (a b : str) : Prop :=
  exists pre suf, b = pre ++ a ++ suf.

(** The test of the highlighter on a cleaned token: it is not empty and
    some common term contains it or is contained in it. *)
Definition overlaps (common : list str) (clean : str) : Prop :=
  clean <> []
  /\ exists t, In t common /\ (occurs_in t clean \/ occurs_in clean t).

(** The cleaned token as the specification words it: the token without
    its non-word characters. *)
Definition spec_clean_token (token : str) : str := filter is_word token.

Definition keys {K V : Type} (d : dict K V) : list K := map fst d.

(** The distinct elements of a list, in the order they are first seen. *)
Fixpoint first_seen (l : list Z) : list Z :=
  match l with
  | [] => []
  | x :: l' => x :: filter (fun y => negb (y =? x)%Z) (first_seen l')
  end.

(** The examples paired with one label, in the order of the pairs. *)
Definition pairs_of (pairs : list (Z * str)) (label : Z) : list str :=
  map snd (filter (fun le => (fst le =? label)%Z) pairs).

(** The examples of one label, in the order of the record. *)
Definition examples_of (labels : list Z) (examples : list str) (label : Z)
  : list str :=
  pairs_of (combine labels examples) label.

Definition is_example_div (c : ui_call) : bool :=
  match c with ExampleDiv _ => true | _ => false end.

Definition is_st_error (c : ui_call) : bool :=
  match c with StError _ => true | _ => false end.

(** [t] is a fragment that the second loop counts: a slice cut from a
    kept word, of a length and at a start of the two ranges, that is not
    a stop word. *)
Definition is_fragment (min_length : Z) (words : list str) (t : str) : Prop :=
  in_stop_words t = false
  /\ exists word frag_len start,
       In word words /\ keep_word min_length word = true
       /\ (min_length <= frag_len < Z.min (len word + 1) 8)%Z
       /\ (0 <= start < len word - frag_len + 1)%Z
       /\ t = py_slice word start (start + frag_len).

(** The merged score of a term, from its two counts. *)
Definition merged_score (word_count fragment_count : option Z) : option Z :=
  match word_count, fragment_count with
  | Some c, Some f => if (5 <=? f)%Z then Some (c * 2 + f)%Z else Some (c * 2)%Z
  | Some c, None => Some (c * 2)%Z
  | None, Some f => if (5 <=? f)%Z then Some f else None
  | None, None => None
  end.

(** The words of the texts: the candidates of the first step. *)
Definition words_of (texts : list str) : list str :=
  re_findall word_re (lower (join (lit " ") texts)).

(** Descending order of the scores. *)
Definition score_ge (a b : str * Z) : Prop := (snd b <= snd a)%Z.

(** A final record with one cluster of six examples. *)
Definition six_examples : list str :=
  [lit "ant bee"; lit "x"; lit "x"; lit "x"; lit "x"; lit "cat cat dog dog"].

Definition six_record : checkpoint_record :=
  {| checkpoint_step := Some 143000%Z;
     text_examples := Some six_examples;
     cluster_labels := Some [0; 0; 0; 0; 0; 0]%Z |}.

(** The test of the generator: the record is of that step. *)
Definition has_step (step : Z) (d : checkpoint_record) : bool :=
  match checkpoint_step d with
  | Some s => (s =? step)%Z
  | None => false
  end.

(** A series with the single step 3000. *)
Definition record_3000 : checkpoint_record :=
  {| checkpoint_step := Some 3000%Z;
     text_examples := Some [lit "the cat sat"; lit "a cat ran"];
     cluster_labels := Some [0; 0]%Z |}.

(** [json.loads] on the two lines used below: the empty object parses to
    a record with none of the fields, and a lone opening brace does not
    parse. *)
Definition empty_record : checkpoint_record :=
  {| checkpoint_step := None; text_examples := None; cluster_labels := None |}.

Definition json_loads_sample (line : str) : result checkpoint_record :=
  if str_eqb line (lit "{}") then Ok empty_record
  else Raise (lit "Expecting property name enclosed in double quotes").

(** A results directory with one series whose only record has no field,
    one series that does not parse and one that does. *)
Definition fields_missing_fs : file_system :=
  [(lit "results",
    [(lit "L0N0_pythia70m_ckpt_series.jsonl", [lit "{}"])])].

Definition broken_file : file :=
  (lit "L0N20_pythia70m_ckpt_series.jsonl", [lit "{}"; lit "{"]).

Definition sound_file : file :=
  (lit "L0N40_pythia70m_ckpt_series.jsonl", [lit "{}"]).

(** The second state holds the same data as the first and shows at least
    the same calls. *)
Definition extends (st1 st2 : load_state) : Prop :=
  all_neuron_data st1 = all_neuron_data st2
  /\ available_neurons st1 = available_neurons st2
  /\ forall c, In c (shown st1) -> In c (shown st2).

(** ** Notions used to state further properties *)

(** The number of times [w] occurs in [l]. *)
Definition occurrences (l : list str) (w : str) : Z :=
  Z.of_nat (count_occ (list_eq_dec ascii_dec) l w).

(** A count as a dictionary holds it: no entry for a count of 0. *)
Definition count_entry (n : Z) : option Z :=
  if (0 <? n)%Z then Some n else None.

(** The fragments the three nested loops cut from one word, in the order
    of the loops, stop words left out. *)
Definition fragments_of (min_length : Z) (word : str) : list str :=
  filter (fun fragment => negb (in_stop_words fragment))
    (flat_map
       (fun frag_len =>
          map (fun start => py_slice word start (start + frag_len))
              (py_range 0 (len word - frag_len + 1)))
       (py_range min_length (Z.min (len word + 1) 8))).

(** The fragments of all the kept words, in the order of the words. *)
Definition all_fragments (min_length : Z) (words : list str) : list str :=
  flat_map (fragments_of min_length) (filter (keep_word min_length) words).

(** The position just before a word is not inside a word: the character
    there, if any, is not a word character. *)
Definition word_boundary_before (pre : str) : Prop :=
  is_word_at (hd_error (rev pre)) = false.

Definition word_boundary_after (post : str) : Prop :=
  is_word_at (hd_error post) = false.

(** The entries of one score. *)
Definition has_score (v : Z) (e : str * Z) : bool := (snd e =? v)%Z.

(** The labels of the clusters opened by a list of calls, in order. *)
Definition opened (calls : list ui_call) : list Z :=
  flat_map (fun c => match c with
                     | ClusterOpen _ cluster_id _ => [cluster_id]
                     | _ => []
                     end) calls.

(** The colour picked for a label. *)
Definition cluster_color (cluster_id : Z) : str :=
  nth (Z.to_nat (cluster_id mod len cluster_colors)) cluster_colors [].

(** A record with the two fields read by the renderer. *)
Definition record_of (labels : list Z) (examples : list str)
  : checkpoint_record :=
  {| checkpoint_step := None;
     text_examples := Some examples;
     cluster_labels := Some labels |}.

(** The file is a series file of the model, by its name. *)
Definition is_series_file (model_name : str) (f : file) : bool :=
  match neuron_of_filename model_name (fst f) with
  | Some _ => true
  | None => false
  end.

(** The series files of the model in the search paths that exist, in the
    order in which the loader meets them. *)
Definition series_files (fs : file_system) (model_name : str) : list file :=
  match search_paths model_name with
  | None => []
  | Some paths =>
      flat_map
        (fun search_path =>
           match dict_get str_eqb fs search_path with
           | Some files => filter (is_series_file model_name) files
           | None => []
           end)
        paths
  end.

(** Not after, in the order of strings. *)
Definition str_le (a b : str) : Prop := str_ltb b a = false.

(** The neurons listed are the neurons that have data, and no neuron has
    two entries of data. *)
Definition listed_have_data (st : load_state) : Prop :=
  (forall n, In n (available_neurons st) <-> In n (keys (all_neuron_data st)))
  /\ NoDup (keys (all_neuron_data st)).

(** Each series file is either listed or reported. *)
Definition accounted (n : nat) (st : load_state) : Prop :=
  length (available_neurons st) + length (shown st) = n
  /\ Forall (fun c => is_st_error c = true) (shown st).

(** ** The neuron chosen on the page *)

(** The decimal writing of an integer: its digits, after a minus sign for
    a negative one.  It is what [str(n)] returns when it returns. *)
Definition decimal_of_int (n : Z) : str :=
  list_ascii_of_string (NilZero.string_of_int (Z.to_int n)).

(** [f"L{layer}N{neuron}"] of [main], on the values of the two number
    inputs of the page, which lie between 0 and 11 and between 0 and 3060
    and are written in full. *)
Definition current_neuron (layer neuron : Z) : str :=
  lit "L" ++ decimal_of_int layer ++ lit "N" ++ decimal_of_int neuron.

(** [current_neuron in all_neuron_data] and [all_neuron_data[current_neuron]]
    of [main]: the series of the neuron, if it was loaded. *)
Definition lookup_neuron (st : load_state) (layer neuron : Z)
  : option (list checkpoint_record) :=
  dict_get str_eqb (all_neuron_data st) (current_neuron layer neuron).

(** The name of the series file of a neuron, for the two models. *)
Definition series_name (model_name neuron_id : str) : str :=
  if str_eqb model_name (lit "Pythia-70M")
  then neuron_id ++ lit "_pythia70m_ckpt_series.jsonl"
  else neuron_id ++ lit "_pythia160m_ckpt_series.jsonl".

Definition known_model (model_name : str) : Prop :=
  model_name = lit "Pythia-70M" \/ model_name = lit "Pythia-160M".

Definition no_underscore (s : str) : bool :=
  forallb (fun c => negb (Ascii.eqb c "_")) s.

(** ** The static export: finding and loading the series *)

(** The lines of the file [dir/name], when it exists. *)
Definition find_file (fs : file_system) (dir name : str)
  : option (list str) :=
  match dict_get str_eqb fs dir with
  | Some files => dict_get str_eqb files name
  | None => None
  end.

(** [f"_{model}_ckpt_series.jsonl"] *)
Definition export_suffix (model : str) : str :=
  lit "_" ++ model ++ lit "_ckpt_series.jsonl".

(** [s.split(sep)] for a separator of one character. *)
Fixpoint split_char (sep : ascii) (s : str) : list str :=
  match s with
  | [] => [[]]
  | c :: s' =>
      match split_char sep s' with
      | piece :: rest =>
          if Ascii.eqb c sep then [] :: piece :: rest
          else (c :: piece) :: rest
      | [] => [[c]]
      end
  end.

Definition is_digit (c : ascii) : bool := in_range 48 57 c.

(** The digits of an integer literal: underscores are allowed, one at a
    time, between two digits. *)
Fixpoint digits_ok (after_digit : bool) (s : str) : bool :=
  match s with
  | [] => after_digit
  | c :: s' =>
      if is_digit c then digits_ok true s'
      else if Ascii.eqb c "_"
      then after_digit
           && match s' with d :: _ => is_digit d | [] => false end
           && digits_ok false s'
      else false
  end.

(** The whitespace that [int] drops around a number; the separators 28
    to 31 are not part of it. *)
Definition is_int_space (c : ascii) : bool :=
  in_range 9 13 c || (ord c =? 32)%N || (ord c =? 133)%N || (ord c =? 160)%N.

(** The most digits that [int] reads and that [str] writes: the value of
    [sys.get_int_max_str_digits()]. *)
Definition int_max_str_digits : Z := 4300.

(** [int(s)]: whitespace around is dropped, a sign may come first, then
    the digits; anything else is a ValueError, and so are more digits than
    the limit, leading zeros counted. *)
Definition int_of_str (s : str) : result Z :=
  let s := rev (drop_while is_int_space
                  (rev (drop_while is_int_space s))) in
  let (negative, body) :=
    match s with
    | c :: r =>
        if Ascii.eqb c "-" then (true, r)
        else if Ascii.eqb c "+" then (false, r)
        else (false, s)
    | [] => (false, s)
    end in
  if digits_ok false body then
    if (int_max_str_digits <? len (filter is_digit body))%Z
    then Raise (lit "ValueError")
    else
      match NilEmpty.uint_of_string
              (string_of_list_ascii (filter is_digit body)) with
      | Some d => Ok (if negative then - Z.of_uint d else Z.of_uint d)%Z
      | None => Raise (lit "ValueError")
      end
  else Raise (lit "ValueError").

(** The number of digits of the decimal writing of an integer. *)
Definition num_digits (n : Z) : Z := len (filter is_digit (decimal_of_int n)).

(** [str(n)], also in an f-string: a ValueError for an integer of more
    digits than the limit. *)
Definition str_of_int (n : Z) : result str :=
  if (int_max_str_digits <? num_digits n)%Z then Raise (lit "ValueError")
  else Ok (decimal_of_int n).

(** [f"L{layer}N{neuron}"] for any two integers. *)
Definition neuron_name (layer neuron : Z) : result str :=
  bind (str_of_int layer) (fun l =>
  bind (str_of_int neuron) (fun n => Ok (lit "L" ++ l ++ lit "N" ++ n))).

(** The character does not occur in the string. *)
Definition no_char (c : ascii) (s : str) : bool :=
  forallb (fun x => negb (Ascii.eqb x c)) s.

(** The sort key of a neuron name:
    [(int(x.split('N')[0][1:]), int(x.split('N')[1]))]. *)
Definition neuron_key (x : str) : result (Z * Z) :=
  let pieces := split_char "N" x in
  bind (int_of_str (tl (hd [] pieces))) (fun layer =>
  match nth_error pieces 1 with
  | None => Raise (lit "IndexError")
  | Some piece => bind (int_of_str piece) (fun index => Ok (layer, index))
  end).

(** Order of the keys, as Python orders tuples. *)
Definition key_ltb (a b : Z * Z) : bool :=
  (fst a <? fst b)%Z || ((fst a =? fst b)%Z && (snd a <? snd b)%Z).

Fixpoint insert_keyed (x : (Z * Z) * str) (l : list ((Z * Z) * str))
  : list ((Z * Z) * str) :=
  match l with
  | [] => [x]
  | y :: l' =>
      if key_ltb (fst y) (fst x) then y :: insert_keyed x l' else x :: l
  end.

(** The keys are computed first, in the order of the list. *)
Fixpoint with_keys (names : list str) : result (list ((Z * Z) * str)) :=
  match names with
  | [] => Ok []
  | x :: rest =>
      bind (neuron_key x) (fun k =>
      bind (with_keys rest) (fun keyed => Ok ((k, x) :: keyed)))
  end.

(** [sorted(neurons, key=...)] *)
Definition sorted_by_key (names : list str) : result (list str) :=
  bind (with_keys names) (fun keyed =>
    Ok (map snd (fold_right insert_keyed [] keyed))).

(** The loop of [get_available_neurons] on one directory. *)
Definition neurons_in (fs : file_system) (model base_dir : str)
  : list str :=
  match dict_get str_eqb fs base_dir with
  | None => []
  | Some files =>
      map (fun f => replace (fst f) (export_suffix model) [])
          (filter (fun f => endswith (fst f) (export_suffix model)) files)
  end.

Definition get_available_neurons (fs : file_system) (model : str)
  : result (list str) :=
  sorted_by_key
    (flat_map (neurons_in fs model) [lit "results"; lit "results/" ++ model]).

(** What the export has when its data is collected; the first two are
    the early returns. *)
Inductive export_outcome : Type :=
| NoNeurons
| NoSample
| Collected (checkpoint_steps : list Z)
            (neuron_data : dict str (list checkpoint_record)).

Section Exporter.
Variable json_loads : str -> result checkpoint_record.

(** The lines printed, and the records or the exception. *)
Definition load_checkpoint_data (fs : file_system) (neuron_id model : str)
  : list str * result (list checkpoint_record) :=
  let name := neuron_id ++ export_suffix model in
  match find_file fs (lit "results/" ++ model) name with
  | Some lines => ([], parse_lines json_loads lines)
  | None =>
      match find_file fs (lit "results") name with
      | Some lines => ([], parse_lines json_loads lines)
      | None => ([lit "Could not find data file for " ++ neuron_id], Ok [])
      end
  end.

(** [[checkpoint['checkpoint_step'] for checkpoint in sample_data]] *)
Fixpoint steps_of (data : list checkpoint_record) : result (list Z) :=
  match data with
  | [] => Ok []
  | d :: rest =>
      match checkpoint_step d with
      | None => Raise (lit "KeyError: 'checkpoint_step'")
      | Some s => bind (steps_of rest) (fun steps => Ok (s :: steps))
      end
  end.

(** The loop that loads every neuron: a series that is empty is left out,
    an exception ends the loop. *)
Fixpoint load_all (fs : file_system) (neurons : list str)
  (all : dict str (list checkpoint_record))
  : result (dict str (list checkpoint_record)) :=
  match neurons with
  | [] => Ok all
  | neuron :: rest =>
      bind (snd (load_checkpoint_data fs neuron (lit "pythia70m")))
        (fun data =>
           load_all fs rest
             (match data with
              | [] => all
              | _ => dict_set str_eqb all neuron data
              end))
  end.

(** The part of [create_interactive_visualization] that collects the
    data, before the page is written. *)
Definition collect_export (fs : file_system) : result export_outcome :=
  bind (get_available_neurons fs (lit "pythia70m")) (fun available_neurons =>
  match available_neurons with
  | [] => Ok NoNeurons
  | first :: _ =>
      bind (snd (load_checkpoint_data fs first (lit "pythia70m")))
        (fun sample_data =>
           match sample_data with
           | [] => Ok NoSample
           | _ =>
               bind (steps_of sample_data) (fun checkpoint_steps =>
               bind (load_all fs available_neurons [])
                    (fun all => Ok (Collected checkpoint_steps all)))
           end)
  end).
End Exporter.

(** ** The page of one neuron *)

(** The part of [main] that follows the lookup of the series of the
    neuron: the step of every record is read for the options of the
    slider, then the two panels are drawn.  [checkpoint] is the value that
    the slider returns.  The result is the options of the slider and the
    calls of the two panels. *)
Definition main_view (data : list checkpoint_record) (checkpoint : Z)
  : result (list Z * list ui_call) :=
  bind (steps_of data) (fun steps =>
  let checkpoint_steps := sorted_keys steps in
  bind (left_panel data checkpoint) (fun left =>
  bind (right_panel data) (fun right =>
  Ok (checkpoint_steps, left ++ right)))).

(** What the left panel shows when every record has its step: the first
    record of the chosen step, or the error. *)
Definition left_shown (data : list checkpoint_record) (checkpoint : Z)
  : list ui_call :=
  match find (has_step checkpoint) data with
  | Some d => display_cluster_data d false
  | None => [StError (lit "No data available for this checkpoint")]
  end.

(** What the right panel shows when every record has its step: the first
    record of the final step, or else the last record, or the error for an
    empty series. *)
Definition right_shown (data : list checkpoint_record) : list ui_call :=
  match find (has_step final_step) data with
  | Some d => display_cluster_data d true
  | None =>
      match last_record data with
      | Some d => display_cluster_data d true
      | None => [StError (lit "No final data available")]
      end
  end.

(** The texts of the examples shown by a list of calls, in order. *)
Definition shown_examples (calls : list ui_call) : list str :=
  flat_map (fun c => match c with
                     | ExampleDiv highlighted_text => [highlighted_text]
                     | _ => []
                     end) calls.

(** A digit or a minus sign. *)
Definition is_int_char (c : ascii) : bool := is_digit c || Ascii.eqb c "-".

(** Not after, in the order of the keys. *)
Definition key_le (a b : Z * Z) : Prop := key_ltb b a = false.

(** The first name does not come after the second by its key. *)
Definition name_le (a b : str) : Prop :=
  exists ka kb, neuron_key a = Ok ka /\ neuron_key b = Ok kb /\ key_le ka kb.

(** The neuron names that [get_available_neurons] collects before it
    sorts them. *)
Definition collected_names (fs : file_system) (model : str) : list str :=
  flat_map (neurons_in fs model) [lit "results"; lit "results/" ++ model].

(** The file is a series file of that neuron, by its name. *)
Definition names_neuron (model_name neuron_id : str) (f : file) : bool :=
  match neuron_of_filename model_name (fst f) with
  | Some k => str_eqb k neuron_id
  | None => false
  end.

(** The line of the record of step 3000, and [json.loads] on the lines
    used in the examples. *)
Definition line_3000 : str :=
  lit "{" ++ [dquote] ++ lit "checkpoint_step" ++ [dquote] ++ lit ": 3000, "
  ++ [dquote] ++ lit "text_examples" ++ [dquote] ++ lit ": ["
  ++ [dquote] ++ lit "the cat sat" ++ [dquote] ++ lit ", "
  ++ [dquote] ++ lit "a cat ran" ++ [dquote] ++ lit "], "
  ++ [dquote] ++ lit "cluster_labels" ++ [dquote] ++ lit ": [0, 0]}".

Definition json_loads_lines (line : str) : result checkpoint_record :=
  if str_eqb line line_3000 then Ok record_3000 else json_loads_sample line.

Definition one_series_fs : file_system :=
  [(lit "results/pythia70m",
    [(lit "L0N0_pythia70m_ckpt_series.jsonl", [line_3000])])].


(** * Properties *)

(** ** Runs of characters *)

Lemma take_drop_while (p : ascii -> bool) (s : str) :
  take_while p s ++ drop_while p s = s.
Proof.
  induction s as [|c s IH]; simpl; [reflexivity|].
  destruct (p c); simpl; [now rewrite IH | reflexivity].
Qed.

Lemma take_while_all (p : ascii -> bool) (s : str) :
  forallb p (take_while p s) = true.
Proof.
  induction s as [|c s IH]; simpl; [reflexivity|].
  destruct (p c) eqn:E; simpl; [now rewrite E | reflexivity].
Qed.

Lemma drop_while_length (p : ascii -> bool) (s : str) :
  length (drop_while p s) <= length s.
Proof.
  induction s as [|c s IH]; simpl; [lia|].
  destruct (p c); simpl; lia.
Qed.

Lemma drop_while_head (p : ascii -> bool) (s : str) (c : ascii) (r : str) :
  drop_while p s = c :: r -> p c = false.
Proof.
  induction s as [|x s IH]; simpl; [discriminate|].
  destruct (p x) eqn:E; [assumption|].
  intros H; injection H as -> _; assumption.
Qed.

Lemma drop_while_nil (p : ascii -> bool) (s : str) :
  drop_while p s = [] <-> forallb p s = true.
Proof.
  induction s as [|c s IH]; simpl; [tauto|].
  destruct (p c); simpl; [assumption|].
  split; discriminate.
Qed.

Lemma strip_nil (s : str) : strip s = [] <-> forallb is_space s = true.
Proof.
  unfold strip. split.
  - intros H. apply (f_equal (@rev ascii)) in H. rewrite rev_involutive in H.
    simpl in H. apply drop_while_nil in H.
    destruct (drop_while is_space s) as [|c r] eqn:E.
    + now apply drop_while_nil.
    + apply drop_while_head in E. rewrite forallb_forall in H.
      specialize (H c). rewrite <- in_rev in H.
      rewrite H in E; [discriminate | now left].
  - intros H. apply drop_while_nil in H. rewrite H. reflexivity.
Qed.

Lemma truthy_strip (s : str) : truthy (strip s) = negb (forallb is_space s).
Proof.
  destruct (forallb is_space s) eqn:E.
  - apply strip_nil in E. now rewrite E.
  - destruct (strip s) eqn:F; [|reflexivity].
    apply strip_nil in F. congruence.
Qed.

(** ** The matcher on the three patterns *)

Lemma plus_cls_accept (p : ascii -> bool) (s : str) (n : nat) :
  plus_cls p accept s n =
  match take_while p s with
  | [] => None
  | run => Some (n + length run)
  end.
Proof.
  revert n. induction s as [|c s IH]; intros n; simpl; [reflexivity|].
  destruct (p c); [|reflexivity].
  rewrite IH. destruct (take_while p s); simpl; unfold accept; f_equal; lia.
Qed.

Lemma class_of_self (c : ascii) : class_of c c = true.
Proof. unfold class_of, not_space. destruct (is_space c) eqn:E; now rewrite ?E. Qed.

Lemma tok_re_here (prev : option ascii) (s : str) :
  match_here tok_re prev s =
  match s with
  | [] => None
  | c :: _ => Some (length (take_while (class_of c) s))
  end.
Proof.
  unfold match_here, tok_re. simpl rmatch. rewrite !plus_cls_accept.
  destruct s as [|c s]; [reflexivity|].
  unfold class_of, not_space. simpl take_while.
  destruct (is_space c) eqn:E; simpl; rewrite ?E; reflexivity.
Qed.

Lemma firstn_length_app {A : Type} (a b : list A) :
  firstn (length a) (a ++ b) = a.
Proof. induction a as [|x a IH]; simpl; [reflexivity | now rewrite IH]. Qed.

Lemma firstn_take_while (p : ascii -> bool) (s : str) :
  firstn (length (take_while p s)) s = take_while p s.
Proof.
  rewrite <- (take_drop_while p s) at 2. apply firstn_length_app.
Qed.

(** Characters covered by the last match are passed over. *)
Lemma findall_skip (r : regex) (m : str) :
  forall (prev : option ascii) (rest : str),
  findall_from r prev (length m) (m ++ rest) =
  findall_from r (fold_left (fun _ c => Some c) m prev) 0 rest.
Proof.
  induction m as [|c m IH]; intros prev rest.
  - destruct rest; reflexivity.
  - simpl length. simpl app. simpl findall_from. now rewrite IH.
Qed.

Lemma findall_tok_prev (s : str) (k : nat) (p1 p2 : option ascii) :
  findall_from tok_re p1 k s = findall_from tok_re p2 k s.
Proof.
  revert k p1 p2. induction s as [|c s IH]; intros k p1 p2; cbn [findall_from].
  - rewrite !tok_re_here. reflexivity.
  - destruct k; [|reflexivity]. rewrite !tok_re_here. reflexivity.
Qed.

Lemma findall_tok_cons (prev : option ascii) (c : ascii) (s : str) :
  findall_from tok_re prev 0 (c :: s) =
  take_while (class_of c) (c :: s)
  :: findall_from tok_re None 0 (drop_while (class_of c) (c :: s)).
Proof.
  cbn [findall_from]. rewrite tok_re_here, firstn_take_while. f_equal.
  simpl take_while. simpl drop_while. rewrite class_of_self.
  simpl length. simpl pred.
  rewrite <- (take_drop_while (class_of c) s) at 2.
  rewrite findall_skip. apply findall_tok_prev.
Qed.

Lemma class_of_run (c : ascii) (m : str) :
  forallb (class_of c) m = true -> m <> [] ->
  run_ok m /\ forallb is_space m = is_space c.
Proof.
  intros H Hne. unfold class_of in H. destruct (is_space c) eqn:E.
  - split; [split; auto|assumption].
  - split; [split; auto|].
    destruct m as [|x m]; [congruence|]. simpl in *.
    apply andb_prop in H. destruct H as [H _]. unfold not_space in H.
    destruct (is_space x); [discriminate|reflexivity].
Qed.

Lemma findall_tok_spec (n : nat) : forall s, length s <= n ->
  let ms := findall_from tok_re None 0 s in
  concat ms = s
  /\ Forall run_ok ms
  /\ (forall i m1 m2, nth_error ms i = Some m1 -> nth_error ms (S i) = Some m2 ->
        forallb is_space m1 = negb (forallb is_space m2))
  /\ (forall m, hd_error ms = Some m ->
        exists c, hd_error s = Some c /\ forallb is_space m = is_space c).
Proof.
  induction n as [|n IH]; intros s Hlen.
  - destruct s; [|simpl in Hlen; lia]. cbn [findall_from].
    rewrite tok_re_here. simpl.
    repeat split; auto.
    + intros [|i] m1 m2; discriminate.
    + discriminate.
  - destruct s as [|c s].
    { cbn [findall_from]. rewrite tok_re_here. simpl. repeat split; auto.
      - intros [|i] m1 m2; discriminate.
      - discriminate. }
    intros ms. subst ms. rewrite findall_tok_cons.
    set (run := take_while (class_of c) (c :: s)).
    set (rest := drop_while (class_of c) (c :: s)).
    assert (Hrun : run_ok run /\ forallb is_space run = is_space c).
    { apply class_of_run; [apply take_while_all|].
      unfold run. simpl. now rewrite class_of_self. }
    assert (Hrest : length rest <= n).
    { unfold rest. simpl. rewrite class_of_self.
      pose proof (drop_while_length (class_of c) s). simpl in Hlen. lia. }
    destruct (IH rest Hrest) as (Hcat & Hall & Halt & Hhd).
    repeat split.
    + simpl. rewrite Hcat. apply take_drop_while.
    + constructor; [apply Hrun | assumption].
    + intros [|i] m1 m2 H1 H2; simpl in H1, H2.
      * injection H1 as <-.
        destruct (Hhd m2) as (c' & Hc' & Hm2).
        { destruct (findall_from tok_re None 0 rest); [discriminate|]. simpl in *. assumption. }
        destruct Hrun as [_ ->]. rewrite Hm2.
        destruct rest as [|x rest'] eqn:Er; [discriminate|].
        injection Hc' as <-. apply drop_while_head in Er.
        unfold class_of, not_space in Er. destruct (is_space c) eqn:E.
        -- rewrite Er. reflexivity.
        -- destruct (is_space x); [reflexivity|discriminate].
      * eapply Halt; eassumption.
    + intros m Hm. simpl in Hm. injection Hm as <-.
      exists c. split; [reflexivity|apply Hrun].
Qed.

(** ** Tokenizer *)

(** C4.  The matches of [\S+|\s+] are the maximal runs of non-whitespace
    and of whitespace of the text, in order: put together they give the
    text back, each is a non-empty run of one kind, and two neighbours are
    of different kinds.  The tokenizer keeps the matches that are not
    whitespace only.  On "a  b" it gives "a" and "b", on the empty text
    nothing. *)
Theorem tokenize_text_runs (text : str) :
  let matches := re_findall tok_re text in
  concat matches = text
  /\ Forall (fun m => m <> []
                      /\ (forallb is_space m = true
                          \/ forallb not_space m = true)) matches
  /\ (forall i m1 m2,
        nth_error matches i = Some m1 -> nth_error matches (S i) = Some m2 ->
        forallb is_space m1 = negb (forallb is_space m2))
  /\ tokenize_text text
     = filter (fun m => negb (forallb is_space m)) matches
  /\ tokenize_text (lit "a  b") = [lit "a"; lit "b"]
  /\ tokenize_text (lit "") = [].
Proof.
  intros matches.
  destruct (@findall_tok_spec (length text) text (le_n _))
    as (Hcat & Hall & Halt & _).
  repeat split; try assumption; try reflexivity.
  unfold tokenize_text. fold matches. apply filter_ext.
  intros m. apply truthy_strip.
Qed.

(** ** The word pattern and the cleaning pattern *)

Lemma az_is_word (c : ascii) : is_az c = true -> is_word c = true.
Proof.
  unfold is_az, is_word. intros ->.
  rewrite !orb_true_r. reflexivity.
Qed.

Lemma take_while_nil_drop (p : ascii -> bool) (s : str) :
  take_while p s = [] -> drop_while p s = s.
Proof.
  destruct s as [|c s]; simpl; [reflexivity|].
  destruct (p c); [discriminate|reflexivity].
Qed.

Lemma plus_az_boundary (s : str) (n : nat) :
  plus_cls is_az (rmatch WordB accept) s n =
  match take_while is_az s with
  | [] => None
  | run =>
      if is_word_at (hd_error (drop_while is_az s)) then None
      else Some (n + length run)
  end.
Proof.
  revert n. induction s as [|c s IH]; intros n; [reflexivity|].
  cbn [plus_cls take_while drop_while].
  destruct (is_az c) eqn:Ec; [|reflexivity].
  rewrite IH. cbn [rmatch is_word_at]. rewrite (az_is_word _ Ec).
  destruct (take_while is_az s) as [|x run] eqn:Erun.
  - rewrite (take_while_nil_drop _ _ Erun).
    destruct (is_word_at (hd_error s)); simpl; unfold accept; f_equal; lia.
  - destruct (is_word_at (hd_error (drop_while is_az s))).
    + destruct s as [|y s]; [discriminate|]. simpl in Erun.
      destruct (is_az y) eqn:Ey; [|discriminate].
      simpl. now rewrite (az_is_word _ Ey).
    + f_equal. simpl. lia.
Qed.

Lemma word_re_here (prev : option ascii) (s : str) :
  match_here word_re prev s =
  if is_word_at prev then None
  else match take_while is_az s with
       | [] => None
       | run =>
           if is_word_at (hd_error (drop_while is_az s)) then None
           else Some (length run)
       end.
Proof.
  unfold match_here, word_re. cbn [rmatch]. rewrite plus_az_boundary.
  destruct (is_word_at prev) eqn:Ep; simpl xorb.
  - destruct s as [|c s]; [reflexivity|]. simpl.
    destruct (is_word c) eqn:Ew; [reflexivity|]. simpl.
    destruct (is_az c) eqn:Ec; [|reflexivity].
    rewrite (az_is_word _ Ec) in Ew. discriminate.
  - destruct s as [|c s]; [reflexivity|]. simpl.
    destruct (is_word c) eqn:Ew; [reflexivity|].
    destruct (is_az c) eqn:Ec; [|reflexivity].
    rewrite (az_is_word _ Ec) in Ew. discriminate.
Qed.

(** Every word found is a non-empty run of the letters a to z. *)
Lemma findall_word_az (s : str) : forall prev k w,
  In w (findall_from word_re prev k s) -> w <> [] /\ forallb is_az w = true.
Proof.
  induction s as [|c s IH]; intros prev k w; cbn [findall_from].
  - rewrite word_re_here. simpl.
    destruct k; destruct (is_word_at prev); simpl; tauto.
  - destruct k as [|k]; [|apply IH].
    rewrite word_re_here.
    destruct (is_word_at prev); [apply IH|].
    destruct (take_while is_az (c :: s)) as [|x run] eqn:Erun; [apply IH|].
    destruct (is_word_at (hd_error (drop_while is_az (c :: s)))); [apply IH|].
    intros [Hw|Hw]; [|eapply IH; eassumption].
    rewrite <- Erun, firstn_take_while in Hw. subst w. split.
    + rewrite Erun. discriminate.
    + apply take_while_all.
Qed.

Lemma nonword_re_here (prev : option ascii) (s : str) :
  match_here nonword_re prev s =
  match s with
  | c :: _ => if is_word c then None else Some 1
  | [] => None
  end.
Proof.
  destruct s as [|c s]; [reflexivity|].
  unfold match_here, nonword_re, not_word. simpl.
  destruct (is_word c); reflexivity.
Qed.

Lemma sub_nonword (s : str) : forall prev,
  sub_from nonword_re [] prev 0 s = filter is_word s.
Proof.
  induction s as [|c s IH]; intros prev; [reflexivity|].
  cbn [sub_from filter]. rewrite nonword_re_here.
  destruct (is_word c); simpl; now rewrite IH.
Qed.

Lemma clean_token_filter (token : str) :
  clean_token token = filter is_word (lower token).
Proof. apply sub_nonword. Qed.

(** ** Substrings *)

Lemma starts_with_spec (a b : str) :
  starts_with a b = true <-> exists suf, b = a ++ suf.
Proof.
  revert b. induction a as [|x a IH]; intros b; simpl.
  - split; [intros _; now exists b | reflexivity].
  - destruct b as [|y b].
    + split; [discriminate | intros [suf H]; discriminate].
    + rewrite andb_true_iff, Ascii.eqb_eq, IH. split.
      * intros [-> [suf ->]]. now exists suf.
      * intros [suf H]. injection H as -> ->. split; [reflexivity|now exists suf].
Qed.

Lemma str_in_spec (a b : str) : str_in a b = true <-> occurs_in a b.
Proof.
  unfold occurs_in. induction b as [|y b IH]; simpl.
  - rewrite orb_false_r, starts_with_spec. split.
    + intros [suf H]. exists [], suf. assumption.
    + intros (pre & suf & H). destruct pre; [now exists suf|discriminate].
  - rewrite orb_true_iff, starts_with_spec, IH. split.
    + intros [[suf H]|(pre & suf & H)].
      * exists [], suf. assumption.
      * exists (y :: pre), suf. simpl. now rewrite H.
    + intros (pre & suf & H). destruct pre as [|z pre].
      * left. now exists suf.
      * right. injection H as _ H. now exists pre, suf.
Qed.

Lemma truthy_spec (s : str) : truthy s = true <-> s <> [].
Proof. destruct s; simpl; split; congruence. Qed.

Lemma is_highlighted_spec (common : list str) (token : str) :
  is_highlighted common token = true
  <-> overlaps common (filter is_word (lower token)).
Proof.
  unfold is_highlighted, overlaps. rewrite clean_token_filter.
  set (clean := filter is_word (lower token)).
  destruct (truthy clean) eqn:E.
  - apply truthy_spec in E. rewrite existsb_exists. split.
    + intros (t & Ht & H). split; [assumption|]. exists t. split; [assumption|].
      apply orb_true_iff in H. rewrite !str_in_spec in H. assumption.
    + intros (_ & t & Ht & H). exists t. split; [assumption|].
      apply orb_true_iff. rewrite !str_in_spec. assumption.
  - split; [discriminate|]. intros [H _]. apply truthy_spec in H. congruence.
Qed.

(** ** Token highlighter *)

(** C3.  With no cluster texts, or on the panel that is not emphasized,
    every token gets the low activation, one value per token; the
    dashboard's [highlight_tokens] then returns the text as it is, with no
    token marked. *)
Theorem highlight_pattern_all_low (tokens cluster_texts : list str)
  (is_right_panel : bool) :
  cluster_texts = [] \/ is_right_panel = false ->
  highlight_pattern tokens is_right_panel cluster_texts
  = repeat Low (length tokens)
  /\ length (highlight_pattern tokens is_right_panel cluster_texts)
     = length tokens
  /\ forall text, highlight_tokens text cluster_texts is_right_panel = text.
Proof.
  intros H.
  assert (E : highlight_pattern tokens is_right_panel cluster_texts
              = repeat Low (length tokens)).
  { unfold highlight_pattern. destruct H as [-> | ->]; [reflexivity|].
    destruct cluster_texts; reflexivity. }
  rewrite E. repeat split.
  - apply repeat_length.
  - intros text. unfold highlight_tokens.
    destruct H as [-> | ->]; [|reflexivity].
    destruct (negb is_right_panel); reflexivity.
Qed.

Lemma highlight_pattern_all_low_witness :
  ([] = @nil str \/ true = false)
  /\ highlight_pattern [lit "cat"; lit "Dog!"] true [] = [Low; Low].
Proof.
  split; [left; reflexivity|].
  apply (highlight_pattern_all_low [lit "cat"; lit "Dog!"] (cluster_texts := []) (is_right_panel := true)).
  left; reflexivity.
Defined.

(** C2, as the code has it.  On the emphasized panel and with cluster
    texts, there is one mark per token, and a token is marked high exactly
    when its cleaned form, the lower-cased token without its non-word
    characters, is not empty and some common term of the cluster (minimal
    length 3, the 2 best) occurs in it or contains it; otherwise it is
    marked low. *)
Theorem highlight_pattern_marks (tokens cluster_texts : list str) :
  cluster_texts <> [] ->
  let common := analyze_common_words cluster_texts 3 2 in
  let marks := highlight_pattern tokens true cluster_texts in
  length marks = length tokens
  /\ forall i token, nth_error tokens i = Some token ->
       exists a, nth_error marks i = Some a
                 /\ (a = High
                     <-> overlaps common (filter is_word (lower token)))
                 /\ (a = Low
                     <-> ~ overlaps common (filter is_word (lower token))).
Proof.
  intros Hne common marks.
  assert (E : marks = map (fun token => activation_of (is_highlighted common token)) tokens).
  { unfold marks, highlight_pattern. destruct cluster_texts; [congruence|reflexivity]. }
  rewrite E. split; [apply length_map|].
  intros i token Hi. rewrite nth_error_map, Hi. simpl.
  exists (activation_of (is_highlighted common token)).
  split; [reflexivity|].
  rewrite <- is_highlighted_spec.
  destruct (is_highlighted common token); simpl; split; split;
    congruence.
Qed.

Lemma highlight_pattern_marks_witness :
  [lit "cat sat"] <> []
  /\ length (highlight_pattern [lit "Cat,"; lit "the"] true [lit "cat sat"]) = 2.
Proof.
  split; [discriminate|].
  apply (@highlight_pattern_marks [lit "Cat,"; lit "the"] [lit "cat sat"]).
  discriminate.
Defined.

(** C2, as stated, fails on a token with a capital letter: "Cat" is
    marked high in a cluster whose common term is "cat", while the token
    without its non-word characters is still "Cat", which neither contains
    "cat" nor occurs in it. *)
Lemma highlight_pattern_case_counterexample :
  nth_error (highlight_pattern [lit "Cat"] true [lit "cat cat"]) 0 = Some High
  /\ analyze_common_words [lit "cat cat"] 3 2 = [lit "cat"]
  /\ ~ overlaps (analyze_common_words [lit "cat cat"] 3 2)
                (spec_clean_token (lit "Cat")).
Proof.
  split; [reflexivity|]. split; [reflexivity|].
  intros (_ & t & Ht & H).
  change (analyze_common_words [lit "cat cat"] 3 2) with [lit "cat"] in Ht.
  destruct Ht as [<-|[]].
  rewrite <- !str_in_spec in H. destruct H as [H|H]; vm_compute in H; discriminate.
Qed.

(** ** Dictionaries in insertion order *)

Lemma fold_left_inv {A B : Type} (P : A -> Prop) (f : A -> B -> A)
  (l : list B) :
  forall a, P a -> (forall a x, In x l -> P a -> P (f a x)) ->
  P (fold_left f l a).
Proof.
  induction l as [|x l IH]; intros a Ha Hf; simpl; [assumption|].
  apply IH.
  - apply Hf; [now left | assumption].
  - intros a' y Hy. apply Hf. now right.
Qed.

Section DictFacts.
Variables K V : Type.
Variable eqb : K -> K -> bool.
Hypothesis eqb_spec : forall a b, eqb a b = true <-> a = b.

Lemma eqb_same (a : K) : eqb a a = true.
Proof. now apply eqb_spec. Qed.

Lemma eqb_diff (a b : K) : a <> b -> eqb a b = false.
Proof.
  intros H. destruct (eqb a b) eqn:E; [|reflexivity].
  apply eqb_spec in E. contradiction.
Qed.

Lemma dict_get_set (d : dict K V) (k : K) (v : V) (k' : K) :
  dict_get eqb (dict_set eqb d k v) k'
  = if eqb k k' then Some v else dict_get eqb d k'.
Proof.
  induction d as [|[k0 v0] d IH]; simpl; [reflexivity|].
  destruct (eqb k0 k) eqn:E0; simpl.
  - apply eqb_spec in E0. subst k0. destruct (eqb k k'); reflexivity.
  - rewrite IH. destruct (eqb k0 k') eqn:E1; [|reflexivity].
    apply eqb_spec in E1. subst k'.
    rewrite eqb_diff; [reflexivity|].
    intros ->. rewrite eqb_same in E0. discriminate.
Qed.

Lemma keys_set (d : dict K V) (k : K) (v : V) (k' : K) :
  In k' (keys (dict_set eqb d k v)) <-> k' = k \/ In k' (keys d).
Proof.
  unfold keys. induction d as [|[k0 v0] d IH]; simpl.
  - intuition congruence.
  - destruct (eqb k0 k) eqn:E0; simpl.
    + apply eqb_spec in E0. subst k0. intuition congruence.
    + rewrite IH. intuition congruence.
Qed.

Lemma NoDup_set (d : dict K V) (k : K) (v : V) :
  NoDup (keys d) -> NoDup (keys (dict_set eqb d k v)).
Proof.
  induction d as [|[k0 v0] d IH]; simpl; intros H.
  - constructor; [intros []|constructor].
  - inversion H as [|? ? Hn Hd]; subst.
    destruct (eqb k0 k) eqn:E0; simpl.
    + constructor; assumption.
    + constructor; [|now apply IH].
      intros Hin. apply keys_set in Hin. destruct Hin as [->|Hin].
      * rewrite eqb_same in E0. discriminate.
      * contradiction.
Qed.

Lemma dict_get_None (d : dict K V) (k : K) :
  dict_get eqb d k = None <-> ~ In k (keys d).
Proof.
  induction d as [|[k0 v0] d IH]; simpl; [tauto|].
  destruct (eqb k0 k) eqn:E0.
  - apply eqb_spec in E0. subst. split; [discriminate|tauto].
  - rewrite IH. split; [|tauto].
    intros H [->|H']; [|tauto]. rewrite eqb_same in E0. discriminate.
Qed.

Lemma dict_get_In (d : dict K V) (k : K) (v : V) :
  dict_get eqb d k = Some v -> In (k, v) d.
Proof.
  induction d as [|[k0 v0] d IH]; simpl; [discriminate|].
  destruct (eqb k0 k) eqn:E0.
  - apply eqb_spec in E0. subst. intros H. injection H as ->. now left.
  - intros H. right. now apply IH.
Qed.

Lemma In_dict_get (d : dict K V) (k : K) (v : V) :
  NoDup (keys d) -> In (k, v) d -> dict_get eqb d k = Some v.
Proof.
  induction d as [|[k0 v0] d IH]; simpl; intros Hnd; [intros []|].
  inversion Hnd as [|? ? Hn Hd]; subst.
  intros [H|H].
  - injection H as -> ->. now rewrite eqb_same.
  - rewrite eqb_diff; [now apply IH|].
    intros ->. apply Hn. apply (in_map fst) in H. assumption.
Qed.

Lemma dict_get_keys (d : dict K V) (k : K) (v : V) :
  dict_get eqb d k = Some v -> In k (keys d).
Proof. intros H. apply dict_get_In in H. apply (in_map fst) in H. assumption. Qed.

(** Assigning to a new key puts it last; to a present key, in place. *)
Lemma dict_set_new (d : dict K V) (k : K) (v : V) :
  dict_get eqb d k = None -> dict_set eqb d k v = d ++ [(k, v)].
Proof.
  induction d as [|[k0 v0] d IH]; simpl; [reflexivity|].
  destruct (eqb k0 k); [discriminate|]. intros H. now rewrite IH.
Qed.

Lemma keys_set_present (d : dict K V) (k : K) (v v' : V) :
  dict_get eqb d k = Some v' -> keys (dict_set eqb d k v) = keys d.
Proof.
  unfold keys. induction d as [|[k0 v0] d IH]; simpl; [discriminate|].
  destruct (eqb k0 k); simpl; [reflexivity|]. intros H. now rewrite IH.
Qed.
End DictFacts.

Lemma str_eqb_spec (a b : str) : str_eqb a b = true <-> a = b.
Proof.
  unfold str_eqb. destruct (list_eq_dec ascii_dec a b); split; congruence.
Qed.

Lemma NoDup_incr (d : counts) (k : str) :
  NoDup (keys d) -> NoDup (keys (incr d k)).
Proof. apply NoDup_set. apply str_eqb_spec. Qed.

Lemma keys_incr (d : counts) (k k' : str) :
  In k' (keys (incr d k)) <-> k' = k \/ In k' (keys d).
Proof. apply keys_set. apply str_eqb_spec. Qed.

(** ** Ranges and slices *)

Lemma py_range_In (a b i : Z) : In i (py_range a b) <-> (a <= i < b)%Z.
Proof.
  unfold py_range. rewrite in_map_iff. split.
  - intros (n & <- & Hn). apply in_seq in Hn. lia.
  - intros H. exists (Z.to_nat (i - a)). split; [lia|].
    apply in_seq. lia.
Qed.

Lemma In_firstn {A : Type} (n : nat) (l : list A) (x : A) :
  In x (firstn n l) -> In x l.
Proof.
  intros H. rewrite <- (firstn_skipn n l). apply in_or_app. now left.
Qed.

Lemma In_skipn {A : Type} (n : nat) (l : list A) (x : A) :
  In x (skipn n l) -> In x l.
Proof.
  intros H. rewrite <- (firstn_skipn n l). apply in_or_app. now right.
Qed.

Lemma py_slice_incl {A : Type} (l : list A) (lo hi : Z) (x : A) :
  In x (py_slice l lo hi) -> In x l.
Proof.
  unfold py_slice. intros H.
  apply In_firstn in H. eapply In_skipn; eassumption.
Qed.

Lemma py_slice_length {A : Type} (l : list A) (lo n : Z) :
  (0 <= lo)%Z -> (0 <= n)%Z -> (lo + n <= len l)%Z ->
  len (py_slice l lo (lo + n)) = n.
Proof.
  unfold py_slice, len, slice_bound. intros Hlo Hn Hle.
  destruct (Z.ltb_spec lo 0); [lia|].
  destruct (Z.ltb_spec (lo + n) 0); [lia|].
  rewrite length_firstn, length_skipn. unfold len in Hle. lia.
Qed.

Lemma py_slice_prefix {A : Type} (l : list A) (n : Z) :
  (0 <= n)%Z -> py_slice l 0 n = firstn (Z.to_nat n) l.
Proof.
  unfold py_slice, len, slice_bound. intros Hn. simpl.
  destruct (Z.ltb_spec n 0); [lia|].
  replace (Z.min 0 (Z.of_nat (length l))) with 0%Z by lia. simpl.
  destruct (Z.le_ge_cases n (Z.of_nat (length l))).
  - f_equal. lia.
  - replace (Z.to_nat (Z.min n (Z.of_nat (length l)) - 0)) with (length l) by lia.
    rewrite firstn_all. symmetry. apply firstn_all2. lia.
Qed.

(** ** Common-term extractor: the two counting loops *)

Lemma count_words_keys (min_length : Z) (words : list str) :
  NoDup (keys (count_words min_length words))
  /\ forall k, In k (keys (count_words min_length words)) ->
       In k words /\ keep_word min_length k = true.
Proof.
  unfold count_words.
  apply (fold_left_inv
           (fun d : counts => NoDup (keys d)
              /\ forall k, In k (keys d) ->
                   In k words /\ keep_word min_length k = true)).
  - split; [constructor | intros k []].
  - intros d word Hw [Hnd Hk].
    destruct (keep_word min_length word) eqn:E; [|now split].
    split; [now apply NoDup_incr|].
    intros k Hin. apply keys_incr in Hin. destruct Hin as [->|Hin]; auto.
Qed.

Lemma count_word_fragments_keys (min_length : Z) (words : list str)
  (word : str) (d : counts) :
  In word words -> keep_word min_length word = true ->
  NoDup (keys d) /\ (forall k, In k (keys d) -> is_fragment min_length words k) ->
  NoDup (keys (count_word_fragments min_length d word))
  /\ forall k, In k (keys (count_word_fragments min_length d word)) ->
       is_fragment min_length words k.
Proof.
  intros Hw Hkeep Hd. unfold count_word_fragments.
  apply (fold_left_inv
           (fun d : counts => NoDup (keys d)
              /\ forall k, In k (keys d) -> is_fragment min_length words k));
    [assumption|].
  intros d1 frag_len Hfl Hd1.
  apply (fold_left_inv
           (fun d : counts => NoDup (keys d)
              /\ forall k, In k (keys d) -> is_fragment min_length words k));
    [assumption|].
  intros d2 start Hst [Hnd Hk].
  destruct (in_stop_words (py_slice word start (start + frag_len))) eqn:E;
    [now split|].
  split; [now apply NoDup_incr|].
  intros k Hin. apply keys_incr in Hin. destruct Hin as [->|Hin]; auto.
  split; [assumption|].
  exists word, frag_len, start.
  apply py_range_In in Hfl. apply py_range_In in Hst. auto.
Qed.

Lemma count_fragments_keys (min_length : Z) (words : list str) :
  NoDup (keys (count_fragments min_length words))
  /\ forall k, In k (keys (count_fragments min_length words)) ->
       is_fragment min_length words k.
Proof.
  unfold count_fragments.
  apply (fold_left_inv
           (fun d : counts => NoDup (keys d)
              /\ forall k, In k (keys d) -> is_fragment min_length words k)).
  - split; [constructor | intros k []].
  - intros d word Hw Hd.
    destruct (keep_word min_length word) eqn:E; [|assumption].
    now apply count_word_fragments_keys.
Qed.

(** ** Common-term extractor: the merge *)

Lemma add_words_get (t : str) (word_counts : counts) : forall acc : counts,
  NoDup (keys word_counts) ->
  dict_get str_eqb
    (fold_left (fun all_counts wc =>
                  dict_set str_eqb all_counts (fst wc) (snd wc * 2)%Z)
               word_counts acc) t
  = match dict_get str_eqb word_counts t with
    | Some c => Some (c * 2)%Z
    | None => dict_get str_eqb acc t
    end.
Proof.
  induction word_counts as [|[k c] d IH]; intros acc Hnd; [reflexivity|].
  inversion Hnd as [|? ? Hn Hd]; subst.
  cbn [fold_left dict_get fst snd]. rewrite (IH _ Hd).
  rewrite (dict_get_set _ str_eqb_spec).
  destruct (str_eqb k t) eqn:E; [|reflexivity].
  apply str_eqb_spec in E. subst k.
  apply (dict_get_None _ str_eqb_spec) in Hn. now rewrite Hn.
Qed.

Lemma add_fragments_get (t : str) (fragment_counts : counts) :
  forall acc : counts,
  NoDup (keys fragment_counts) ->
  dict_get str_eqb (add_fragments acc fragment_counts) t
  = match dict_get str_eqb fragment_counts t with
    | Some f =>
        if (5 <=? f)%Z
        then match dict_get str_eqb acc t with
             | None => Some f
             | Some v => Some (v + f)%Z
             end
        else dict_get str_eqb acc t
    | None => dict_get str_eqb acc t
    end.
Proof.
  unfold add_fragments.
  induction fragment_counts as [|[k f] d IH]; intros acc Hnd; [reflexivity|].
  inversion Hnd as [|? ? Hn Hd]; subst.
  cbn [fold_left dict_get fst snd]. rewrite (IH _ Hd).
  apply (dict_get_None _ str_eqb_spec) in Hn.
  destruct (str_eqb k t) eqn:E.
  - apply str_eqb_spec in E. subst k. rewrite Hn.
    destruct (5 <=? f)%Z; [|reflexivity].
    destruct (dict_get str_eqb acc t);
      rewrite (dict_get_set _ str_eqb_spec), (eqb_same _ str_eqb_spec); reflexivity.
  - assert (Hacc : forall v, dict_get str_eqb (dict_set str_eqb acc k v) t
                             = dict_get str_eqb acc t).
    { intros v. now rewrite (dict_get_set _ str_eqb_spec), E. }
    destruct (5 <=? f)%Z; [|reflexivity].
    destruct (dict_get str_eqb acc k); rewrite Hacc; reflexivity.
Qed.

Lemma merged_counts_get (min_length : Z) (words : list str) (t : str) :
  dict_get str_eqb (merged_counts min_length words) t
  = merged_score (dict_get str_eqb (count_words min_length words) t)
                 (dict_get str_eqb (count_fragments min_length words) t).
Proof.
  unfold merged_counts, add_words.
  rewrite add_fragments_get by apply count_fragments_keys.
  rewrite add_words_get by apply count_words_keys.
  unfold merged_score. simpl.
  destruct (dict_get str_eqb (count_words min_length words) t);
    destruct (dict_get str_eqb (count_fragments min_length words) t);
    reflexivity.
Qed.

Lemma merged_counts_NoDup (min_length : Z) (words : list str) :
  NoDup (keys (merged_counts min_length words)).
Proof.
  unfold merged_counts, add_fragments, add_words.
  apply (fold_left_inv (fun d : counts => NoDup (keys d))).
  - apply (fold_left_inv (fun d : counts => NoDup (keys d))).
    + constructor.
    + intros d x _ H. now apply (NoDup_set _ str_eqb_spec).
  - intros d x _ H. destruct (5 <=? snd x)%Z; [|assumption].
    destruct (dict_get str_eqb d (fst x)); now apply (NoDup_set _ str_eqb_spec).
Qed.

(** A merged term is a counted whole word or a counted fragment. *)
Lemma merged_counts_keys (min_length : Z) (words : list str) (t : str) :
  In t (keys (merged_counts min_length words)) ->
  In t (keys (count_words min_length words))
  \/ (dict_get str_eqb (count_words min_length words) t = None
      /\ In t (keys (count_fragments min_length words))).
Proof.
  intros H.
  destruct (dict_get str_eqb (merged_counts min_length words) t) as [v|] eqn:E.
  - rewrite merged_counts_get in E. unfold merged_score in E.
    destruct (dict_get str_eqb (count_words min_length words) t) as [c|] eqn:Ew.
    + left. eapply dict_get_keys; [apply str_eqb_spec|eassumption].
    + right. split; [reflexivity|].
      destruct (dict_get str_eqb (count_fragments min_length words) t) as [f|] eqn:Ef;
        [|discriminate].
      eapply dict_get_keys; [apply str_eqb_spec|eassumption].
  - apply (dict_get_None _ str_eqb_spec) in E. contradiction.
Qed.

(** ** Common-term extractor: the sort *)

Lemma insert_desc_perm (x : str * Z) (l : list (str * Z)) :
  Permutation (insert_desc x l) (x :: l).
Proof.
  induction l as [|y l IH]; simpl; [reflexivity|].
  destruct (snd x <? snd y)%Z; [|reflexivity].
  rewrite IH. apply perm_swap.
Qed.

Lemma sorted_by_count_desc_perm (l : list (str * Z)) :
  Permutation (sorted_by_count_desc l) l.
Proof.
  induction l as [|x l IH]; simpl; [reflexivity|].
  rewrite insert_desc_perm. now constructor.
Qed.

Lemma insert_desc_sorted (x : str * Z) (l : list (str * Z)) :
  StronglySorted score_ge l -> StronglySorted score_ge (insert_desc x l).
Proof.
  induction l as [|y l IH]; simpl; intros H.
  - constructor; constructor.
  - inversion H as [|? ? Hs Hall]; subst.
    destruct (Z.ltb_spec (snd x) (snd y)).
    + constructor; [now apply IH|].
      eapply Permutation_Forall.
      * symmetry. apply insert_desc_perm.
      * constructor; [unfold score_ge; lia | assumption].
    + constructor; [assumption|].
      constructor; [unfold score_ge; lia|].
      eapply Forall_impl; [|eassumption].
      unfold score_ge. intros a Ha. lia.
Qed.

Lemma sorted_by_count_desc_sorted (l : list (str * Z)) :
  StronglySorted score_ge (sorted_by_count_desc l).
Proof.
  induction l as [|x l IH]; simpl; [constructor|].
  now apply insert_desc_sorted.
Qed.

(** ** Common-term extractor: the result *)

Lemma analyze_common_words_eq (texts : list str) (min_length top_n : Z) :
  analyze_common_words texts min_length top_n
  = map fst (py_slice
               (sorted_by_count_desc (merged_counts min_length (words_of texts)))
               0 top_n).
Proof.
  destruct texts; [|reflexivity].
  unfold py_slice. simpl skipn. now rewrite firstn_nil.
Qed.

Lemma analyze_common_words_in (texts : list str) (min_length top_n : Z)
  (t : str) :
  In t (analyze_common_words texts min_length top_n) ->
  In t (keys (merged_counts min_length (words_of texts))).
Proof.
  rewrite analyze_common_words_eq. intros H.
  apply in_map_iff in H. destruct H as ([t' v] & <- & H).
  apply py_slice_incl in H.
  apply (Permutation_in _ (sorted_by_count_desc_perm _)) in H.
  apply (in_map fst) in H. assumption.
Qed.

Lemma keep_word_spec (min_length : Z) (w : str) :
  keep_word min_length w = true
  <-> (min_length <= len w)%Z /\ in_stop_words w = false.
Proof.
  unfold keep_word. rewrite andb_true_iff, Z.leb_le, negb_true_iff. tauto.
Qed.

Lemma words_of_az (texts : list str) (w : str) :
  In w (words_of texts) -> w <> [] /\ forallb is_az w = true.
Proof. apply findall_word_az. Qed.

(** C1.  The merged map has one entry per term; the score of a term is
    twice its whole-word count, plus its fragment count when that count
    is at least 5; a term that is not a whole word enters the map only
    with a fragment count of at least 5.  The result is the terms of the
    first [top_n] entries of the map sorted by descending score.  For
    "cat cat cat dog" the scores are 6 for cat and 2 for dog, and the
    best term is cat. *)
Theorem analyze_common_words_scores (texts : list str)
  (min_length top_n : Z) :
  (0 <= top_n)%Z ->
  let words := words_of texts in
  let word_counts := count_words min_length words in
  let fragment_counts := count_fragments min_length words in
  let all_counts := merged_counts min_length words in
  NoDup (keys all_counts)
  /\ (forall t, dict_get str_eqb all_counts t
                = merged_score (dict_get str_eqb word_counts t)
                               (dict_get str_eqb fragment_counts t))
  /\ (exists sorted_words,
        Permutation sorted_words all_counts
        /\ StronglySorted score_ge sorted_words
        /\ analyze_common_words texts min_length top_n
           = map fst (firstn (Z.to_nat top_n) sorted_words))
  /\ merged_counts 3 (words_of [lit "cat cat cat dog"])
     = [(lit "cat", 6%Z); (lit "dog", 2%Z)]
  /\ analyze_common_words [lit "cat cat cat dog"] 3 1 = [lit "cat"].
Proof.
  intros Hn words word_counts fragment_counts all_counts.
  split; [apply merged_counts_NoDup|].
  split; [intros t; apply merged_counts_get|].
  split; [|split; reflexivity].
  exists (sorted_by_count_desc all_counts).
  split; [apply sorted_by_count_desc_perm|].
  split; [apply sorted_by_count_desc_sorted|].
  rewrite analyze_common_words_eq, py_slice_prefix by assumption.
  reflexivity.
Qed.

Lemma analyze_common_words_scores_witness :
  (0 <= 1)%Z
  /\ exists sorted_words,
       Permutation sorted_words (merged_counts 3 (words_of [lit "a cat, a dog: cats"]))
       /\ StronglySorted score_ge sorted_words
       /\ analyze_common_words [lit "a cat, a dog: cats"] 3 1
          = map fst (firstn (Z.to_nat 1) sorted_words).
Proof.
  split; [lia|].
  apply (@analyze_common_words_scores [lit "a cat, a dog: cats"] 3 1).
  lia.
Defined.

Lemma analyze_common_words_not_stop (texts : list str)
  (min_length top_n : Z) (t : str) :
  In t (analyze_common_words texts min_length top_n) ->
  in_stop_words t = false.
Proof.
  intros Ht. apply analyze_common_words_in in Ht.
  apply merged_counts_keys in Ht. destruct Ht as [Ht|[_ Ht]].
  - apply count_words_keys in Ht. destruct Ht as [_ Ht].
    apply keep_word_spec in Ht. apply Ht.
  - apply count_fragments_keys in Ht. apply Ht.
Qed.

(** C5.  Only words of at least [min_length] letters that are not stop
    words are counted, and no returned term is a stop word, whatever the
    texts; for "the the the" nothing is returned. *)
Theorem analyze_common_words_no_stop_word (texts : list str)
  (min_length top_n : Z) :
  (forall w, In w (keys (count_words min_length (words_of texts))) ->
     (min_length <= len w)%Z /\ in_stop_words w = false)
  /\ (forall t, In t (analyze_common_words texts min_length top_n) ->
        in_stop_words t = false)
  /\ in_stop_words (lit "the") = true
  /\ analyze_common_words [lit "the the the"] 3 2 = [].
Proof.
  split; [|split; [|split; reflexivity]].
  - intros w Hw. apply count_words_keys in Hw. destruct Hw as [_ Hw].
    now apply keep_word_spec.
  - intros t. apply analyze_common_words_not_stop.
Qed.

Lemma fragment_shape (min_length : Z) (words : list str) (t : str) :
  (1 <= min_length)%Z ->
  (forall w, In w words -> forallb is_az w = true) ->
  is_fragment min_length words t ->
  forallb is_az t = true /\ (min_length <= len t <= 7)%Z.
Proof.
  intros Hml Haz (_ & word & frag_len & start & Hw & _ & Hfl & Hst & ->).
  split.
  - apply forallb_forall. intros c Hc. apply py_slice_incl in Hc.
    specialize (Haz _ Hw). rewrite forallb_forall in Haz. now apply Haz.
  - rewrite py_slice_length; lia.
Qed.

Lemma len_nonempty {A : Type} (l : list A) : (1 <= len l)%Z -> l <> [].
Proof. destruct l; unfold len; simpl; [lia|discriminate]. Qed.

(** C9, as the code has it.  For a minimal length of at least 1 and a
    [top_n] of at least 0, at most [top_n] terms are returned, and each is
    a non-empty string of the letters a to z, of at least the minimal
    length, that is not a stop word; a term that is not a counted whole
    word has at most 7 letters, while a whole word may have more, as
    "elephants" shows. *)
Theorem analyze_common_words_terms (texts : list str)
  (min_length top_n : Z) :
  (1 <= min_length)%Z -> (0 <= top_n)%Z ->
  (len (analyze_common_words texts min_length top_n) <= top_n)%Z
  /\ (forall t, In t (analyze_common_words texts min_length top_n) ->
        t <> [] /\ forallb is_az t = true
        /\ (min_length <= len t)%Z
        /\ in_stop_words t = false
        /\ (dict_get str_eqb (count_words min_length (words_of texts)) t = None ->
            (len t <= 7)%Z))
  /\ analyze_common_words [lit "elephants"] 3 1 = [lit "elephants"].
Proof.
  intros Hml Hn. split; [|split; [|reflexivity]].
  - rewrite analyze_common_words_eq, py_slice_prefix by assumption.
    unfold len. rewrite length_map.
    pose proof (firstn_le_length (Z.to_nat top_n)
      (sorted_by_count_desc (merged_counts min_length (words_of texts)))).
    lia.
  - intros t Ht.
    assert (Hstop : in_stop_words t = false).
    { eapply analyze_common_words_not_stop; eassumption. }
    apply analyze_common_words_in in Ht.
    apply merged_counts_keys in Ht. destruct Ht as [Ht|[Hnone Ht]].
    + pose proof Ht as Hkey.
      apply count_words_keys in Ht. destruct Ht as [Hw Hk].
      apply keep_word_spec in Hk. apply words_of_az in Hw.
      repeat split; try tauto.
      intros Hnone. apply (dict_get_None _ str_eqb_spec) in Hnone. contradiction.
    + apply count_fragments_keys in Ht.
      apply fragment_shape in Ht; [|assumption|intros w Hw; now apply words_of_az in Hw].
      destruct Ht as [Haz Hlen].
      repeat split; try tauto; try lia.
      apply len_nonempty. lia.
Qed.

Lemma analyze_common_words_terms_witness :
  (1 <= 3)%Z /\ (0 <= 2)%Z
  /\ (len (analyze_common_words [lit "The cat sat"; lit "a cat ran"] 3 2) <= 2)%Z.
Proof.
  split; [lia|]. split; [lia|].
  exact (proj1 (@analyze_common_words_terms
                  [lit "The cat sat"; lit "a cat ran"] 3 2
                  ltac:(lia) ltac:(lia))).
Defined.

(** C9, as stated for every [min_length] and [top_n], fails: with a
    minimal length of 0 the empty fragment is counted 6 times in "abcde"
    and is returned, and with a [top_n] of -1 the slice keeps all terms
    but the last, which is more than [top_n] terms. *)
Lemma analyze_common_words_terms_counterexample :
  analyze_common_words [lit "abcde"] 0 1 = [[]]
  /\ In [] (analyze_common_words [lit "abcde"] 0 1)
  /\ analyze_common_words [lit "cat dog"] 3 (-1) = [lit "cat"]
  /\ ~ (len (analyze_common_words [lit "cat dog"] 3 (-1)) <= -1)%Z.
Proof.
  split; [vm_compute; reflexivity|].
  split; [vm_compute; left; reflexivity|].
  split; [vm_compute; reflexivity|].
  vm_compute. intros H. apply H. reflexivity.
Qed.

(** ** Grouping by cluster label *)

Lemma Z_eqb_spec (a b : Z) : Z.eqb a b = true <-> a = b.
Proof. apply Z.eqb_eq. Qed.

Lemma In_first_seen (l : list Z) (x : Z) : In x (first_seen l) <-> In x l.
Proof.
  induction l as [|y l IH]; simpl; [tauto|].
  rewrite filter_In, IH, negb_true_iff, Z.eqb_neq.
  destruct (Z.eq_dec y x); [tauto|]. intuition congruence.
Qed.

Lemma first_seen_snoc (l : list Z) (x : Z) :
  first_seen (l ++ [x])
  = first_seen l ++ (if existsb (Z.eqb x) l then [] else [x]).
Proof.
  induction l as [|y l IH]; simpl; [reflexivity|].
  rewrite IH, filter_app. f_equal. f_equal.
  destruct (Z.eqb_spec x y) as [->|Hxy]; simpl.
  - destruct (existsb (Z.eqb y) l); simpl; [reflexivity|].
    now rewrite Z.eqb_refl.
  - destruct (existsb (Z.eqb x) l); simpl; [reflexivity|].
    destruct (Z.eqb_spec x y); [contradiction|reflexivity].
Qed.

Lemma group_pairs_spec (pairs : list (Z * str)) :
  keys (group_pairs pairs) = first_seen (map fst pairs)
  /\ forall label,
       dict_get Z.eqb (group_pairs pairs) label
       = match pairs_of pairs label with
         | [] => None
         | es => Some es
         end.
Proof.
  induction pairs as [|[l e] pairs [IHk IHg]] using rev_ind.
  - split; [reflexivity|]. intros label. reflexivity.
  - unfold group_pairs. rewrite fold_left_app. cbn [fold_left fst snd].
    fold (group_pairs pairs). set (d := group_pairs pairs) in *.
    assert (Hdef : dict_get_default Z.eqb
                     (if dict_mem Z.eqb d l then d else dict_set Z.eqb d l [])
                     l [] = pairs_of pairs l).
    { unfold dict_get_default, dict_mem. rewrite (IHg l).
      destruct (pairs_of pairs l) eqn:E; [|now rewrite IHg, E].
      now rewrite (dict_get_set _ Z_eqb_spec), Z.eqb_refl. }
    rewrite Hdef. split.
    + replace (map fst (pairs ++ [(l, e)])) with (map fst pairs ++ [l])
        by (now rewrite map_app).
      rewrite first_seen_snoc. unfold dict_mem.
      destruct (dict_get Z.eqb d l) as [es|] eqn:Eg.
      * rewrite (@keys_set_present _ _ Z.eqb d l _ es Eg), IHk.
        assert (Hin : In l (map fst pairs)).
        { apply In_first_seen. rewrite <- IHk.
          eapply dict_get_keys; [apply Z_eqb_spec|eassumption]. }
        destruct (existsb (Z.eqb l) (map fst pairs)) eqn:Ex;
          [now rewrite app_nil_r|].
        exfalso. rewrite <- not_true_iff_false in Ex. apply Ex.
        apply existsb_exists. exists l. split; [assumption|apply Z.eqb_refl].
      * rewrite (@dict_set_new _ _ Z.eqb d l [] Eg).
        assert (Hget : dict_get Z.eqb (d ++ [(l, [])]) l = Some []).
        { rewrite <- (@dict_set_new _ _ Z.eqb d l [] Eg).
          now rewrite (dict_get_set _ Z_eqb_spec), Z.eqb_refl. }
        rewrite (@keys_set_present _ _ Z.eqb _ l _ [] Hget).
        unfold keys in *. rewrite map_app, IHk. simpl. f_equal.
        destruct (existsb (Z.eqb l) (map fst pairs)) eqn:Ex; [|reflexivity].
        exfalso. apply existsb_exists in Ex. destruct Ex as (x & Hx & Hlx).
        apply Z.eqb_eq in Hlx. subst x.
        apply (dict_get_None _ Z_eqb_spec) in Eg. apply Eg.
        fold (keys d). unfold keys. rewrite IHk. now apply In_first_seen.
    + intros label. rewrite (dict_get_set _ Z_eqb_spec).
      unfold pairs_of at 2. rewrite filter_app, map_app. cbn [filter fst snd].
      fold (pairs_of pairs label).
      destruct (Z.eqb_spec l label) as [->|Hne].
      * simpl. destruct (pairs_of pairs label); reflexivity.
      * simpl. rewrite app_nil_r.
        destruct (dict_mem Z.eqb d l); [apply IHg|].
        rewrite (dict_get_set _ Z_eqb_spec).
        destruct (Z.eqb_spec l label); [contradiction|apply IHg].
Qed.

Lemma map_fst_combine {A B : Type} (l : list A) (l' : list B) :
  map fst (combine l l') = firstn (length l') l.
Proof.
  revert l'. induction l as [|x l IH]; intros [|y l']; simpl;
    try reflexivity.
  now rewrite IH.
Qed.

Lemma group_examples_keys (labels : list Z) (examples : list str) :
  keys (group_examples labels examples)
  = first_seen (firstn (length examples) labels).
Proof.
  rewrite <- map_fst_combine. apply group_pairs_spec.
Qed.

(** ** Renderer of the dashboard *)

Lemma group_examples_get (labels : list Z) (examples : list str) (id : Z) :
  dict_get_default Z.eqb (group_examples labels examples) id []
  = examples_of labels examples id.
Proof.
  unfold dict_get_default, group_examples, examples_of.
  destruct (group_pairs_spec (combine labels examples)) as [_ Hg].
  rewrite Hg. destruct (pairs_of (combine labels examples) id); reflexivity.
Qed.

Lemma display_cluster_eq (labels : list Z) (examples : list str)
  (is_right_panel : bool) (cluster_id : Z) :
  display_cluster (group_examples labels examples) is_right_panel cluster_id
  = let all := examples_of labels examples cluster_id in
    [ClusterOpen
       (nth (Z.to_nat (cluster_id mod len cluster_colors)) cluster_colors [])
       cluster_id (len all)]
    ++ map (fun e => ExampleDiv (highlight_tokens e all is_right_panel))
           (firstn 5 all)
    ++ (if (5 <? len all)%Z then [MoreExamples (len all - 5)] else [])
    ++ [ClusterClose].
Proof.
  unfold display_cluster. rewrite group_examples_get.
  rewrite py_slice_prefix by lia. reflexivity.
Qed.

Lemma filter_example_div_map (f : str -> str) (l : list str) :
  filter is_example_div (map (fun e => ExampleDiv (f e)) l)
  = map (fun e => ExampleDiv (f e)) l.
Proof. induction l as [|x l IH]; simpl; [reflexivity | now rewrite IH]. Qed.

Lemma insert_asc_perm (x : Z) (l : list Z) :
  Permutation (insert_asc x l) (x :: l).
Proof.
  induction l as [|y l IH]; simpl; [reflexivity|].
  destruct (y <? x)%Z; [|reflexivity].
  rewrite IH. apply perm_swap.
Qed.

Lemma sorted_keys_perm (l : list Z) : Permutation (sorted_keys l) l.
Proof.
  induction l as [|x l IH]; simpl; [reflexivity|].
  rewrite insert_asc_perm. now constructor.
Qed.

Lemma insert_asc_sorted (x : Z) (l : list Z) :
  ~ In x l -> StronglySorted Z.lt l -> StronglySorted Z.lt (insert_asc x l).
Proof.
  induction l as [|y l IH]; simpl; intros Hx H.
  - constructor; constructor.
  - inversion H as [|? ? Hs Hall]; subst.
    destruct (Z.ltb_spec y x).
    + constructor; [apply IH; tauto|].
      eapply Permutation_Forall; [symmetry; apply insert_asc_perm|].
      constructor; assumption.
    + constructor; [assumption|].
      assert (x < y)%Z by (assert (y <> x) by tauto; lia).
      constructor; [assumption|].
      eapply Forall_impl; [|eassumption]. intros a Ha. simpl in Ha. lia.
Qed.

Lemma sorted_keys_sorted (l : list Z) :
  NoDup l -> StronglySorted Z.lt (sorted_keys l).
Proof.
  induction 1 as [|x l Hx _ IH]; simpl; [constructor|].
  apply insert_asc_sorted; [|assumption].
  intros Hin. apply Hx.
  eapply Permutation_in; [apply sorted_keys_perm|assumption].
Qed.

Lemma NoDup_first_seen (l : list Z) : NoDup (first_seen l).
Proof.
  induction l as [|x l IH]; simpl; constructor.
  - intros H. apply filter_In in H. destruct H as [_ H].
    rewrite Z.eqb_refl in H. discriminate.
  - now apply NoDup_filter.
Qed.

Lemma opened_app (a b : list ui_call) : opened (a ++ b) = opened a ++ opened b.
Proof. unfold opened. apply flat_map_app. Qed.

Lemma opened_examples (f : str -> str) (l : list str) :
  opened (map (fun e => ExampleDiv (f e)) l) = [].
Proof. induction l as [|x l IH]; [reflexivity|assumption]. Qed.

Lemma opened_display_cluster (clusters : clusters_t) (is_right_panel : bool)
  (cluster_id : Z) :
  opened (display_cluster clusters is_right_panel cluster_id) = [cluster_id].
Proof.
  unfold display_cluster. rewrite !opened_app.
  rewrite (opened_examples
             (fun example =>
                highlight_tokens example
                  (dict_get_default Z.eqb clusters cluster_id [])
                  is_right_panel)).
  destruct (5 <? len (dict_get_default Z.eqb clusters cluster_id []))%Z;
    reflexivity.
Qed.

Lemma opened_flat_map (clusters : clusters_t) (is_right_panel : bool)
  (ids : list Z) :
  opened (flat_map (display_cluster clusters is_right_panel) ids) = ids.
Proof.
  induction ids as [|id ids IH]; [reflexivity|].
  cbn [flat_map]. now rewrite opened_app, opened_display_cluster, IH.
Qed.

Lemma shown_examples_app (a b : list ui_call) :
  shown_examples (a ++ b) = shown_examples a ++ shown_examples b.
Proof. unfold shown_examples. apply flat_map_app. Qed.

Lemma shown_examples_map (f : str -> str) (l : list str) :
  shown_examples (map (fun e => ExampleDiv (f e)) l) = map f l.
Proof.
  induction l as [|x l IH]; [reflexivity|].
  cbn [map]. change (shown_examples (ExampleDiv (f x) :: ?r))
    with (f x :: shown_examples r).
  unfold shown_examples in *. cbn [flat_map app]. now rewrite IH.
Qed.

(** C6.  The renderer groups the examples by label, and each cluster
    holds the examples of its label in the order of the record.  The
    clusters are shown by ascending label, which is not the order in which
    the labels are first seen; in each cluster the first five examples are
    shown in the order of the record.  For the labels 1, 0, 1, cluster 0
    with example 1 is shown first, then cluster 1 with the examples 0 and
    2. *)
Theorem display_cluster_data_groups (data : checkpoint_record)
  (labels : list Z) (examples : list str) (is_right_panel : bool) :
  cluster_labels data = Some labels -> text_examples data = Some examples ->
  let clusters := group_examples labels examples in
  let calls := display_cluster_data data is_right_panel in
  (forall label,
     dict_get Z.eqb clusters label
     = match examples_of labels examples label with
       | [] => None
       | es => Some es
       end)
  /\ opened calls = sorted_keys (first_seen (firstn (length examples) labels))
  /\ StronglySorted Z.lt (opened calls)
  /\ (forall cluster_id,
        let all := examples_of labels examples cluster_id in
        shown_examples (display_cluster clusters is_right_panel cluster_id)
        = map (fun e => highlight_tokens e all is_right_panel) (firstn 5 all))
  /\ (forall e0 e1 e2 : str,
        examples_of [1; 0; 1]%Z [e0; e1; e2] 0 = [e1]
        /\ examples_of [1; 0; 1]%Z [e0; e1; e2] 1 = [e0; e2]
        /\ display_cluster_data (record_of [1; 0; 1]%Z [e0; e1; e2]) false
           = [ClusterOpen (lit "#FF6B6B") 0 1; ExampleDiv e1; ClusterClose;
              ClusterOpen (lit "#4ECDC4") 1 2; ExampleDiv e0; ExampleDiv e2;
              ClusterClose]).
Proof.
  intros Hl He clusters calls.
  assert (E : opened calls
              = sorted_keys (first_seen (firstn (length examples) labels))).
  { unfold calls, display_cluster_data. rewrite Hl, He.
    rewrite opened_flat_map.
    pose proof (group_examples_keys labels examples) as Hk.
    unfold keys in Hk. now rewrite Hk. }
  split; [apply group_pairs_spec|]. split; [exact E|]. split; [|split].
  - rewrite E. apply sorted_keys_sorted, NoDup_first_seen.
  - intros id all. unfold clusters. rewrite display_cluster_eq. fold all.
    cbn zeta. rewrite !shown_examples_app.
    rewrite (shown_examples_map
               (fun e => highlight_tokens e all is_right_panel)).
    destruct (5 <? len all)%Z; cbn; now rewrite app_nil_r.
  - intros e0 e1 e2. repeat split.
Qed.

Lemma display_cluster_data_groups_witness :
  cluster_labels (record_of [1; 0; 1]%Z [lit "a"; lit "b"; lit "c"])
  = Some [1; 0; 1]%Z
  /\ text_examples (record_of [1; 0; 1]%Z [lit "a"; lit "b"; lit "c"])
     = Some [lit "a"; lit "b"; lit "c"]
  /\ StronglySorted Z.lt
       (opened (display_cluster_data
                  (record_of [1; 0; 1]%Z [lit "a"; lit "b"; lit "c"]) true)).
Proof.
  split; [reflexivity|]. split; [reflexivity|].
  exact (proj1 (proj2 (proj2
           (@display_cluster_data_groups
              (record_of [1; 0; 1]%Z [lit "a"; lit "b"; lit "c"])
              [1; 0; 1]%Z [lit "a"; lit "b"; lit "c"] true
              eq_refl eq_refl)))).
Defined.

(** The order of display is not the order in which the labels are first
    seen: for the labels 1, 0, 1 the grouping has its keys in the order 1,
    0, and the renderer opens cluster 0 and then cluster 1. *)
Lemma display_cluster_data_first_seen_counterexample :
  first_seen [1; 0; 1]%Z = [1; 0]%Z
  /\ keys (group_examples [1; 0; 1]%Z [lit "a"; lit "b"; lit "c"])
     = [1; 0]%Z
  /\ opened (display_cluster_data
               (record_of [1; 0; 1]%Z [lit "a"; lit "b"; lit "c"]) false)
     = [0; 1]%Z
  /\ opened (display_cluster_data
               (record_of [1; 0; 1]%Z [lit "a"; lit "b"; lit "c"]) false)
     <> first_seen [1; 0; 1]%Z.
Proof.
  split; [vm_compute; reflexivity|]. split; [vm_compute; reflexivity|].
  split; [vm_compute; reflexivity|]. vm_compute. discriminate.
Qed.

(** C10.  For a record with its two fields, the dashboard shows the
    clusters by ascending label; for each it shows the first 5 examples
    at most, followed by the note on the [N - 5] others when the cluster
    has more than 5; each shown example is highlighted against all the
    examples of its cluster.  In a cluster of six examples the sixth can
    change the marks of the first: "ant bee" is shown with no token marked
    high, while against the five shown examples alone its tokens would be
    marked high. *)
Theorem display_cluster_data_first_five (data : checkpoint_record)
  (labels : list Z) (examples : list str) (is_right_panel : bool) :
  cluster_labels data = Some labels -> text_examples data = Some examples ->
  display_cluster_data data is_right_panel
  = flat_map
      (fun cluster_id =>
         let all := examples_of labels examples cluster_id in
         [ClusterOpen
            (nth (Z.to_nat (cluster_id mod len cluster_colors))
                 cluster_colors [])
            cluster_id (len all)]
         ++ map (fun e => ExampleDiv (highlight_tokens e all is_right_panel))
                (firstn 5 all)
         ++ (if (5 <? len all)%Z then [MoreExamples (len all - 5)] else [])
         ++ [ClusterClose])
      (sorted_keys (first_seen (firstn (length examples) labels)))
  /\ (forall cluster_id,
        let all := examples_of labels examples cluster_id in
        let calls :=
          display_cluster (group_examples labels examples)
                          is_right_panel cluster_id in
        filter is_example_div calls
        = map (fun e => ExampleDiv (highlight_tokens e all is_right_panel))
              (firstn 5 all)
        /\ length (filter is_example_div calls) = Nat.min 5 (length all)
        /\ (In (MoreExamples (len all - 5)) calls <-> (5 < len all)%Z))
  /\ display_cluster_data six_record true
     = [ClusterOpen (lit "#FF6B6B") 0 6;
        ExampleDiv (highlight_tokens (lit "ant bee") six_examples true);
        ExampleDiv (highlight_tokens (lit "x") six_examples true);
        ExampleDiv (highlight_tokens (lit "x") six_examples true);
        ExampleDiv (highlight_tokens (lit "x") six_examples true);
        ExampleDiv (highlight_tokens (lit "x") six_examples true);
        MoreExamples 1;
        ClusterClose]
  /\ highlight_tokens (lit "ant bee") six_examples true
     = span "activation-low" (lit "ant") ++ span "activation-low" (lit "bee")
  /\ highlight_tokens (lit "ant bee") (firstn 5 six_examples) true
     = span "activation-high" (lit "ant") ++ span "activation-high" (lit "bee").
Proof.
  intros Hl He. split; [|split; [|repeat split; vm_compute; reflexivity]].
  - unfold display_cluster_data. rewrite Hl, He.
    pose proof (group_examples_keys labels examples) as Hk.
    unfold keys in Hk. rewrite Hk.
    apply flat_map_ext. intros id. apply display_cluster_eq.
  - intros id all calls. unfold calls. rewrite display_cluster_eq.
    fold all. cbn zeta.
    assert (E : filter is_example_div
                  ([ClusterOpen
                      (nth (Z.to_nat (id mod len cluster_colors)) cluster_colors [])
                      id (len all)]
                   ++ map (fun e => ExampleDiv (highlight_tokens e all is_right_panel))
                          (firstn 5 all)
                   ++ (if (5 <? len all)%Z then [MoreExamples (len all - 5)] else [])
                   ++ [ClusterClose])
                = map (fun e => ExampleDiv (highlight_tokens e all is_right_panel))
                      (firstn 5 all)).
    { cbn [app filter is_example_div]. rewrite filter_app.
      rewrite (filter_example_div_map (fun e => highlight_tokens e all is_right_panel)).
      destruct (5 <? len all)%Z; simpl; now rewrite app_nil_r. }
    split; [exact E|]. split.
    + rewrite E, length_map, length_firstn. reflexivity.
    + destruct (5 <? len all)%Z eqn:E5.
      * apply Z.ltb_lt in E5. split; [intros _; assumption|]. intros _.
        cbn [app In]. right. apply in_or_app. right. now left.
      * apply Z.ltb_ge in E5. split; [|lia]. intros Hin. exfalso.
        cbn [app In] in Hin. destruct Hin as [Hin|Hin]; [discriminate|].
        apply in_app_or in Hin. destruct Hin as [Hin|Hin].
        -- apply in_map_iff in Hin. destruct Hin as (x & Hx & _). discriminate.
        -- simpl in Hin. destruct Hin as [Hin|[]]. discriminate.
Qed.

Lemma display_cluster_data_first_five_witness :
  cluster_labels six_record = Some [0; 0; 0; 0; 0; 0]%Z
  /\ text_examples six_record = Some six_examples
  /\ forall cluster_id,
       length (filter is_example_div
                 (display_cluster
                    (group_examples [0; 0; 0; 0; 0; 0]%Z six_examples)
                    true cluster_id))
       = Nat.min 5 (length (examples_of [0; 0; 0; 0; 0; 0]%Z six_examples
                                        cluster_id)).
Proof.
  split; [reflexivity|]. split; [reflexivity|].
  intros cluster_id.
  exact (proj1 (proj2 (proj1 (proj2
           (@display_cluster_data_first_five six_record
              [0; 0; 0; 0; 0; 0]%Z six_examples true eq_refl eq_refl))
           cluster_id))).
Defined.

(** ** The two panels *)

Lemma next_with_step_find (data : list checkpoint_record) (step : Z) :
  Forall (fun d => checkpoint_step d <> None) data ->
  next_with_step data step = Ok (find (has_step step) data).
Proof.
  induction 1 as [|d data Hd _ IH]; [reflexivity|].
  simpl. unfold has_step.
  destruct (checkpoint_step d) as [s|]; [|congruence].
  destruct (s =? step)%Z; [reflexivity|apply IH].
Qed.

Lemma record_truthy_step (d : checkpoint_record) :
  checkpoint_step d <> None -> record_truthy d = true.
Proof.
  unfold record_truthy. destruct (checkpoint_step d); [reflexivity|congruence].
Qed.

Lemma find_absent {A : Type} (f : A -> bool) (l : list A) :
  (forall x, In x l -> f x = false) -> find f l = None.
Proof.
  induction l as [|x l IH]; intros H; [reflexivity|].
  simpl. rewrite (H x) by now left. apply IH. intros y Hy. apply H. now right.
Qed.

Lemma last_record_In (data : list checkpoint_record) :
  data <> [] -> exists d, last_record data = Some d /\ In d data.
Proof.
  unfold last_record. induction data as [|d data IH]; [congruence|].
  intros _. destruct data as [|d' data].
  - exists d. split; [reflexivity|now left].
  - destruct IH as (x & Hx & Hin); [discriminate|].
    exists x. split; [exact Hx|now right].
Qed.

(** C7, as the code has it.  In a series whose records all carry their
    step, the left panel shows the first record of the chosen step and
    reports the missing checkpoint when no record has that step.  The
    right panel shows the first record of step 143000 and, when no record
    has that step, the last record of the series instead; it reports an
    error only when the series is empty.  The outcome of the right panel
    does not depend on the chosen step. *)
Theorem panels_missing_checkpoint (data : list checkpoint_record)
  (checkpoint : Z) :
  Forall (fun d => checkpoint_step d <> None) data ->
  left_panel data checkpoint
  = match find (has_step checkpoint) data with
    | Some d => Ok (display_cluster_data d false)
    | None => Ok [StError (lit "No data available for this checkpoint")]
    end
  /\ right_panel data
     = match find (has_step final_step) data, last_record data with
       | Some d, _ => Ok (display_cluster_data d true)
       | None, Some d => Ok (display_cluster_data d true)
       | None, None => Ok [StError (lit "No final data available")]
       end
  /\ ((forall d, In d data -> checkpoint_step d <> Some checkpoint) ->
      left_panel data checkpoint
      = Ok [StError (lit "No data available for this checkpoint")])
  /\ ((forall d, In d data -> checkpoint_step d <> Some final_step) ->
      data <> [] ->
      exists d, last_record data = Some d
                /\ right_panel data = Ok (display_cluster_data d true))
  /\ (data = [] ->
      right_panel data = Ok [StError (lit "No final data available")]).
Proof.
  intros Hall.
  assert (Hstep : forall step d, find (has_step step) data = Some d ->
                                 record_truthy d = true).
  { intros step d Hf. apply find_some in Hf. destruct Hf as [Hin _].
    rewrite Forall_forall in Hall. apply record_truthy_step. now apply Hall. }
  assert (Habsent : forall step,
            (forall d, In d data -> checkpoint_step d <> Some step) ->
            find (has_step step) data = None).
  { intros step H. apply find_absent. intros d Hd. unfold has_step.
    specialize (H d Hd). destruct (checkpoint_step d) as [s|]; [|reflexivity].
    destruct (Z.eqb_spec s step); [congruence|reflexivity]. }
  assert (Hleft : left_panel data checkpoint
                  = match find (has_step checkpoint) data with
                    | Some d => Ok (display_cluster_data d false)
                    | None => Ok [StError (lit "No data available for this checkpoint")]
                    end).
  { unfold left_panel. rewrite next_with_step_find by assumption. simpl.
    destruct (find (has_step checkpoint) data) as [d|] eqn:Ef; [|reflexivity].
    now rewrite (Hstep _ _ Ef). }
  assert (Hright : right_panel data
                   = match find (has_step final_step) data, last_record data with
                     | Some d, _ => Ok (display_cluster_data d true)
                     | None, Some d => Ok (display_cluster_data d true)
                     | None, None => Ok [StError (lit "No final data available")]
                     end).
  { unfold right_panel. rewrite next_with_step_find by assumption. simpl.
    destruct (find (has_step final_step) data) as [d|] eqn:Ef.
    - now rewrite (Hstep _ _ Ef).
    - destruct (last_record data) as [d|] eqn:El; [|reflexivity].
      destruct data as [|d0 data']; [discriminate|].
      destruct (last_record_In (data := d0 :: data')) as (x & Hx & Hin);
        [discriminate|].
      rewrite El in Hx. injection Hx as <-.
      rewrite Forall_forall in Hall.
      now rewrite (@record_truthy_step d (Hall _ Hin)). }
  split; [exact Hleft|]. split; [exact Hright|]. split; [|split].
  - intros H. rewrite Hleft, (Habsent _ H). reflexivity.
  - intros H Hne. destruct (last_record_In Hne) as (d & Hd & _).
    exists d. split; [exact Hd|]. rewrite Hright, (Habsent _ H), Hd. reflexivity.
  - intros ->. reflexivity.
Qed.

Lemma panels_missing_checkpoint_witness :
  Forall (fun d => checkpoint_step d <> None) [record_3000]
  /\ left_panel [record_3000] 2000
     = match find (has_step 2000) [record_3000] with
       | Some d => Ok (display_cluster_data d false)
       | None => Ok [StError (lit "No data available for this checkpoint")]
       end.
Proof.
  assert (H : Forall (fun d => checkpoint_step d <> None) [record_3000]).
  { constructor; [discriminate|constructor]. }
  split; [exact H|].
  exact (proj1 (@panels_missing_checkpoint [record_3000] 2000 H)).
Defined.

(** C7, as stated, fails on the right panel: in the series of the single
    step 3000 the final step 143000 is absent, and the panel shows the
    record of step 3000, emphasized, with no error reported. *)
Lemma right_panel_fallback_counterexample :
  find (has_step final_step) [record_3000] = None
  /\ right_panel [record_3000] = Ok (display_cluster_data record_3000 true)
  /\ existsb is_st_error (display_cluster_data record_3000 true) = false
  /\ left_panel [record_3000] 143000
     = Ok [StError (lit "No data available for this checkpoint")].
Proof. repeat split; vm_compute; reflexivity. Qed.

(** ** Loader of the dashboard *)

Section LoaderFacts.
Variable json_loads : str -> result checkpoint_record.
Variable model_name : str.

Lemma parse_lines_ok (lines : list str) :
  (forall line, In line lines -> exists d, json_loads (strip line) = Ok d) ->
  exists data, parse_lines json_loads lines = Ok data
               /\ length data = length lines.
Proof.
  induction lines as [|line lines IH]; intros H.
  - exists []. split; reflexivity.
  - destruct (H line) as [d Hd]; [now left|].
    destruct IH as (data & Hdata & Hlen).
    { intros l Hl. apply H. now right. }
    exists (d :: data). simpl. rewrite Hd. simpl. rewrite Hdata. simpl.
    split; [reflexivity | now rewrite Hlen].
Qed.

Lemma parse_lines_raise (lines : list str) :
  (exists line e, In line lines /\ json_loads (strip line) = Raise e) ->
  exists e, parse_lines json_loads lines = Raise e.
Proof.
  induction lines as [|line lines IH]; intros (bad & e & Hin & Hbad).
  - destruct Hin.
  - simpl. destruct (json_loads (strip line)) as [d|e'] eqn:E.
    + destruct Hin as [->|Hin]; [congruence|].
      destruct IH as [e1 He1]; [now exists bad, e|].
      exists e1. simpl. now rewrite He1.
    + now exists e'.
Qed.

(** What a file adds does not depend on the state it is added to. *)
Lemma load_file_extends (st1 st2 : load_state) (f : file) :
  extends st1 st2 ->
  extends (load_file json_loads model_name st1 f)
          (load_file json_loads model_name st2 f).
Proof.
  intros (Ha & Hn & Hs). unfold load_file, extends.
  destruct (neuron_of_filename model_name (fst f)); [|auto].
  destruct (parse_lines json_loads (snd f)); simpl.
  - rewrite Ha, Hn. auto.
  - repeat split; try assumption.
    intros c Hc. apply in_app_or in Hc. apply in_or_app.
    destruct Hc as [Hc|Hc]; [left; now apply Hs | now right].
Qed.

Lemma load_files_extends (files : list file) :
  forall st1 st2, extends st1 st2 ->
  extends (fold_left (load_file json_loads model_name) files st1)
          (fold_left (load_file json_loads model_name) files st2).
Proof.
  induction files as [|f files IH]; intros st1 st2 H; [assumption|].
  simpl. apply IH. now apply load_file_extends.
Qed.

(** A file that does not parse adds its error message and nothing
    else. *)
Lemma load_file_raise (st : load_state) (f : file) (neuron_id : str) :
  neuron_of_filename model_name (fst f) = Some neuron_id ->
  (exists line e, In line (snd f) /\ json_loads (strip line) = Raise e) ->
  exists e,
    load_file json_loads model_name st f
    = {| all_neuron_data := all_neuron_data st;
         available_neurons := available_neurons st;
         shown := shown st
                  ++ [StError (lit "Error loading " ++ fst f ++ lit ": " ++ e)] |}.
Proof.
  intros Hn Hbad. destruct (parse_lines_raise (snd f) Hbad) as [e He].
  exists e. unfold load_file. now rewrite Hn, He.
Qed.

(** A file whose lines all parse is stored, whatever fields its records
    have, and nothing is shown for it. *)
Lemma load_file_ok (st : load_state) (f : file) (neuron_id : str) :
  neuron_of_filename model_name (fst f) = Some neuron_id ->
  (forall line, In line (snd f) -> exists d, json_loads (strip line) = Ok d) ->
  exists data,
    length data = length (snd f)
    /\ load_file json_loads model_name st f
       = {| all_neuron_data :=
              dict_set str_eqb (all_neuron_data st) neuron_id data;
            available_neurons := available_neurons st ++ [neuron_id];
            shown := shown st |}.
Proof.
  intros Hn Hok. destruct (parse_lines_ok (snd f) Hok) as (data & Hd & Hlen).
  exists data. split; [assumption|]. unfold load_file. now rewrite Hn, Hd.
Qed.

Lemma load_files_shown (files : list file) (c : ui_call) :
  forall st, In c (shown st) ->
  In c (shown (fold_left (load_file json_loads model_name) files st)).
Proof.
  induction files as [|f files IH]; intros st H; [assumption|].
  simpl. apply IH. unfold load_file.
  destruct (neuron_of_filename model_name (fst f)); [|assumption].
  destruct (parse_lines json_loads (snd f)); simpl; [assumption|].
  apply in_or_app. now left.
Qed.
End LoaderFacts.

(** C8, as the code has it.  In the loader of the dashboard, a file one
    of whose lines does not parse adds one error message that names the
    file, and is skipped: the data and the neurons loaded from a directory
    are those loaded from the other files, whose messages are all kept.
    A file whose lines all parse is stored and nothing is shown for it,
    whatever fields its records have. *)
Theorem load_neuron_data_parse_failure
  (json_loads : str -> result checkpoint_record) (model_name : str)
  (before after : list file) (bad : file) (neuron_id : str)
  (st : load_state) :
  neuron_of_filename model_name (fst bad) = Some neuron_id ->
  (exists line e, In line (snd bad) /\ json_loads (strip line) = Raise e) ->
  let loaded :=
    fold_left (load_file json_loads model_name) (before ++ bad :: after) st in
  let others :=
    fold_left (load_file json_loads model_name) (before ++ after) st in
  (exists e, In (StError (lit "Error loading " ++ fst bad ++ lit ": " ++ e))
                (shown loaded))
  /\ all_neuron_data loaded = all_neuron_data others
  /\ available_neurons loaded = available_neurons others
  /\ (forall c, In c (shown others) -> In c (shown loaded))
  /\ (forall (good : file) (id : str) (st' : load_state),
        neuron_of_filename model_name (fst good) = Some id ->
        (forall line, In line (snd good) ->
           exists d, json_loads (strip line) = Ok d) ->
        exists data,
          length data = length (snd good)
          /\ load_file json_loads model_name st' good
             = {| all_neuron_data :=
                    dict_set str_eqb (all_neuron_data st') id data;
                  available_neurons := available_neurons st' ++ [id];
                  shown := shown st' |}).
Proof.
  intros Hn Hbad loaded others.
  set (st1 := fold_left (load_file json_loads model_name) before st).
  destruct (@load_file_raise json_loads model_name st1 bad neuron_id Hn Hbad)
    as [e He].
  assert (Hext : extends st1 (load_file json_loads model_name st1 bad)).
  { rewrite He. unfold extends. simpl. repeat split.
    intros c Hc. apply in_or_app. now left. }
  assert (Hall : extends others loaded).
  { unfold others, loaded. rewrite !fold_left_app. cbn [fold_left].
    fold st1. now apply load_files_extends. }
  destruct Hall as (Ha & Hv & Hs).
  split; [|split; [now symmetry|split; [now symmetry|split; [exact Hs|]]]].
  - exists e. unfold loaded. rewrite fold_left_app. cbn [fold_left].
    fold st1. apply load_files_shown. rewrite He. simpl.
    apply in_or_app. right. now left.
  - intros good id st' Hid Hok. now apply load_file_ok.
Qed.

Lemma load_neuron_data_parse_failure_witness :
  neuron_of_filename (lit "Pythia-70M") (fst broken_file) = Some (lit "L0N20")
  /\ (exists line e, In line (snd broken_file)
                     /\ json_loads_sample (strip line) = Raise e)
  /\ all_neuron_data
       (fold_left (load_file json_loads_sample (lit "Pythia-70M"))
                  ([] ++ broken_file :: [sound_file])
                  {| all_neuron_data := []; available_neurons := [];
                     shown := [] |})
     = all_neuron_data
         (fold_left (load_file json_loads_sample (lit "Pythia-70M"))
                    ([] ++ [sound_file])
                    {| all_neuron_data := []; available_neurons := [];
                       shown := [] |}).
Proof.
  assert (Hn : neuron_of_filename (lit "Pythia-70M") (fst broken_file)
               = Some (lit "L0N20")) by (vm_compute; reflexivity).
  assert (Hbad : exists line e, In line (snd broken_file)
                                /\ json_loads_sample (strip line) = Raise e).
  { exists (lit "{"), (lit "Expecting property name enclosed in double quotes").
    split; [right; left; reflexivity | vm_compute; reflexivity]. }
  split; [exact Hn|]. split; [exact Hbad|].
  exact (proj1 (proj2
           (@load_neuron_data_parse_failure json_loads_sample
              (lit "Pythia-70M") [] [sound_file] broken_file (lit "L0N20")
              {| all_neuron_data := []; available_neurons := []; shown := [] |}
              Hn Hbad))).
Defined.

(** C8, as stated, fails for a record without its required fields: the
    empty object parses, so the file is loaded under its neuron and no
    error is shown. *)
Lemma load_neuron_data_fields_counterexample :
  json_loads_sample (lit "{}") = Ok empty_record
  /\ text_examples empty_record = None
  /\ load_neuron_data json_loads_sample fields_missing_fs (lit "Pythia-70M")
     = {| all_neuron_data := [(lit "L0N0", [empty_record])];
          available_neurons := [lit "L0N0"];
          shown := [] |}.
Proof. repeat split; vm_compute; reflexivity. Qed.

(** * Further properties *)

(** ** Tokenizer *)

Lemma In_concat_occurs (ms : list str) (m : str) :
  In m ms -> occurs_in m (concat ms).
Proof.
  intros H. apply in_split in H. destruct H as (l1 & l2 & ->).
  exists (concat l1), (concat l2). now rewrite concat_app.
Qed.

Lemma filter_all {A : Type} (p : A -> bool) (l : list A) :
  forallb p l = true -> filter p l = l.
Proof.
  induction l as [|x l IH]; simpl; [reflexivity|].
  intros H. apply andb_prop in H. destruct H as [Hx Hl].
  now rewrite Hx, IH.
Qed.

Lemma filter_none {A : Type} (p q : A -> bool) (l : list A) :
  (forall x, q x = true -> p x = false) ->
  forallb q l = true -> filter p l = [].
Proof.
  intros Hpq. induction l as [|x l IH]; simpl; [reflexivity|].
  intros H. apply andb_prop in H. destruct H as [Hx Hl].
  now rewrite (Hpq _ Hx), IH.
Qed.

Lemma run_not_space (m : str) :
  run_ok m -> negb (forallb is_space m) = forallb not_space m.
Proof.
  intros [Hne [H|H]]; rewrite H.
  - destruct m as [|c m]; [congruence|]. simpl in *.
    apply andb_prop in H. destruct H as [Hc _].
    unfold not_space. now rewrite Hc.
  - destruct m as [|c m]; [congruence|]. simpl in *.
    apply andb_prop in H. destruct H as [Hc _].
    unfold not_space in Hc. apply negb_true_iff in Hc. now rewrite Hc.
Qed.

Lemma concat_tokens (ms : list str) :
  Forall run_ok ms ->
  concat (filter (fun m => negb (forallb is_space m)) ms)
  = filter not_space (concat ms).
Proof.
  induction 1 as [|m ms Hm _ IH]; [reflexivity|].
  cbn [filter concat]. rewrite filter_app, <- IH.
  pose proof (run_not_space Hm) as Hns.
  destruct Hm as [_ [H|H]].
  - rewrite H. cbn [negb].
    rewrite (@filter_none _ not_space is_space m); [reflexivity| |assumption].
    intros x Hx. unfold not_space. now rewrite Hx.
  - rewrite Hns, H. cbn [concat]. now rewrite (filter_all _ _ H).
Qed.

(** X1.  The tokens are what is left of the text when its whitespace is
    taken out: put together they are the non-whitespace characters of the
    text, in order; each token is not empty, has no whitespace character
    and occurs in the text. *)
Theorem tokenize_text_keeps_non_space (text : str) :
  concat (tokenize_text text) = filter not_space text
  /\ forall token, In token (tokenize_text text) ->
       token <> [] /\ forallb not_space token = true
       /\ occurs_in token text.
Proof.
  destruct (@findall_tok_spec (length text) text (le_n _))
    as (Hcat & Hall & _ & _).
  assert (E : tokenize_text text
              = filter (fun m => negb (forallb is_space m))
                       (re_findall tok_re text)).
  { unfold tokenize_text. apply filter_ext. intros m. apply truthy_strip. }
  split.
  - rewrite E. unfold re_findall. rewrite (concat_tokens Hall).
    unfold re_findall in Hcat. now rewrite Hcat.
  - intros token Ht. rewrite E in Ht. apply filter_In in Ht.
    destruct Ht as [Hin Hns].
    rewrite Forall_forall in Hall. pose proof (Hall _ Hin) as Hrun.
    rewrite (run_not_space Hrun) in Hns.
    split; [apply Hrun|]. split; [assumption|].
    unfold re_findall in Hin, Hcat. rewrite <- Hcat.
    now apply In_concat_occurs.
Qed.

Lemma take_drop_while_app (p : ascii -> bool) (a b : str) :
  forallb p a = true -> take_while p b = [] ->
  take_while p (a ++ b) = a /\ drop_while p (a ++ b) = b.
Proof.
  intros Ha Hb. induction a as [|c a IH]; simpl.
  - split; [assumption | now apply take_while_nil_drop].
  - simpl in Ha. apply andb_prop in Ha. destruct Ha as [Hc Ha].
    rewrite Hc. destruct (IH Ha) as [-> ->]. now split.
Qed.

Lemma class_of_not_space (c : ascii) :
  not_space c = true -> class_of c = not_space.
Proof.
  unfold class_of, not_space. intros H. apply negb_true_iff in H.
  now rewrite H.
Qed.

Lemma class_of_space (c : ascii) : is_space c = true -> class_of c = is_space.
Proof. unfold class_of. now intros ->. Qed.

Lemma findall_tok_run (p : ascii -> bool) (a b : str) :
  p = is_space \/ p = not_space ->
  a <> [] -> forallb p a = true -> take_while p b = [] ->
  findall_from tok_re None 0 (a ++ b) = a :: findall_from tok_re None 0 b.
Proof.
  intros Hp Hne Ha Hb. destruct a as [|c a]; [congruence|].
  change ((c :: a) ++ b) with (c :: (a ++ b)). rewrite findall_tok_cons.
  assert (Hc : class_of c = p).
  { simpl in Ha. apply andb_prop in Ha. destruct Ha as [Hc _].
    destruct Hp as [-> | ->];
      [now apply class_of_space | now apply class_of_not_space]. }
  rewrite Hc. change (c :: (a ++ b)) with ((c :: a) ++ b).
  destruct (take_drop_while_app p (c :: a) b Ha Hb) as [-> ->].
  reflexivity.
Qed.

Lemma take_while_head_fails (p : ascii -> bool) (s : str) :
  match s with [] => True | c :: _ => p c = false end ->
  take_while p s = [].
Proof. destruct s as [|c s]; simpl; [reflexivity|]. now intros ->. Qed.

Lemma join_head (t : str) (rest : list str) :
  t <> [] ->
  exists c s, join (lit " ") (t :: rest) = c :: s /\ hd_error t = Some c.
Proof.
  destruct t as [|c t]; [congruence|]. intros _.
  destruct rest as [|t2 rest]; simpl; eauto.
Qed.

Lemma tokenize_text_join (tokens : list str) :
  Forall (fun t => t <> [] /\ forallb not_space t = true) tokens ->
  tokenize_text (join (lit " ") tokens) = tokens.
Proof.
  assert (Hkeep : forall t, t <> [] -> forallb not_space t = true ->
                            truthy (strip t) = true).
  { intros t Hne Ht. rewrite truthy_strip.
    destruct t as [|c t]; [congruence|]. simpl in *.
    apply andb_prop in Ht. destruct Ht as [Hc _].
    unfold not_space in Hc. apply negb_true_iff in Hc. now rewrite Hc. }
  induction 1 as [|t tokens [Hne Ht] Hall IH]; [reflexivity|].
  unfold tokenize_text, re_findall in *.
  destruct tokens as [|t2 tokens].
  - simpl join. rewrite <- (app_nil_r t) at 1.
    rewrite (@findall_tok_run not_space t []); auto.
    simpl. now rewrite (Hkeep _ Hne Ht).
  - change (join (lit " ") (t :: t2 :: tokens))
      with (t ++ lit " " ++ join (lit " ") (t2 :: tokens)).
    rewrite (@findall_tok_run not_space t); auto.
    rewrite (@findall_tok_run is_space (lit " ")); auto;
      try discriminate.
    + cbn [filter]. rewrite (Hkeep _ Hne Ht).
      change (truthy (strip (lit " "))) with false. cbn iota.
      now rewrite IH.
    + inversion Hall as [|? ? [Hne2 Ht2] _]; subst.
      destruct (join_head tokens Hne2) as (c & s & Hj & Hc).
      unfold str in Hj. rewrite Hj.
      apply take_while_head_fails.
      destruct t2 as [|c2 t2]; [congruence|]. injection Hc as <-.
      simpl in Ht2. apply andb_prop in Ht2. destruct Ht2 as [Hc2 _].
      unfold not_space in Hc2. now apply negb_true_iff in Hc2.
Qed.

(** X2.  Tokens put together with single spaces tokenize to themselves;
    so tokenizing is not changed by writing the tokens of a text with
    single spaces and tokenizing again. *)
Theorem tokenize_text_join_tokens (text : str) :
  (forall tokens,
     Forall (fun t => t <> [] /\ forallb not_space t = true) tokens ->
     tokenize_text (join (lit " ") tokens) = tokens)
  /\ tokenize_text (join (lit " ") (tokenize_text text)) = tokenize_text text.
Proof.
  split; [apply tokenize_text_join|].
  apply tokenize_text_join. apply Forall_forall. intros t Ht.
  destruct (@findall_tok_spec (length text) text (le_n _))
    as (_ & Hall & _ & _).
  unfold tokenize_text in Ht. apply filter_In in Ht. destruct Ht as [Hin Hk].
  rewrite Forall_forall in Hall. pose proof (Hall _ Hin) as Hrun.
  rewrite truthy_strip, (run_not_space Hrun) in Hk.
  split; [apply Hrun | assumption].
Qed.

(** ** The words of a text *)

Lemma fold_last (pre : str) (prev : option ascii) :
  fold_left (fun _ c => Some c) pre prev
  = match rev pre with
    | c :: _ => Some c
    | [] => prev
    end.
Proof.
  induction pre as [|x pre IH] using rev_ind; [reflexivity|].
  rewrite fold_left_app, rev_app_distr. reflexivity.
Qed.

Lemma findall_word_bounded (s : str) : forall prev k w,
  In w (findall_from word_re prev k s) ->
  exists pre post,
    s = pre ++ w ++ post /\ k <= length pre
    /\ is_word_at (fold_left (fun _ c => Some c) pre prev) = false
    /\ is_word_at (hd_error post) = false.
Proof.
  induction s as [|c s IH]; intros prev k w; cbn [findall_from].
  - rewrite word_re_here. simpl.
    destruct k; destruct (is_word_at prev); simpl; tauto.
  - assert (Hrec : forall k',
              In w (findall_from word_re (Some c) k' s) ->
              exists pre post,
                c :: s = pre ++ w ++ post /\ S k' <= length pre
                /\ is_word_at (fold_left (fun _ c => Some c) pre prev) = false
                /\ is_word_at (hd_error post) = false).
    { intros k' H. destruct (IH _ _ _ H) as (pre & post & -> & Hk & Hb & Ha).
      exists (c :: pre), post. simpl. repeat split; auto. lia. }
    destruct k as [|k].
    + rewrite word_re_here.
      destruct (is_word_at prev) eqn:Ep.
      { intros H. destruct (Hrec _ H) as (pre & post & E & Hk & Hb & Ha).
        exists pre, post. repeat split; auto. lia. }
      destruct (take_while is_az (c :: s)) as [|x run] eqn:Erun.
      { intros H. destruct (Hrec _ H) as (pre & post & E & Hk & Hb & Ha).
        exists pre, post. repeat split; auto. lia. }
      destruct (is_word_at (hd_error (drop_while is_az (c :: s)))) eqn:Ea.
      { intros H. destruct (Hrec _ H) as (pre & post & E & Hk & Hb & Ha).
        exists pre, post. repeat split; auto. lia. }
      intros [Hw|Hw].
      * rewrite <- Erun, firstn_take_while in Hw. subst w.
        exists [], (drop_while is_az (c :: s)).
        split; [symmetry; apply take_drop_while|].
        repeat split; auto.
      * destruct (Hrec _ Hw) as (pre & post & E & Hk & Hb & Ha).
        exists pre, post. repeat split; auto. lia.
    + intros H. destruct (Hrec _ H) as (pre & post & E & Hk & Hb & Ha).
      exists pre, post. repeat split; auto.
Qed.

(** X3.  Every word found by [\b[a-z]+\b] is a non-empty run of the
    letters a to z that stands in the text between two positions where no
    word character touches it: a run of letters next to a digit, an
    underscore or another letter or digit of the character set is no
    word. *)
Theorem re_findall_word_bounded (text w : str) :
  In w (re_findall word_re text) ->
  w <> [] /\ forallb is_az w = true
  /\ exists pre post,
       text = pre ++ w ++ post
       /\ word_boundary_before pre /\ word_boundary_after post.
Proof.
  intros H. unfold re_findall in H.
  destruct (findall_word_az _ _ _ _ H) as [Hne Haz].
  destruct (findall_word_bounded _ _ _ _ H) as (pre & post & E & _ & Hb & Ha).
  split; [assumption|]. split; [assumption|].
  exists pre, post. split; [assumption|]. split; [|assumption].
  unfold word_boundary_before. rewrite fold_last in Hb.
  destruct (rev pre); assumption.
Qed.

Lemma re_findall_word_bounded_witness :
  In (lit "cat") (re_findall word_re (lit "a cat, dog1"))
  /\ lit "cat" <> [].
Proof.
  assert (H : In (lit "cat") (re_findall word_re (lit "a cat, dog1"))).
  { vm_compute. right. left. reflexivity. }
  split; [exact H|].
  exact (proj1 (@re_findall_word_bounded (lit "a cat, dog1") (lit "cat") H)).
Defined.

Lemma findall_word_skip_char (prev : option ascii) (c : ascii) (s : str) :
  is_az c = false ->
  findall_from word_re prev 0 (c :: s) = findall_from word_re (Some c) 0 s.
Proof.
  intros Hc. cbn [findall_from]. rewrite word_re_here.
  simpl take_while. rewrite Hc. destruct (is_word_at prev); reflexivity.
Qed.

Lemma findall_word_run (prev : option ascii) (a b : str) :
  is_word_at prev = false -> a <> [] -> forallb is_az a = true ->
  is_word_at (hd_error b) = false ->
  findall_from word_re prev 0 (a ++ b)
  = a :: findall_from word_re (fold_left (fun _ c => Some c) a prev) 0 b.
Proof.
  intros Hp Hne Ha Hb.
  assert (Htb : take_while is_az b = []).
  { destruct b as [|x b]; [reflexivity|]. simpl in *.
    destruct (is_az x) eqn:Ex; [|reflexivity].
    rewrite (az_is_word _ Ex) in Hb. discriminate. }
  destruct (take_drop_while_app is_az a b Ha Htb) as [Ht Hd].
  destruct a as [|c a]; [congruence|].
  change ((c :: a) ++ b) with (c :: (a ++ b)) in *.
  cbn [findall_from]. rewrite word_re_here, Hp, Ht, Hd, Hb.
  change (c :: (a ++ b)) with ((c :: a) ++ b). rewrite firstn_length_app.
  cbn [length pred fold_left]. now rewrite findall_skip.
Qed.

Lemma lower_az (w : str) : forallb is_az w = true -> lower w = w.
Proof.
  induction w as [|c w IH]; [reflexivity|]. simpl. intros H.
  apply andb_prop in H. destruct H as [Hc Hw]. rewrite (IH Hw). f_equal.
  unfold lower_char, is_az, in_range in *.
  apply andb_prop in Hc. destruct Hc as [H1 H2].
  apply N.leb_le in H1. apply N.leb_le in H2.
  assert (ord c < 256)%N by apply N_ascii_bounded.
  repeat match goal with
         | |- context [(?a <=? ?b)%N] => destruct (N.leb_spec a b); try lia
         end; reflexivity.
Qed.

Lemma last_az_is_word (a : str) (prev : option ascii) :
  a <> [] -> forallb is_az a = true ->
  is_word_at (fold_left (fun _ c => Some c) a prev) = true.
Proof.
  intros Hne Ha. rewrite fold_last.
  destruct (rev a) as [|c r] eqn:E.
  - apply (f_equal (@rev ascii)) in E. rewrite rev_involutive in E.
    simpl in E. congruence.
  - simpl. apply az_is_word. rewrite forallb_forall in Ha. apply Ha.
    apply in_rev. rewrite E. now left.
Qed.

Lemma findall_word_join (ws : list str) : forall prev,
  is_word_at prev = false ->
  Forall (fun w => w <> [] /\ forallb is_az w = true) ws ->
  findall_from word_re prev 0 (join (lit " ") ws) = ws.
Proof.
  induction ws as [|w ws IH]; intros prev Hp Hall.
  - cbn [join findall_from]. rewrite word_re_here, Hp. reflexivity.
  - inversion Hall as [|? ? [Hne Hw] Hrest]; subst.
    destruct ws as [|w2 ws].
    + simpl join. rewrite <- (app_nil_r w) at 1.
      rewrite findall_word_run by auto. f_equal.
      cbn [findall_from]. rewrite word_re_here.
      now rewrite (last_az_is_word prev Hne Hw).
    + change (join (lit " ") (w :: w2 :: ws))
        with (w ++ lit " " ++ join (lit " ") (w2 :: ws)).
      rewrite findall_word_run by auto. f_equal.
      change (lit " " ++ join (lit " ") (w2 :: ws))
        with (" "%char :: join (lit " ") (w2 :: ws)).
      rewrite findall_word_skip_char by reflexivity.
      apply IH; [reflexivity | assumption].
Qed.

(** X4.  When every text is one word of the letters a to z, the
    candidate words of the extractor are the texts themselves, in their
    order. *)
Theorem words_of_single_words (texts : list str) :
  Forall (fun w => w <> [] /\ forallb is_az w = true) texts ->
  words_of texts = texts.
Proof.
  intros Hall. unfold words_of, re_findall.
  assert (E : lower (join (lit " ") texts) = join (lit " ") texts).
  { clear -Hall. induction Hall as [|w ws [_ Hw] _ IH]; [reflexivity|].
    destruct ws as [|w2 ws]; [now apply lower_az|].
    change (join (lit " ") (w :: w2 :: ws))
      with (w ++ lit " " ++ join (lit " ") (w2 :: ws)).
    unfold lower in *. rewrite !map_app, IH.
    fold (lower w). now rewrite (lower_az _ Hw). }
  rewrite E. now apply findall_word_join.
Qed.

Lemma words_of_single_words_witness :
  Forall (fun w => w <> [] /\ forallb is_az w = true) [lit "cat"; lit "dog"]
  /\ words_of [lit "cat"; lit "dog"] = [lit "cat"; lit "dog"].
Proof.
  assert (H : Forall (fun w => w <> [] /\ forallb is_az w = true)
                     [lit "cat"; lit "dog"]).
  { repeat constructor; discriminate. }
  split; [exact H|].
  exact (@words_of_single_words [lit "cat"; lit "dog"] H).
Defined.

(** ** The counts of the extractor *)

Lemma occurrences_cons (x : str) (l : list str) (w : str) :
  occurrences (x :: l) w
  = ((if str_eqb x w then 1 else 0) + occurrences l w)%Z.
Proof.
  unfold occurrences, str_eqb. cbn [count_occ].
  destruct (list_eq_dec ascii_dec x w); lia.
Qed.

Lemma occurrences_nonneg (l : list str) (w : str) : (0 <= occurrences l w)%Z.
Proof. unfold occurrences. lia. Qed.

Lemma occurrences_app (l1 l2 : list str) (w : str) :
  occurrences (l1 ++ l2) w = (occurrences l1 w + occurrences l2 w)%Z.
Proof. unfold occurrences. now rewrite count_occ_app, Nat2Z.inj_add. Qed.

Lemma occurrences_filter (p : str -> bool) (l : list str) (w : str) :
  occurrences (filter p l) w = if p w then occurrences l w else 0%Z.
Proof.
  induction l as [|x l IH]; simpl.
  - destruct (p w); reflexivity.
  - destruct (p x) eqn:Ex; rewrite ?occurrences_cons, IH.
    + destruct (str_eqb x w) eqn:E; [|destruct (p w); reflexivity].
      apply str_eqb_spec in E. subst. now rewrite Ex.
    + destruct (str_eqb x w) eqn:E; [|destruct (p w); lia].
      apply str_eqb_spec in E. subst. now rewrite Ex.
Qed.

(** Counting a list of strings one by one. *)
Lemma tally_get (l : list str) : forall (d : counts) (w : str),
  dict_get str_eqb (fold_left incr l d) w
  = if (0 <? occurrences l w)%Z
    then Some (dict_get_default str_eqb d w 0 + occurrences l w)%Z
    else dict_get str_eqb d w.
Proof.
  induction l as [|x l IH]; intros d w; [reflexivity|].
  cbn [fold_left]. rewrite IH, occurrences_cons.
  pose proof (occurrences_nonneg l w) as Hn.
  unfold incr at 2. unfold dict_get_default at 1.
  unfold incr. rewrite (dict_get_set _ str_eqb_spec).
  destruct (str_eqb x w) eqn:E.
  - apply str_eqb_spec in E. subst x.
    destruct (Z.ltb_spec 0 (occurrences l w));
      destruct (Z.ltb_spec 0 (1 + occurrences l w)); try lia;
      f_equal; lia.
  - replace (0 + occurrences l w)%Z with (occurrences l w) by lia.
    reflexivity.
Qed.

Lemma tally_empty (l : list str) (w : str) :
  dict_get str_eqb (fold_left incr l []) w = count_entry (occurrences l w).
Proof.
  rewrite tally_get. unfold count_entry, dict_get_default. simpl.
  destruct (0 <? occurrences l w)%Z; reflexivity.
Qed.

Lemma fold_left_if_filter {A B : Type} (f : A -> B -> A) (p : B -> bool)
  (l : list B) : forall a,
  fold_left (fun a x => if p x then f a x else a) l a
  = fold_left f (filter p l) a.
Proof.
  induction l as [|x l IH]; intros a; [reflexivity|].
  simpl. destruct (p x); simpl; apply IH.
Qed.

Lemma fold_left_flat_map {A B C : Type} (f : A -> C -> A) (g : B -> list C)
  (l : list B) : forall a,
  fold_left (fun a x => fold_left f (g x) a) l a
  = fold_left f (flat_map g l) a.
Proof.
  induction l as [|x l IH]; intros a; [reflexivity|].
  simpl. now rewrite fold_left_app, IH.
Qed.

Lemma fold_left_ext {A B : Type} (f g : A -> B -> A) (l : list B) :
  (forall a x, f a x = g a x) ->
  forall a, fold_left f l a = fold_left g l a.
Proof.
  intros H. induction l as [|x l IH]; intros a; [reflexivity|].
  simpl. now rewrite H, IH.
Qed.

Lemma filter_flat_map {A B : Type} (p : B -> bool) (f : A -> list B)
  (l : list A) :
  filter p (flat_map f l) = flat_map (fun x => filter p (f x)) l.
Proof.
  induction l as [|x l IH]; [reflexivity|].
  simpl. now rewrite filter_app, IH.
Qed.

Lemma fold_left_unless_map {B : Type} (q : str -> bool) (g : B -> str)
  (l : list B) : forall a : counts,
  fold_left (fun a x => if q (g x) then a else incr a (g x)) l a
  = fold_left incr (filter (fun y => negb (q y)) (map g l)) a.
Proof.
  induction l as [|x l IH]; intros a; [reflexivity|].
  simpl. destruct (q (g x)); simpl; apply IH.
Qed.

Lemma count_words_tally (min_length : Z) (words : list str) :
  count_words min_length words
  = fold_left incr (filter (keep_word min_length) words) [].
Proof. apply fold_left_if_filter. Qed.

Lemma count_word_fragments_tally (min_length : Z) (d : counts) (word : str) :
  count_word_fragments min_length d word
  = fold_left incr (fragments_of min_length word) d.
Proof.
  unfold count_word_fragments, fragments_of.
  rewrite filter_flat_map, <- fold_left_flat_map.
  apply fold_left_ext. intros a frag_len.
  apply (fold_left_unless_map in_stop_words
           (fun start => py_slice word start (start + frag_len))).
Qed.

Lemma count_fragments_tally (min_length : Z) (words : list str) :
  count_fragments min_length words
  = fold_left incr (all_fragments min_length words) [].
Proof.
  unfold count_fragments, all_fragments.
  rewrite fold_left_if_filter, <- fold_left_flat_map.
  apply fold_left_ext. intros a word. apply count_word_fragments_tally.
Qed.

(** X5.  The count of a whole word is the number of times it occurs
    among the candidate words, for a word that is kept (long enough and no
    stop word); any other string has no count. *)
Theorem count_words_occurrences (min_length : Z) (words : list str)
  (w : str) :
  dict_get str_eqb (count_words min_length words) w
  = if keep_word min_length w then count_entry (occurrences words w)
    else None.
Proof.
  rewrite count_words_tally, tally_empty, occurrences_filter.
  destruct (keep_word min_length w); reflexivity.
Qed.

(** X6.  The count of a fragment is the number of times it comes up when
    every kept word, once per occurrence, is cut into its slices of each
    length from [min_length] to 7 (or the length of the word, if smaller)
    at each start, stop words left out. *)
Theorem count_fragments_occurrences (min_length : Z) (words : list str)
  (t : str) :
  dict_get str_eqb (count_fragments min_length words) t
  = count_entry (occurrences (all_fragments min_length words) t).
Proof. rewrite count_fragments_tally. apply tally_empty. Qed.

Lemma py_slice_full {A : Type} (l : list A) : py_slice l 0 (0 + len l) = l.
Proof.
  unfold py_slice, slice_bound, len. simpl.
  replace (Z.min 0 (Z.of_nat (length l))) with 0%Z by lia.
  destruct (Z.ltb_spec (Z.of_nat (length l)) 0); [lia|].
  rewrite Z.min_id, Z.sub_0_r, Nat2Z.id. simpl. apply firstn_all.
Qed.

Lemma fragments_of_self (min_length : Z) (w : str) :
  keep_word min_length w = true -> (len w <= 7)%Z ->
  In w (fragments_of min_length w).
Proof.
  intros Hk Hlen. apply keep_word_spec in Hk. destruct Hk as [Hml Hstop].
  unfold fragments_of. apply filter_In. split; [|now rewrite Hstop].
  apply in_flat_map. exists (len w). split.
  - apply py_range_In. lia.
  - apply in_map_iff. exists 0%Z. split; [apply py_slice_full|].
    apply py_range_In. lia.
Qed.

Lemma occurrences_In (l : list str) (w : str) :
  In w l -> (1 <= occurrences l w)%Z.
Proof.
  intros H. unfold occurrences.
  apply (count_occ_In (list_eq_dec ascii_dec)) in H. lia.
Qed.

Lemma occurrences_flat_map (f : str -> list str) (l : list str) (w : str) :
  In w (f w) ->
  (occurrences l w <= occurrences (flat_map f l) w)%Z.
Proof.
  intros Hw. induction l as [|x l IH]; simpl; [lia|].
  rewrite occurrences_cons, occurrences_app.
  pose proof (occurrences_nonneg (f x) w) as Hx.
  destruct (str_eqb x w) eqn:E; [|lia].
  apply str_eqb_spec in E. subst x.
  pose proof (occurrences_In _ _ Hw). lia.
Qed.

(** X7.  A kept word of at most 7 letters is one of its own fragments,
    so its fragment count is at least its word count; when it occurs 5
    times or more, its merged score is twice its word count plus its
    fragment count, which is at least three times its word count. *)
Theorem short_word_weight (min_length : Z) (words : list str) (w : str) :
  keep_word min_length w = true -> (len w <= 7)%Z ->
  let c := occurrences words w in
  let f := occurrences (all_fragments min_length words) w in
  (c <= f)%Z
  /\ ((5 <= c)%Z ->
      dict_get str_eqb (merged_counts min_length words) w
      = Some (c * 2 + f)%Z
      /\ (3 * c <= c * 2 + f)%Z).
Proof.
  intros Hk Hlen c f.
  assert (Hcf : (c <= f)%Z).
  { unfold c, f, all_fragments.
    pose proof (occurrences_filter (keep_word min_length) words w) as E.
    rewrite Hk in E. rewrite <- E.
    apply occurrences_flat_map. now apply fragments_of_self. }
  split; [assumption|]. intros H5. split; [|lia].
  rewrite merged_counts_get, count_words_occurrences,
    count_fragments_occurrences, Hk.
  fold c f. unfold count_entry, merged_score.
  destruct (Z.ltb_spec 0 c); [|lia].
  destruct (Z.ltb_spec 0 f); [|lia].
  destruct (Z.leb_spec 5 f); [reflexivity|lia].
Qed.

Lemma short_word_weight_witness :
  keep_word 3 (lit "cat") = true /\ (len (lit "cat") <= 7)%Z
  /\ (occurrences (words_of [lit "cat cat"]) (lit "cat")
      <= occurrences (all_fragments 3 (words_of [lit "cat cat"])) (lit "cat"))%Z.
Proof.
  assert (Hk : keep_word 3 (lit "cat") = true) by (vm_compute; reflexivity).
  assert (Hl : (len (lit "cat") <= 7)%Z) by (vm_compute; discriminate).
  split; [exact Hk|]. split; [exact Hl|].
  exact (proj1 (@short_word_weight 3 (words_of [lit "cat cat"]) (lit "cat")
                  Hk Hl)).
Defined.

(** ** The result of the extractor *)

Lemma NoDup_firstn {A : Type} (n : nat) (l : list A) :
  NoDup l -> NoDup (firstn n l).
Proof.
  revert n. induction l as [|x l IH]; intros [|n] H; simpl;
    try constructor.
  - inversion H; subst. intros Hin. apply In_firstn in Hin. contradiction.
  - inversion H; subst. now apply IH.
Qed.

Lemma NoDup_skipn {A : Type} (n : nat) (l : list A) :
  NoDup l -> NoDup (skipn n l).
Proof.
  revert n. induction l as [|x l IH]; intros [|n] H; simpl;
    try assumption.
  inversion H; subst. now apply IH.
Qed.

Lemma map_py_slice {A B : Type} (f : A -> B) (l : list A) (lo hi : Z) :
  map f (py_slice l lo hi) = py_slice (map f l) lo hi.
Proof.
  unfold py_slice, len. rewrite length_map, skipn_map, firstn_map.
  reflexivity.
Qed.

(** X8.  No term is returned twice, whatever the texts, the minimal
    length and [top_n]. *)
Theorem analyze_common_words_NoDup (texts : list str)
  (min_length top_n : Z) :
  NoDup (analyze_common_words texts min_length top_n).
Proof.
  rewrite analyze_common_words_eq, map_py_slice.
  unfold py_slice. apply NoDup_firstn, NoDup_skipn.
  eapply Permutation_NoDup.
  - symmetry. apply Permutation_map. apply sorted_by_count_desc_perm.
  - apply merged_counts_NoDup.
Qed.

(** X9.  Asking for fewer terms gives the first terms of the longer
    answer: for [0 <= n <= m] the [n] best terms are the first [n] of the
    [m] best. *)
Theorem analyze_common_words_prefix (texts : list str)
  (min_length n m : Z) :
  (0 <= n <= m)%Z ->
  analyze_common_words texts min_length n
  = firstn (Z.to_nat n) (analyze_common_words texts min_length m).
Proof.
  intros H. rewrite !analyze_common_words_eq, !py_slice_prefix by lia.
  rewrite <- !firstn_map, firstn_firstn.
  now replace (Nat.min (Z.to_nat n) (Z.to_nat m)) with (Z.to_nat n) by lia.
Qed.

Lemma analyze_common_words_prefix_witness :
  (0 <= 1 <= 2)%Z
  /\ analyze_common_words [lit "cat cat dog"] 3 1
     = firstn (Z.to_nat 1) (analyze_common_words [lit "cat cat dog"] 3 2).
Proof.
  split; [lia|].
  exact (@analyze_common_words_prefix [lit "cat cat dog"] 3 1 2
           ltac:(lia)).
Defined.

Lemma insert_desc_filter (v : Z) (x : str * Z) (l : list (str * Z)) :
  filter (has_score v) (insert_desc x l) = filter (has_score v) (x :: l).
Proof.
  induction l as [|y l IH]; [reflexivity|].
  cbn [insert_desc]. destruct (Z.ltb_spec (snd x) (snd y)); [|reflexivity].
  cbn [filter] in *. rewrite IH. unfold has_score.
  destruct (Z.eqb_spec (snd x) v); destruct (Z.eqb_spec (snd y) v);
    try reflexivity. lia.
Qed.

(** X10.  The sort of the merged entries is stable: for every score, the
    entries of that score come in the result in the order in which they
    are in the merged map, whole words in the order of their first
    occurrence and then the fragments; so a tie is won by the entry that
    was inserted first. *)
Theorem sorted_by_count_desc_stable (items : list (str * Z)) (v : Z) :
  filter (has_score v) (sorted_by_count_desc items)
  = filter (has_score v) items.
Proof.
  induction items as [|x items IH]; [reflexivity|].
  cbn [sorted_by_count_desc fold_right].
  fold (sorted_by_count_desc items).
  rewrite insert_desc_filter. cbn [filter]. now rewrite IH.
Qed.

(** ** Letter case *)

Lemma lower_char_twice (c : ascii) : lower_char (lower_char c) = lower_char c.
Proof.
  destruct c as [[] [] [] [] [] [] [] []]; vm_compute; reflexivity.
Qed.

Lemma lower_twice (s : str) : lower (lower s) = lower s.
Proof.
  unfold lower. rewrite map_map. apply map_ext. apply lower_char_twice.
Qed.

Lemma lower_join (texts : list str) :
  lower (join (lit " ") (map lower texts)) = lower (join (lit " ") texts).
Proof.
  induction texts as [|t texts IH]; [reflexivity|].
  destruct texts as [|t2 texts]; [apply lower_twice|].
  change (join (lit " ") (map lower (t :: t2 :: texts)))
    with (lower t ++ lit " " ++ join (lit " ") (map lower (t2 :: texts))).
  change (join (lit " ") (t :: t2 :: texts))
    with (t ++ lit " " ++ join (lit " ") (t2 :: texts)).
  unfold lower in *. rewrite !map_app, IH, map_map.
  f_equal. apply map_ext. apply lower_char_twice.
Qed.

Lemma analyze_common_words_lower (texts : list str) (min_length top_n : Z) :
  analyze_common_words (map lower texts) min_length top_n
  = analyze_common_words texts min_length top_n.
Proof.
  rewrite !analyze_common_words_eq. unfold words_of. now rewrite lower_join.
Qed.

Lemma is_highlighted_lower (common : list str) (token : str) :
  is_highlighted common (lower token) = is_highlighted common token.
Proof. unfold is_highlighted, clean_token. now rewrite lower_twice. Qed.

(** X11.  Letter case does not matter: lower-casing the cluster texts
    does not change the common terms, and lower-casing the tokens and the
    cluster texts does not change the marks. *)
Theorem highlight_pattern_case_insensitive (tokens cluster_texts : list str)
  (is_right_panel : bool) (min_length top_n : Z) :
  analyze_common_words (map lower cluster_texts) min_length top_n
  = analyze_common_words cluster_texts min_length top_n
  /\ highlight_pattern (map lower tokens) is_right_panel
                       (map lower cluster_texts)
     = highlight_pattern tokens is_right_panel cluster_texts.
Proof.
  split; [apply analyze_common_words_lower|].
  unfold highlight_pattern.
  destruct cluster_texts as [|t texts].
  - cbn [map]. now rewrite length_map.
  - pose proof (analyze_common_words_lower (t :: texts) 3 2) as E.
    cbn [map] in *. rewrite E.
    destruct is_right_panel; cbn [negb].
    + rewrite map_map. apply map_ext. intros token.
      now rewrite is_highlighted_lower.
    + now rewrite length_map.
Qed.

(** ** Marks of single tokens *)

Lemma lower_char_word (c : ascii) : is_word (lower_char c) = is_word c.
Proof.
  destruct c as [[] [] [] [] [] [] [] []]; vm_compute; reflexivity.
Qed.

Lemma filter_word_lower_nil (token : str) :
  forallb not_word token = true -> filter is_word (lower token) = [].
Proof.
  induction token as [|c token IH]; [reflexivity|].
  simpl. intros H. apply andb_prop in H. destruct H as [Hc Ht].
  rewrite lower_char_word. unfold not_word in Hc.
  apply negb_true_iff in Hc. rewrite Hc. now apply IH.
Qed.

Lemma occurs_in_refl (a : str) : occurs_in a a.
Proof. exists [], []. now rewrite app_nil_r. Qed.

(** X12.  A token without a word character, such as a punctuation mark,
    is marked low on either panel and for any cluster.  On the emphasized
    panel a token whose cleaned form is one of the common terms of the
    cluster is marked high. *)
Theorem highlight_pattern_token_marks (tokens cluster_texts : list str)
  (is_right_panel : bool) (i : nat) (token : str) :
  nth_error tokens i = Some token ->
  (forallb not_word token = true ->
   nth_error (highlight_pattern tokens is_right_panel cluster_texts) i
   = Some Low)
  /\ (is_right_panel = true ->
      In (clean_token token) (analyze_common_words cluster_texts 3 2) ->
      clean_token token <> [] ->
      nth_error (highlight_pattern tokens is_right_panel cluster_texts) i
      = Some High).
Proof.
  intros Hi.
  assert (Hlow : nth_error (repeat Low (length tokens)) i = Some Low).
  { assert (Hlt : i < length tokens)
      by (apply nth_error_Some; congruence).
    rewrite (nth_error_nth' _ Low) by (now rewrite repeat_length).
    f_equal. apply nth_repeat. }
  split.
  - intros Hp. unfold highlight_pattern.
    destruct cluster_texts as [|t texts]; [exact Hlow|].
    destruct is_right_panel; cbn [negb]; [|exact Hlow].
    rewrite nth_error_map, Hi. cbn [option_map]. f_equal.
    unfold is_highlighted.
    rewrite clean_token_filter, (filter_word_lower_nil _ Hp). reflexivity.
  - intros -> Hin Hne. unfold highlight_pattern.
    destruct cluster_texts as [|t texts]; [destruct Hin|].
    cbn [negb]. rewrite nth_error_map, Hi. cbn [option_map]. f_equal.
    replace (is_highlighted (analyze_common_words (t :: texts) 3 2) token)
      with true; [reflexivity|].
    symmetry. apply is_highlighted_spec. rewrite <- clean_token_filter.
    split; [assumption|]. exists (clean_token token).
    split; [assumption|]. left. apply occurs_in_refl.
Qed.

Lemma highlight_pattern_token_marks_witness :
  nth_error [lit "cat"; lit "--"] 1 = Some (lit "--")
  /\ (forallb not_word (lit "--") = true ->
      nth_error (highlight_pattern [lit "cat"; lit "--"] true [lit "cat"]) 1
      = Some Low).
Proof.
  split; [reflexivity|].
  exact (proj1 (@highlight_pattern_token_marks [lit "cat"; lit "--"]
                  [lit "cat"] true 1 (lit "--") eq_refl)).
Defined.

(** ** Renderer: grouping and order *)

Lemma combine_truncate {A B : Type} (l : list A) (l' : list B) :
  combine l l' = combine (firstn (length l') l) (firstn (length l) l').
Proof.
  revert l'. induction l as [|x l IH]; intros [|y l']; simpl;
    try reflexivity.
  now rewrite <- IH.
Qed.

(** X13.  Labels and examples are paired position by position up to the
    shorter of the two lists: what is beyond it in the longer list is in
    no cluster and is not shown. *)
Theorem display_cluster_data_truncates (labels : list Z)
  (examples : list str) (is_right_panel : bool) :
  group_examples labels examples
  = group_examples (firstn (length examples) labels)
                   (firstn (length labels) examples)
  /\ display_cluster_data (record_of labels examples) is_right_panel
     = display_cluster_data
         (record_of (firstn (length examples) labels)
                    (firstn (length labels) examples))
         is_right_panel.
Proof.
  assert (E : group_examples labels examples
              = group_examples (firstn (length examples) labels)
                               (firstn (length labels) examples)).
  { unfold group_examples. now rewrite <- combine_truncate. }
  split; [exact E|].
  unfold display_cluster_data, record_of. simpl. now rewrite <- E.
Qed.

(** X14.  The clusters are shown by ascending label, each distinct label
    of the paired part of the record once: the labels of the opened
    clusters are strictly increasing and are a rearrangement of the
    distinct labels. *)
Theorem display_cluster_data_order (data : checkpoint_record)
  (labels : list Z) (examples : list str) (is_right_panel : bool) :
  cluster_labels data = Some labels -> text_examples data = Some examples ->
  let ids := opened (display_cluster_data data is_right_panel) in
  StronglySorted Z.lt ids
  /\ Permutation ids (first_seen (firstn (length examples) labels)).
Proof.
  intros Hl He ids.
  assert (E : ids = sorted_keys (first_seen (firstn (length examples) labels))).
  { unfold ids, display_cluster_data. rewrite Hl, He.
    rewrite opened_flat_map.
    pose proof (group_examples_keys labels examples) as Hk.
    unfold keys in Hk. now rewrite Hk. }
  rewrite E. split.
  - apply sorted_keys_sorted, NoDup_first_seen.
  - apply sorted_keys_perm.
Qed.

Lemma display_cluster_data_order_witness :
  cluster_labels record_3000 = Some [0; 0]%Z
  /\ text_examples record_3000 = Some [lit "the cat sat"; lit "a cat ran"]
  /\ StronglySorted Z.lt (opened (display_cluster_data record_3000 true)).
Proof.
  split; [reflexivity|]. split; [reflexivity|].
  exact (proj1 (@display_cluster_data_order record_3000 [0; 0]%Z
                  [lit "the cat sat"; lit "a cat ran"] true
                  eq_refl eq_refl)).
Defined.

Lemma no_error_display_cluster (clusters : clusters_t)
  (is_right_panel : bool) (cluster_id : Z) :
  existsb is_st_error (display_cluster clusters is_right_panel cluster_id)
  = false.
Proof.
  unfold display_cluster. rewrite !existsb_app. cbn [existsb is_st_error].
  assert (E : forall (f : str -> str) l,
            existsb is_st_error (map (fun e => ExampleDiv (f e)) l) = false).
  { intros f l. induction l as [|x l IH]; [reflexivity|assumption]. }
  rewrite (E (fun example =>
                highlight_tokens example
                  (dict_get_default Z.eqb clusters cluster_id [])
                  is_right_panel)).
  destruct (5 <? len (dict_get_default Z.eqb clusters cluster_id []))%Z;
    reflexivity.
Qed.

(** X15.  The renderer reports an error exactly when the record lacks
    its labels or its examples, and then the error "Invalid data format"
    is all it shows; a record with both fields is shown without any
    error, even when the two lists are empty or of different lengths. *)
Theorem display_cluster_data_error (data : checkpoint_record)
  (is_right_panel : bool) :
  (existsb is_st_error (display_cluster_data data is_right_panel) = true
   <-> cluster_labels data = None \/ text_examples data = None)
  /\ (cluster_labels data = None \/ text_examples data = None ->
      display_cluster_data data is_right_panel
      = [StError (lit "Invalid data format")]).
Proof.
  unfold display_cluster_data.
  destruct (cluster_labels data) as [labels|];
    destruct (text_examples data) as [examples|];
    try (split; [split; [intros _; auto | reflexivity] | reflexivity]).
  split.
  - split; [|intros [H|H]; discriminate].
    intros H. exfalso.
    assert (E : forall ids,
              existsb is_st_error
                (flat_map (display_cluster (group_examples labels examples)
                                           is_right_panel) ids) = false).
    { induction ids as [|id ids IH]; [reflexivity|].
      cbn [flat_map]. now rewrite existsb_app, no_error_display_cluster, IH. }
    rewrite E in H. discriminate.
  - intros [H|H]; discriminate.
Qed.

(** X16.  Every cluster gets a colour of the palette of ten, also for a
    negative label, and two labels that differ by ten get the same
    colour. *)
Theorem display_cluster_color (clusters : clusters_t)
  (is_right_panel : bool) (cluster_id : Z) :
  (exists n,
     hd_error (display_cluster clusters is_right_panel cluster_id)
     = Some (ClusterOpen (cluster_color cluster_id) cluster_id n))
  /\ In (cluster_color cluster_id) cluster_colors
  /\ cluster_color (cluster_id + 10) = cluster_color cluster_id.
Proof.
  split; [eexists; reflexivity|]. split.
  - unfold cluster_color. apply nth_In.
    change (len cluster_colors) with 10%Z.
    change (length cluster_colors) with 10.
    pose proof (Z.mod_pos_bound cluster_id 10). lia.
  - unfold cluster_color. change (len cluster_colors) with 10%Z.
    replace (cluster_id + 10)%Z with (cluster_id + 1 * 10)%Z by lia.
    now rewrite Z.mod_add by lia.
Qed.

Lemma concat_set_append (d : clusters_t) (l : Z) (v : list str) (e : str) :
  dict_get Z.eqb d l = Some v ->
  Permutation (concat (map snd (dict_set Z.eqb d l (v ++ [e]))))
              (e :: concat (map snd d)).
Proof.
  induction d as [|[k0 v0] d IH]; cbn [dict_get dict_set];
    [discriminate|].
  destruct (Z.eqb_spec k0 l) as [->|Hne]; cbn [map snd concat].
  - intros H. injection H as ->. rewrite <- app_assoc.
    symmetry. apply Permutation_middle.
  - intros H. rewrite (IH H). symmetry. apply Permutation_middle.
Qed.

Lemma group_pairs_partition (pairs : list (Z * str)) :
  Permutation (concat (map snd (group_pairs pairs))) (map snd pairs).
Proof.
  induction pairs as [|[l e] pairs IH] using rev_ind; [reflexivity|].
  unfold group_pairs. rewrite fold_left_app. cbn [fold_left fst snd].
  fold (group_pairs pairs). set (d := group_pairs pairs) in *.
  rewrite map_app. cbn [map snd].
  transitivity (e :: map snd pairs); [|apply Permutation_cons_append].
  rewrite <- IH. unfold dict_mem, dict_get_default.
  destruct (dict_get Z.eqb d l) as [v|] eqn:Eg.
  - rewrite Eg. now apply concat_set_append.
  - rewrite (dict_get_set _ Z_eqb_spec), Z.eqb_refl.
    rewrite (@concat_set_append _ l [] e)
      by (now rewrite (dict_get_set _ Z_eqb_spec), Z.eqb_refl).
    constructor.
    rewrite (@dict_set_new _ _ Z.eqb d l [] Eg), map_app, concat_app.
    simpl. now rewrite app_nil_r.
Qed.

(** X17.  The grouping neither loses nor repeats an example: the
    examples of all the clusters together are the paired examples of the
    record, rearranged, and the sizes of the clusters add up to their
    number. *)
Theorem group_examples_partition (labels : list Z) (examples : list str) :
  let clusters := group_examples labels examples in
  Permutation (concat (map snd clusters))
              (firstn (length labels) examples)
  /\ length (concat (map snd clusters))
     = Nat.min (length labels) (length examples).
Proof.
  intros clusters.
  assert (E : map snd (combine labels examples)
              = firstn (length labels) examples).
  { clear. revert examples. induction labels as [|x l IH]; intros [|y l'];
      simpl; try reflexivity. now rewrite IH. }
  assert (P : Permutation (concat (map snd clusters))
                          (firstn (length labels) examples)).
  { rewrite <- E. apply group_pairs_partition. }
  split; [exact P|].
  rewrite (Permutation_length P), length_firstn. reflexivity.
Qed.

(** ** The two panels: lookup of the record *)

Lemma next_with_step_In (data : list checkpoint_record) (step : Z)
  (d : checkpoint_record) :
  next_with_step data step = Ok (Some d) ->
  In d data /\ checkpoint_step d = Some step.
Proof.
  induction data as [|r data IH]; simpl; [discriminate|].
  destruct (checkpoint_step r) as [s|] eqn:Es; [|discriminate].
  destruct (Z.eqb_spec s step) as [->|Hne].
  - intros H. injection H as <-. split; [now left|assumption].
  - intros H. destruct (IH H) as [Hin Hs]. split; [now right|assumption].
Qed.

Lemma In_pairs_of (labels : list Z) (examples : list str) (label : Z)
  (e : str) :
  In e (examples_of labels examples label) -> In e examples.
Proof.
  unfold examples_of, pairs_of. intros H.
  apply in_map_iff in H. destruct H as ([l x] & <- & H).
  apply filter_In in H. destruct H as [H _].
  now apply in_combine_r in H.
Qed.

(** X18.  The left panel marks nothing: each example it shows is the
    text of an example of the record of the chosen step, as it is in the
    record. *)
Theorem left_panel_plain (data : list checkpoint_record) (checkpoint : Z)
  (calls : list ui_call) (shown_text : str) :
  left_panel data checkpoint = Ok calls ->
  In (ExampleDiv shown_text) calls ->
  exists d examples,
    In d data /\ checkpoint_step d = Some checkpoint
    /\ text_examples d = Some examples /\ In shown_text examples.
Proof.
  unfold left_panel. intros H Hin.
  destruct (next_with_step data checkpoint) as [[d|]|e] eqn:En;
    simpl in H; try discriminate.
  - destruct (next_with_step_In _ _ En) as [Hd Hs].
    destruct (record_truthy d).
    + injection H as <-. unfold display_cluster_data in Hin.
      destruct (cluster_labels d) as [labels|] eqn:El;
        [|destruct Hin as [Hin|[]]; discriminate].
      destruct (text_examples d) as [examples|] eqn:Ee;
        [|destruct Hin as [Hin|[]]; discriminate].
      exists d, examples. repeat split; try assumption.
      apply in_flat_map in Hin. destruct Hin as (id & _ & Hin).
      rewrite display_cluster_eq in Hin. cbn zeta in Hin.
      cbn [app In] in Hin. destruct Hin as [Hin|Hin]; [discriminate|].
      apply in_app_or in Hin. destruct Hin as [Hin|Hin].
      * apply in_map_iff in Hin. destruct Hin as (x & Hx & Hin).
        injection Hx as <-. apply In_firstn in Hin.
        apply In_pairs_of in Hin. exact Hin.
      * exfalso. apply in_app_or in Hin. destruct Hin as [Hin|Hin].
        -- destruct (5 <? len (examples_of labels examples id))%Z;
             [destruct Hin as [Hin|[]]; discriminate | destruct Hin].
        -- destruct Hin as [Hin|[]]; discriminate.
    + injection H as <-. destruct Hin as [Hin|[]]. discriminate.
  - injection H as <-. destruct Hin as [Hin|[]]. discriminate.
Qed.

Lemma left_panel_plain_witness :
  left_panel [record_3000] 3000 = Ok (display_cluster_data record_3000 false)
  /\ In (ExampleDiv (lit "a cat ran")) (display_cluster_data record_3000 false)
  /\ exists d examples,
       In d [record_3000] /\ checkpoint_step d = Some 3000%Z
       /\ text_examples d = Some examples /\ In (lit "a cat ran") examples.
Proof.
  assert (H1 : left_panel [record_3000] 3000
               = Ok (display_cluster_data record_3000 false))
    by (vm_compute; reflexivity).
  assert (H2 : In (ExampleDiv (lit "a cat ran"))
                  (display_cluster_data record_3000 false))
    by (vm_compute; right; right; left; reflexivity).
  split; [exact H1|]. split; [exact H2|].
  exact (@left_panel_plain [record_3000] 3000 _ (lit "a cat ran") H1 H2).
Defined.

Lemma steps_of_raise (data : list checkpoint_record) :
  Exists (fun d => checkpoint_step d = None) data ->
  steps_of data = Raise (lit "KeyError: 'checkpoint_step'").
Proof.
  induction 1 as [d data Hd|d data _ IH]; cbn [steps_of].
  - now rewrite Hd.
  - destruct (checkpoint_step d); [|reflexivity]. now rewrite IH.
Qed.

Lemma steps_of_ok (data : list checkpoint_record) :
  Forall (fun d => checkpoint_step d <> None) data ->
  exists steps,
    steps_of data = Ok steps
    /\ forall s, In s steps ->
         exists d, In d data /\ checkpoint_step d = Some s.
Proof.
  induction 1 as [|d data Hd _ (steps & Hs & Hin)].
  - exists []. split; [reflexivity|intros s []].
  - cbn [steps_of]. destruct (checkpoint_step d) as [s|] eqn:Es; [|congruence].
    exists (s :: steps). rewrite Hs. split; [reflexivity|].
    intros s' [<-|H'].
    + exists d. split; [now left|assumption].
    + destruct (Hin s' H') as (d' & Hd' & Hs'). exists d'.
      split; [now right|assumption].
Qed.

Lemma left_panel_shown (data : list checkpoint_record) (checkpoint : Z) :
  Forall (fun d => checkpoint_step d <> None) data ->
  left_panel data checkpoint = Ok (left_shown data checkpoint).
Proof.
  intros H. unfold left_panel, left_shown.
  rewrite (next_with_step_find checkpoint H). cbn [bind].
  destruct (find (has_step checkpoint) data) as [d|] eqn:Ef; [|reflexivity].
  apply find_some in Ef. destruct Ef as [Hin _].
  rewrite Forall_forall in H. now rewrite (record_truthy_step d (H d Hin)).
Qed.

Lemma right_panel_shown (data : list checkpoint_record) :
  Forall (fun d => checkpoint_step d <> None) data ->
  right_panel data = Ok (right_shown data).
Proof.
  intros H. unfold right_panel, right_shown.
  rewrite (next_with_step_find final_step H). cbn [bind].
  rewrite Forall_forall in H.
  destruct (find (has_step final_step) data) as [d|] eqn:Ef.
  - apply find_some in Ef. destruct Ef as [Hin _].
    now rewrite (record_truthy_step d (H d Hin)).
  - destruct data as [|d0 data']; [reflexivity|].
    destruct (@last_record_In (d0 :: data')) as (d & Hd & Hin);
      [discriminate|].
    rewrite Hd. now rewrite (record_truthy_step d (H d Hin)).
Qed.

Lemma find_first {A : Type} (f : A -> bool) (pre post : list A) (x : A) :
  Forall (fun y => f y = false) pre -> f x = true ->
  find f (pre ++ x :: post) = Some x.
Proof.
  induction 1 as [|y pre Hy _ IH]; intros Hx; cbn [app find].
  - now rewrite Hx.
  - rewrite Hy. now apply IH.
Qed.

(** X19.  [main] reads the step of every record before it draws a
    panel: a series with a record without a step raises a KeyError there
    and nothing is drawn.  Otherwise no lookup of the panels raises: the
    slider gets the steps in ascending order, the left panel shows the
    first record of the chosen step, whatever comes after it, the right
    panel shows the first record of the final step or else the last
    record.  When the slider returns one of its options, the left panel
    shows a record and not the error of a missing checkpoint. *)
Theorem main_view_steps_first (data : list checkpoint_record)
  (checkpoint : Z) :
  (Exists (fun d => checkpoint_step d = None) data ->
   main_view data checkpoint = Raise (lit "KeyError: 'checkpoint_step'"))
  /\ (Forall (fun d => checkpoint_step d <> None) data ->
      exists steps,
        steps_of data = Ok steps
        /\ main_view data checkpoint
           = Ok (sorted_keys steps,
                 left_shown data checkpoint ++ right_shown data)
        /\ (In checkpoint (sorted_keys steps) ->
            exists d,
              In d data /\ checkpoint_step d = Some checkpoint
              /\ left_shown data checkpoint = display_cluster_data d false))
  /\ (forall pre d post,
        data = pre ++ d :: post ->
        Forall (fun r => has_step checkpoint r = false) pre ->
        has_step checkpoint d = true ->
        left_shown data checkpoint = display_cluster_data d false).
Proof.
  split; [|split].
  - intros H. unfold main_view. now rewrite (steps_of_raise H).
  - intros H. destruct (steps_of_ok H) as (steps & Hs & Hin).
    exists steps. split; [exact Hs|]. split.
    + unfold main_view. rewrite Hs. cbn [bind].
      rewrite (left_panel_shown checkpoint H), (right_panel_shown H).
      reflexivity.
    + intros Hc.
      apply (Permutation_in _ (sorted_keys_perm steps)) in Hc.
      destruct (Hin _ Hc) as (d0 & Hd0 & Hs0).
      unfold left_shown.
      destruct (find (has_step checkpoint) data) as [d|] eqn:Ef.
      * exists d. apply find_some in Ef. destruct Ef as [Hd Hh].
        split; [exact Hd|]. split; [|reflexivity].
        unfold has_step in Hh. destruct (checkpoint_step d) as [s|];
          [|discriminate].
        apply Z.eqb_eq in Hh. now subst.
      * exfalso. pose proof (find_none _ _ Ef d0 Hd0) as Hn.
        unfold has_step in Hn. rewrite Hs0, Z.eqb_refl in Hn. discriminate.
  - intros pre d post -> Hpre Hd. unfold left_shown.
    now rewrite (@find_first _ (has_step checkpoint) pre post d Hpre Hd).
Qed.

Lemma main_view_steps_first_witness :
  Exists (fun d => checkpoint_step d = None)
         [record_3000; six_record; empty_record]
  /\ main_view [record_3000; six_record; empty_record] 143000
     = Raise (lit "KeyError: 'checkpoint_step'")
  /\ Forall (fun d => checkpoint_step d <> None) [record_3000; six_record]
  /\ exists steps,
       steps_of [record_3000; six_record] = Ok steps
       /\ main_view [record_3000; six_record] 3000
          = Ok (sorted_keys steps,
                left_shown [record_3000; six_record] 3000
                ++ right_shown [record_3000; six_record]).
Proof.
  assert (H1 : Exists (fun d => checkpoint_step d = None)
                      [record_3000; six_record; empty_record])
    by (right; right; left; reflexivity).
  assert (H2 : Forall (fun d => checkpoint_step d <> None)
                      [record_3000; six_record])
    by (repeat constructor; discriminate).
  split; [exact H1|].
  split;
    [exact (proj1 (@main_view_steps_first
                     [record_3000; six_record; empty_record] 143000) H1)|].
  split; [exact H2|].
  destruct (proj1 (proj2 (@main_view_steps_first
                            [record_3000; six_record] 3000)) H2)
    as (steps & Hs & Hm & _).
  exists steps. split; [exact Hs|exact Hm].
Defined.

(** ** Loader: what is listed *)

Lemma str_ltb_asym (a : str) : forall b,
  str_ltb a b = true -> str_ltb b a = false.
Proof.
  induction a as [|x a IH]; intros [|y b]; simpl; try congruence.
  intros H. apply orb_true_iff in H.
  destruct (N.ltb_spec (ord y) (ord x)); destruct (N.eqb_spec (ord y) (ord x));
    destruct (N.ltb_spec (ord x) (ord y)); destruct (N.eqb_spec (ord x) (ord y));
    simpl in *; try lia; try reflexivity;
    destruct H as [H|H]; try discriminate; now apply IH.
Qed.

Lemma str_le_trans (a : str) : forall b c,
  str_le a b -> str_le b c -> str_le a c.
Proof.
  unfold str_le. induction a as [|x a IH]; intros b c H1 H2.
  - destruct c; reflexivity.
  - destruct b as [|y b]; [discriminate|].
    destruct c as [|z c]; [discriminate|].
    simpl in *.
    apply orb_false_iff in H1. destruct H1 as [H1 H1'].
    apply orb_false_iff in H2. destruct H2 as [H2 H2'].
    apply N.ltb_ge in H1. apply N.ltb_ge in H2.
    apply orb_false_iff. split; [apply N.ltb_ge; lia|].
    destruct (N.eqb_spec (ord z) (ord x)) as [E|]; [|reflexivity].
    simpl. assert (Ey : ord y = ord x) by lia.
    assert (Ez : ord z = ord y) by lia.
    rewrite <- N.eqb_eq in Ey, Ez. rewrite Ey in H1'. rewrite Ez in H2'.
    simpl in *. now apply (IH b c).
Qed.

Lemma insert_str_perm (x : str) (l : list str) :
  Permutation (insert_str x l) (x :: l).
Proof.
  induction l as [|y l IH]; simpl; [reflexivity|].
  destruct (str_ltb y x); [|reflexivity].
  rewrite IH. apply perm_swap.
Qed.

Lemma sorted_strs_perm (l : list str) : Permutation (sorted_strs l) l.
Proof.
  induction l as [|x l IH]; simpl; [reflexivity|].
  rewrite insert_str_perm. now constructor.
Qed.

Lemma insert_str_sorted (x : str) (l : list str) :
  StronglySorted str_le l -> StronglySorted str_le (insert_str x l).
Proof.
  induction l as [|y l IH]; simpl; intros H.
  - constructor; constructor.
  - inversion H as [|? ? Hs Hall]; subst.
    destruct (str_ltb y x) eqn:E.
    + constructor; [now apply IH|].
      eapply Permutation_Forall; [symmetry; apply insert_str_perm|].
      constructor; [|assumption]. unfold str_le. now apply str_ltb_asym.
    + constructor; [assumption|].
      constructor; [exact E|].
      eapply Forall_impl; [|eassumption].
      intros z Hz. eapply str_le_trans; [exact E|exact Hz].
Qed.

Lemma sorted_strs_sorted (l : list str) : StronglySorted str_le (sorted_strs l).
Proof.
  induction l as [|x l IH]; simpl; [constructor|].
  now apply insert_str_sorted.
Qed.

Section LoaderInvariants.
Variable json_loads : str -> result checkpoint_record.
Variable model_name : str.

Lemma load_file_listed (st : load_state) (f : file) :
  listed_have_data st ->
  listed_have_data (load_file json_loads model_name st f).
Proof.
  intros [Hin Hnd]. unfold load_file.
  destruct (neuron_of_filename model_name (fst f)) as [id|]; [|now split].
  destruct (parse_lines json_loads (snd f)) as [data|e]; [|now split].
  split; simpl.
  - intros n. rewrite in_app_iff, (keys_set _ str_eqb_spec), Hin.
    simpl. intuition congruence.
  - now apply (NoDup_set _ str_eqb_spec).
Qed.

Lemma load_path_listed (fs : file_system) (st : load_state) (p : str) :
  listed_have_data st ->
  listed_have_data (load_path json_loads fs model_name st p).
Proof.
  intros H. unfold load_path.
  destruct (dict_get str_eqb fs p) as [files|]; [|assumption].
  apply fold_left_inv; [assumption|].
  intros a x _. apply load_file_listed.
Qed.

Lemma load_file_accounted (n : nat) (st : load_state) (f : file) :
  accounted n st ->
  accounted (n + (if is_series_file model_name f then 1 else 0))
            (load_file json_loads model_name st f).
Proof.
  intros [Hn Hall]. unfold load_file, is_series_file.
  destruct (neuron_of_filename model_name (fst f)) as [id|].
  - destruct (parse_lines json_loads (snd f)) as [data|e]; split; simpl;
      rewrite ?length_app; simpl; try lia; try assumption.
    apply Forall_app. split; [assumption|]. now constructor.
  - split; [lia|assumption].
Qed.

Lemma load_files_accounted (files : list file) : forall n st,
  accounted n st ->
  accounted (n + length (filter (is_series_file model_name) files))
            (fold_left (load_file json_loads model_name) files st).
Proof.
  induction files as [|f files IH]; intros n st H.
  - simpl. now rewrite Nat.add_0_r.
  - cbn [fold_left filter].
    pose proof (load_file_accounted f H) as H1.
    pose proof (IH _ _ H1) as H2.
    destruct (is_series_file model_name f); simpl length in *.
    + replace (n + S (length (filter (is_series_file model_name) files)))
        with (n + 1 + length (filter (is_series_file model_name) files))
        by lia. exact H2.
    + now rewrite Nat.add_0_r in H2.
Qed.
End LoaderInvariants.

Lemma load_neuron_data_listed_data
  (json_loads : str -> result checkpoint_record) (fs : file_system)
  (model_name : str) :
  listed_have_data (load_neuron_data json_loads fs model_name).
Proof.
  unfold load_neuron_data.
  destruct (search_paths model_name) as [paths|].
  - assert (H : listed_have_data
                  (fold_left (load_path json_loads fs model_name) paths
                     {| all_neuron_data := []; available_neurons := [];
                        shown := [] |})).
    { apply fold_left_inv.
      - split; [intros n; simpl; tauto | constructor].
      - intros a x _. apply load_path_listed. }
    destruct H as [Hin Hnd]. split; simpl; [|assumption].
    intros n. rewrite <- Hin. split; intros H.
    + eapply Permutation_in; [apply sorted_strs_perm|assumption].
    + eapply Permutation_in; [symmetry; apply sorted_strs_perm|assumption].
  - split; [intros n; simpl; tauto | constructor].
Qed.

(** X20.  After loading, the neurons listed are exactly the neurons that
    have data, so that every listed neuron can be looked up; no neuron has
    two entries of data; and the list is sorted in the order of strings,
    character by character, in which "L0N100" comes before "L0N20". *)
Theorem load_neuron_data_listed
  (json_loads : str -> result checkpoint_record) (fs : file_system)
  (model_name : str) :
  let st := load_neuron_data json_loads fs model_name in
  (forall n, In n (available_neurons st)
             <-> In n (keys (all_neuron_data st)))
  /\ NoDup (keys (all_neuron_data st))
  /\ StronglySorted str_le (available_neurons st)
  /\ str_ltb (lit "L0N100") (lit "L0N20") = true.
Proof.
  intros st.
  destruct (load_neuron_data_listed_data json_loads fs model_name)
    as [Hin Hnd].
  split; [exact Hin|]. split; [exact Hnd|]. split; [|reflexivity].
  unfold st, load_neuron_data.
  destruct (search_paths model_name); simpl;
    [apply sorted_strs_sorted | constructor].
Qed.

Lemma load_paths_accounted
  (json_loads : str -> result checkpoint_record) (fs : file_system)
  (model_name : str) (paths : list str) : forall n st,
  accounted n st ->
  accounted
    (n + length
           (flat_map
              (fun search_path =>
                 match dict_get str_eqb fs search_path with
                 | Some files => filter (is_series_file model_name) files
                 | None => []
                 end) paths))
    (fold_left (load_path json_loads fs model_name) paths st).
Proof.
  induction paths as [|p paths IH]; intros n st H.
  - simpl. now rewrite Nat.add_0_r.
  - cbn [fold_left flat_map]. rewrite length_app, Nat.add_assoc.
    apply IH. unfold load_path.
    destruct (dict_get str_eqb fs p) as [files|].
    + now apply load_files_accounted.
    + simpl. now rewrite Nat.add_0_r.
Qed.

(** X21.  Every series file of the model in the search paths is either
    listed as a neuron or reported with an error, and nothing else is
    shown: the neurons listed and the errors shown are together as many as
    the series files. *)
Theorem load_neuron_data_accounts
  (json_loads : str -> result checkpoint_record) (fs : file_system)
  (model_name : str) :
  let st := load_neuron_data json_loads fs model_name in
  length (available_neurons st) + length (shown st)
  = length (series_files fs model_name)
  /\ Forall (fun c => is_st_error c = true) (shown st).
Proof.
  intros st. unfold st, load_neuron_data, series_files.
  destruct (search_paths model_name) as [paths|].
  - destruct (@load_paths_accounted json_loads fs model_name paths 0
                {| all_neuron_data := []; available_neurons := [];
                   shown := [] |}) as [Hn Hall].
    { split; [reflexivity|constructor]. }
    simpl in *. split; [|assumption].
    rewrite (Permutation_length (sorted_strs_perm _)). exact Hn.
  - split; [reflexivity|constructor].
Qed.

(** ** Names of series files *)

Lemma replace_skip_all (old new s : str) :
  replace_from old new (length s) s = [].
Proof. induction s as [|c s IH]; [reflexivity|exact IH]. Qed.

Lemma starts_with_same (a b : str) : starts_with a (a ++ b) = true.
Proof. apply starts_with_spec. now exists b. Qed.

Lemma replace_suffix (id suffix : str) (u : ascii) (rest : str) :
  suffix = u :: rest ->
  forallb (fun c => negb (Ascii.eqb c u)) id = true ->
  replace (id ++ suffix) suffix [] = id.
Proof.
  intros -> Hid. unfold replace. induction id as [|c id IH].
  - cbn [app replace_from].
    rewrite <- (app_nil_r (u :: rest)) at 2. rewrite starts_with_same.
    cbn [length pred app]. apply replace_skip_all.
  - simpl in Hid. apply andb_prop in Hid. destruct Hid as [Hc Hid].
    cbn [app replace_from starts_with].
    rewrite Ascii.eqb_sym. apply negb_true_iff in Hc. rewrite Hc.
    cbn [andb]. now rewrite (IH Hid).
Qed.

Lemma endswith_app (id suffix : str) : endswith (id ++ suffix) suffix = true.
Proof. unfold endswith. rewrite rev_app_distr. apply starts_with_same. Qed.

Lemma neuron_of_series_name_eq (model_name neuron_id : str) :
  known_model model_name -> no_underscore neuron_id = true ->
  neuron_of_filename model_name (series_name model_name neuron_id)
  = Some neuron_id.
Proof.
  intros [-> | ->] Hid; unfold neuron_of_filename, series_name.
  - change (str_eqb (lit "Pythia-70M") (lit "Pythia-70M")) with true.
    cbn iota. rewrite endswith_app. cbn [andb].
    f_equal. eapply replace_suffix; [reflexivity|exact Hid].
  - change (str_eqb (lit "Pythia-160M") (lit "Pythia-70M")) with false.
    change (str_eqb (lit "Pythia-160M") (lit "Pythia-160M")) with true.
    cbn iota. cbn [andb]. rewrite endswith_app.
    f_equal. eapply replace_suffix; [reflexivity|exact Hid].
Qed.

(** X22.  The neuron of a series file is read back from its name: for
    the two models, the file named after a neuron whose name has no
    underscore is taken as a series file of that neuron. *)
Theorem neuron_of_series_name (model_name neuron_id : str) :
  known_model model_name -> no_underscore neuron_id = true ->
  neuron_of_filename model_name (series_name model_name neuron_id)
  = Some neuron_id.
Proof. apply neuron_of_series_name_eq. Qed.

Lemma neuron_of_series_name_witness :
  known_model (lit "Pythia-160M") /\ no_underscore (lit "L11N3060") = true
  /\ neuron_of_filename (lit "Pythia-160M")
       (series_name (lit "Pythia-160M") (lit "L11N3060"))
     = Some (lit "L11N3060").
Proof.
  assert (H1 : known_model (lit "Pythia-160M")) by (right; reflexivity).
  assert (H2 : no_underscore (lit "L11N3060") = true)
    by (vm_compute; reflexivity).
  split; [exact H1|]. split; [exact H2|].
  exact (@neuron_of_series_name (lit "Pythia-160M") (lit "L11N3060") H1 H2).
Defined.

(** ** The neuron chosen on the page *)

Lemma uint_no_underscore (d : Decimal.uint) :
  no_underscore (list_ascii_of_string (NilEmpty.string_of_uint d)) = true.
Proof. induction d; simpl; auto. Qed.

Lemma decimal_of_int_no_underscore (n : Z) : no_underscore (decimal_of_int n) = true.
Proof.
  unfold decimal_of_int, NilZero.string_of_int, NilZero.string_of_uint.
  destruct (Z.to_int n) as [d|d]; destruct d;
    try reflexivity; simpl; auto using uint_no_underscore.
Qed.

Lemma current_neuron_no_underscore (layer neuron : Z) :
  no_underscore (current_neuron layer neuron) = true.
Proof.
  unfold current_neuron, no_underscore.
  rewrite !forallb_app. fold (no_underscore (decimal_of_int layer)).
  fold (no_underscore (decimal_of_int neuron)).
  now rewrite !decimal_of_int_no_underscore.
Qed.

Section LoaderFinds.
Variable json_loads : str -> result checkpoint_record.
Variable model_name : str.

Lemma load_file_keeps (st : load_state) (f : file) (id : str) :
  In id (keys (all_neuron_data st)) ->
  In id (keys (all_neuron_data (load_file json_loads model_name st f))).
Proof.
  intros H. unfold load_file.
  destruct (neuron_of_filename model_name (fst f)); [|assumption].
  destruct (parse_lines json_loads (snd f)); simpl; [|assumption].
  apply (keys_set _ str_eqb_spec). now right.
Qed.

Lemma load_files_keep (files : list file) (id : str) : forall st,
  In id (keys (all_neuron_data st)) ->
  In id (keys (all_neuron_data
                 (fold_left (load_file json_loads model_name) files st))).
Proof.
  induction files as [|f files IH]; intros st H; [assumption|].
  simpl. apply IH. now apply load_file_keeps.
Qed.

Lemma load_path_keeps (fs : file_system) (p id : str) (st : load_state) :
  In id (keys (all_neuron_data st)) ->
  In id (keys (all_neuron_data (load_path json_loads fs model_name st p))).
Proof.
  intros H. unfold load_path.
  destruct (dict_get str_eqb fs p); [|assumption].
  now apply load_files_keep.
Qed.

Lemma load_files_find (files : list file) (name id : str)
  (lines : list str) (st : load_state) :
  In (name, lines) files ->
  neuron_of_filename model_name name = Some id ->
  (forall line, In line lines -> exists d, json_loads (strip line) = Ok d) ->
  In id (keys (all_neuron_data
                 (fold_left (load_file json_loads model_name) files st))).
Proof.
  intros Hin Hn Hok. apply in_split in Hin.
  destruct Hin as (f1 & f2 & ->).
  rewrite fold_left_app. cbn [fold_left]. apply load_files_keep.
  match goal with
  | |- context [load_file _ _ ?s (name, lines)] => set (st1 := s)
  end.
  destruct (@load_file_ok json_loads model_name st1 (name, lines) id Hn Hok)
    as (data & _ & ->).
  simpl. apply (keys_set _ str_eqb_spec). now left.
Qed.

Lemma load_paths_find (fs : file_system) (paths : list str)
  (path name id : str) (files : list file) (lines : list str) :
  In path paths -> dict_get str_eqb fs path = Some files ->
  In (name, lines) files ->
  neuron_of_filename model_name name = Some id ->
  (forall line, In line lines -> exists d, json_loads (strip line) = Ok d) ->
  forall st,
  In id (keys (all_neuron_data
                 (fold_left (load_path json_loads fs model_name) paths st))).
Proof.
  intros Hp Hfs Hin Hn Hok.
  induction paths as [|p paths IH]; intros st; [destruct Hp|].
  cbn [fold_left]. destruct Hp as [->|Hp]; [|now apply IH].
  apply fold_left_inv.
  - unfold load_path. rewrite Hfs. eapply load_files_find; eassumption.
  - intros a x _. apply load_path_keeps.
Qed.
End LoaderFinds.

(** X23.  A series file named after a layer and a neuron index, in one
    of the search paths of its model and with lines that all parse, is
    found by the page: after loading, the neuron ["L<layer>N<neuron>"] is
    listed and the lookup of its series succeeds. *)
Theorem lookup_neuron_finds
  (json_loads : str -> result checkpoint_record) (fs : file_system)
  (model_name path : str) (paths : list str) (files : list file)
  (lines : list str) (layer neuron : Z) :
  known_model model_name ->
  search_paths model_name = Some paths -> In path paths ->
  dict_get str_eqb fs path = Some files ->
  In (series_name model_name (current_neuron layer neuron), lines) files ->
  (forall line, In line lines -> exists d, json_loads (strip line) = Ok d) ->
  let st := load_neuron_data json_loads fs model_name in
  In (current_neuron layer neuron) (available_neurons st)
  /\ exists data, lookup_neuron st layer neuron = Some data.
Proof.
  intros Hm Hsp Hp Hfs Hin Hok st.
  assert (Hkey : In (current_neuron layer neuron)
                    (keys (all_neuron_data st))).
  { unfold st, load_neuron_data. rewrite Hsp. simpl.
    eapply load_paths_find; try eassumption.
    apply neuron_of_series_name_eq; [assumption|].
    apply current_neuron_no_underscore. }
  split.
  - now apply load_neuron_data_listed_data.
  - unfold lookup_neuron.
    destruct (dict_get str_eqb (all_neuron_data st)
                       (current_neuron layer neuron)) as [data|] eqn:E;
      [now exists data|].
    apply (dict_get_None _ str_eqb_spec) in E. contradiction.
Qed.

Lemma lookup_neuron_finds_witness :
  known_model (lit "Pythia-70M")
  /\ In (series_name (lit "Pythia-70M") (current_neuron 0 0), [lit "{}"])
        [(lit "L0N0_pythia70m_ckpt_series.jsonl", [lit "{}"])]
  /\ exists data,
       lookup_neuron
         (load_neuron_data json_loads_sample fields_missing_fs
                           (lit "Pythia-70M")) 0 0
       = Some data.
Proof.
  assert (H1 : known_model (lit "Pythia-70M")) by (left; reflexivity).
  assert (H2 : In (series_name (lit "Pythia-70M") (current_neuron 0 0),
                   [lit "{}"])
                  [(lit "L0N0_pythia70m_ckpt_series.jsonl", [lit "{}"])])
    by (left; reflexivity).
  split; [exact H1|]. split; [exact H2|].
  refine (proj2 (@lookup_neuron_finds json_loads_sample fields_missing_fs
                   (lit "Pythia-70M") (lit "results")
                   [lit "results"; lit "results/pythia70m"]
                   [(lit "L0N0_pythia70m_ckpt_series.jsonl", [lit "{}"])]
                   [lit "{}"] 0 0 H1 eq_refl _ eq_refl H2 _)).
  - left; reflexivity.
  - intros line [<-|[]]. exists empty_record. reflexivity.
Defined.

(** ** The static export: integers and sort keys *)

Lemma uint_chars (d : Decimal.uint) :
  forallb is_digit (list_ascii_of_string (NilEmpty.string_of_uint d)) = true.
Proof. induction d; simpl; auto. Qed.

Lemma uint_nonempty (d : Decimal.uint) :
  d <> Decimal.Nil ->
  list_ascii_of_string (NilEmpty.string_of_uint d) <> [].
Proof. destruct d; simpl; congruence. Qed.

Lemma digits_ok_digits (l : str) (b : bool) :
  forallb is_digit l = true -> l <> [] -> digits_ok b l = true.
Proof.
  revert b. induction l as [|c l IH]; intros b H Hne; [congruence|].
  simpl in *. apply andb_prop in H. destruct H as [Hc Hl]. rewrite Hc.
  destruct l as [|c2 l]; [reflexivity|]. apply IH; [assumption|discriminate].
Qed.

Lemma drop_while_none (p : ascii -> bool) (s : str) :
  forallb (fun c => negb (p c)) s = true -> drop_while p s = s.
Proof.
  destruct s as [|c s]; simpl; [reflexivity|].
  intros H. apply andb_prop in H. destruct H as [Hc _].
  apply negb_true_iff in Hc. now rewrite Hc.
Qed.

Lemma strip_none (p : ascii -> bool) (s : str) :
  forallb (fun c => negb (p c)) s = true ->
  rev (drop_while p (rev (drop_while p s))) = s.
Proof.
  intros H. rewrite (drop_while_none _ _ H), drop_while_none.
  - apply rev_involutive.
  - apply forallb_forall. intros c Hc. apply in_rev in Hc.
    rewrite forallb_forall in H. now apply H.
Qed.

Lemma digit_facts (c : ascii) :
  is_digit c = true ->
  is_int_space c = false /\ Ascii.eqb c "-" = false
  /\ Ascii.eqb c "+" = false /\ Ascii.eqb c "N" = false
  /\ Ascii.eqb c "_" = false.
Proof.
  destruct c as [[] [] [] [] [] [] [] []]; vm_compute; intros H;
    try discriminate; repeat split.
Qed.

Lemma int_of_digits (d : Decimal.uint) :
  d <> Decimal.Nil ->
  (len (list_ascii_of_string (NilEmpty.string_of_uint d))
   <= int_max_str_digits)%Z ->
  int_of_str (list_ascii_of_string (NilEmpty.string_of_uint d))
  = Ok (Z.of_uint d)
  /\ int_of_str ("-"%char
                 :: list_ascii_of_string (NilEmpty.string_of_uint d))
     = Ok (- Z.of_uint d)%Z.
Proof.
  intros Hd.
  set (l := list_ascii_of_string (NilEmpty.string_of_uint d)).
  intros Hlen.
  pose proof (uint_chars d) as Hl. fold l in Hl.
  pose proof (uint_nonempty Hd) as Hne. fold l in Hne.
  assert (Hsp : forallb (fun c => negb (is_int_space c)) l = true).
  { apply forallb_forall. intros c Hc. rewrite forallb_forall in Hl.
    destruct (digit_facts c (Hl c Hc)) as [-> _]. reflexivity. }
  assert (Hparse : NilEmpty.uint_of_string
                     (string_of_list_ascii (filter is_digit l)) = Some d).
  { rewrite (filter_all _ _ Hl). unfold l.
    rewrite string_of_list_ascii_of_string. apply NilEmpty.usu. }
  assert (Hlim : (int_max_str_digits <? len (filter is_digit l))%Z = false).
  { rewrite (filter_all _ _ Hl). apply Z.ltb_ge. exact Hlen. }
  assert (Hsign : match l with
                  | c :: r =>
                      if Ascii.eqb c "-" then (true, r)
                      else if Ascii.eqb c "+" then (false, r)
                      else (false, l)
                  | [] => (false, l)
                  end = (false, l)).
  { destruct l as [|c r]; [reflexivity|].
    assert (Hc : is_digit c = true)
      by (simpl in Hl; now apply andb_prop in Hl).
    destruct (digit_facts c Hc) as (_ & -> & -> & _). reflexivity. }
  split.
  - unfold int_of_str. rewrite (strip_none _ _ Hsp), Hsign.
    cbn iota beta.
    rewrite (digits_ok_digits false Hl Hne), Hlim, Hparse. reflexivity.
  - unfold int_of_str.
    rewrite (@strip_none is_int_space ("-"%char :: l))
      by (simpl; now rewrite Hsp).
    change (Ascii.eqb "-" "-") with true. cbn iota beta.
    rewrite (digits_ok_digits false Hl Hne), Hlim, Hparse. reflexivity.
Qed.

Lemma decimal_of_int_chars (n : Z) :
  forallb is_int_char (decimal_of_int n) = true.
Proof.
  unfold decimal_of_int, NilZero.string_of_int, NilZero.string_of_uint.
  assert (H : forall d,
            forallb is_int_char
              (list_ascii_of_string (NilEmpty.string_of_uint d)) = true).
  { intros d. pose proof (uint_chars d) as Hd.
    rewrite forallb_forall in *. intros c Hc. unfold is_int_char.
    now rewrite (Hd c Hc). }
  destruct (Z.to_int n) as [d|d]; destruct d; try reflexivity;
    simpl; rewrite ?H; reflexivity.
Qed.

Lemma int_of_decimal_of_int_eq (n : Z) :
  (num_digits n <= int_max_str_digits)%Z ->
  int_of_str (decimal_of_int n) = Ok n.
Proof.
  unfold num_digits, decimal_of_int. rewrite <- (DecimalZ.of_to n) at 3.
  assert (Hnn : match Z.to_int n with
                | Decimal.Pos d | Decimal.Neg d => d <> Decimal.Nil
                end).
  { destruct n; simpl; try apply Unsigned.to_uint_nonnil. discriminate. }
  destruct (Z.to_int n) as [d|d]; unfold NilZero.string_of_int, Z.of_int.
  - replace (NilZero.string_of_uint d) with (NilEmpty.string_of_uint d)
      by (destruct d; [congruence|reflexivity..]).
    rewrite (filter_all _ _ (uint_chars d)).
    intros Hlen. apply (int_of_digits Hnn Hlen).
  - replace (NilZero.string_of_uint d) with (NilEmpty.string_of_uint d)
      by (destruct d; [congruence|reflexivity..]).
    cbn [list_ascii_of_string].
    change (filter is_digit ("-"%char :: ?l)) with (filter is_digit l).
    rewrite (filter_all _ _ (uint_chars d)).
    intros Hlen. apply (int_of_digits Hnn Hlen).
Qed.

Lemma str_of_int_within (n : Z) :
  (num_digits n <= int_max_str_digits)%Z ->
  str_of_int n = Ok (decimal_of_int n).
Proof.
  intros H. unfold str_of_int.
  apply Z.ltb_ge in H. now rewrite H.
Qed.

Lemma split_no_sep (sep : ascii) (s : str) :
  forallb (fun c => negb (Ascii.eqb c sep)) s = true ->
  split_char sep s = [s].
Proof.
  induction s as [|c s IH]; [reflexivity|].
  simpl. intros H. apply andb_prop in H. destruct H as [Hc Hs].
  rewrite (IH Hs). apply negb_true_iff in Hc. now rewrite Hc.
Qed.

Lemma split_char_nonempty (sep : ascii) (s : str) : split_char sep s <> [].
Proof.
  induction s as [|c s IH]; simpl; [discriminate|].
  destruct (split_char sep s); [congruence|].
  destruct (Ascii.eqb c sep); discriminate.
Qed.

Lemma split_app_sep (sep : ascii) (a b : str) :
  forallb (fun c => negb (Ascii.eqb c sep)) a = true ->
  split_char sep (a ++ sep :: b) = a :: split_char sep b.
Proof.
  induction a as [|c a IH]; intros H.
  - simpl. pose proof (split_char_nonempty sep b) as Hb.
    destruct (split_char sep b); [congruence|]. now rewrite Ascii.eqb_refl.
  - simpl in H. apply andb_prop in H. destruct H as [Hc Ha].
    cbn [app split_char]. rewrite (IH Ha).
    apply negb_true_iff in Hc. now rewrite Hc.
Qed.

(** X24.  The sort key of a name reads two parts of it and nothing else:
    the layer is the integer written between the first character and the
    first N, the index is the integer written between the first N and the
    second N, or the end.  The first character, whatever it is, and what
    follows a second N have no part in the key, so two names that differ
    can have the same key. *)
Theorem neuron_key_parts (c : ascii) (a b rest : str) :
  Ascii.eqb c "N" = false -> no_char "N" a = true -> no_char "N" b = true ->
  let key :=
    bind (int_of_str a) (fun layer =>
    bind (int_of_str b) (fun index => Ok (layer, index))) in
  neuron_key (c :: a ++ lit "N" ++ b) = key
  /\ neuron_key (c :: a ++ lit "N" ++ b ++ lit "N" ++ rest) = key
  /\ neuron_key (lit "L1N2") = Ok (1, 2)%Z
  /\ neuron_key (lit "x01N+2N9") = Ok (1, 2)%Z
  /\ neuron_key (lit "N5") = Raise (lit "ValueError").
Proof.
  intros Hc Ha Hb key.
  assert (Hca : forallb (fun x => negb (Ascii.eqb x "N")) (c :: a) = true).
  { cbn [forallb]. rewrite Hc. exact Ha. }
  split; [|split; [|repeat split; vm_compute; reflexivity]].
  - unfold neuron_key.
    change (c :: a ++ lit "N" ++ b) with ((c :: a) ++ "N"%char :: b).
    rewrite (split_app_sep _ _ b Hca), (split_no_sep _ _ Hb).
    cbn [hd tl nth_error]. unfold key.
    destruct (int_of_str a); reflexivity.
  - unfold neuron_key.
    change (c :: a ++ lit "N" ++ b ++ lit "N" ++ rest)
      with ((c :: a) ++ "N"%char :: (b ++ "N"%char :: rest)).
    rewrite (split_app_sep _ _ _ Hca), (split_app_sep _ _ rest Hb).
    cbn [hd tl nth_error]. unfold key.
    destruct (int_of_str a); reflexivity.
Qed.

Lemma neuron_key_parts_witness :
  Ascii.eqb "L" "N" = false /\ no_char "N" (lit "1") = true
  /\ no_char "N" (lit "2") = true
  /\ neuron_key ("L"%char :: lit "1" ++ lit "N" ++ lit "2" ++ lit "N"
                 ++ lit "3")
     = bind (int_of_str (lit "1")) (fun layer =>
       bind (int_of_str (lit "2")) (fun index => Ok (layer, index))).
Proof.
  split; [reflexivity|]. split; [reflexivity|]. split; [reflexivity|].
  exact (proj1 (proj2 (@neuron_key_parts "L"%char (lit "1") (lit "2")
                         (lit "3") eq_refl eq_refl eq_refl))).
Defined.

Lemma int_char_not_N (c : ascii) :
  is_int_char c = true -> negb (Ascii.eqb c "N") = true.
Proof.
  destruct c as [[] [] [] [] [] [] [] []]; vm_compute; intros H;
    try discriminate; reflexivity.
Qed.

Lemma decimal_of_int_no_N (n : Z) :
  forallb (fun c => negb (Ascii.eqb c "N")) (decimal_of_int n) = true.
Proof.
  pose proof (decimal_of_int_chars n) as H. rewrite forallb_forall in *.
  intros c Hc. apply int_char_not_N. now apply H.
Qed.

(** X25.  For a layer and a neuron index of at most 4300 digits each, the
    name ["L<layer>N<neuron>"] is written without an exception and its sort
    key is the pair of the layer and the neuron index. *)
Theorem neuron_key_current_neuron (layer neuron : Z) :
  (num_digits layer <= int_max_str_digits)%Z ->
  (num_digits neuron <= int_max_str_digits)%Z ->
  neuron_name layer neuron = Ok (current_neuron layer neuron)
  /\ neuron_key (current_neuron layer neuron) = Ok (layer, neuron).
Proof.
  intros Hl Hn. split.
  - unfold neuron_name.
    rewrite (str_of_int_within _ Hl), (str_of_int_within _ Hn). reflexivity.
  - unfold neuron_key, current_neuron.
    change (lit "L" ++ decimal_of_int layer ++ lit "N" ++ decimal_of_int neuron)
      with (("L"%char :: decimal_of_int layer)
            ++ "N"%char :: decimal_of_int neuron).
    rewrite split_app_sep
      by (simpl; now rewrite decimal_of_int_no_N).
    rewrite (split_no_sep _ _ (decimal_of_int_no_N neuron)).
    cbn [hd tl nth_error].
    rewrite (int_of_decimal_of_int_eq _ Hl), (int_of_decimal_of_int_eq _ Hn).
    reflexivity.
Qed.

Lemma neuron_key_current_neuron_witness :
  (num_digits 11 <= int_max_str_digits)%Z
  /\ (num_digits 3060 <= int_max_str_digits)%Z
  /\ neuron_key (current_neuron 11 3060) = Ok (11, 3060)%Z.
Proof.
  assert (H1 : (num_digits 11 <= int_max_str_digits)%Z)
    by (vm_compute; discriminate).
  assert (H2 : (num_digits 3060 <= int_max_str_digits)%Z)
    by (vm_compute; discriminate).
  split; [exact H1|]. split; [exact H2|].
  exact (proj2 (@neuron_key_current_neuron 11 3060 H1 H2)).
Defined.

(** ** The static export: the list of neurons *)

Lemma key_ltb_asym (a b : Z * Z) : key_ltb a b = true -> key_le a b.
Proof.
  unfold key_le, key_ltb. destruct a as [a1 a2], b as [b1 b2]. simpl.
  intros H.
  destruct (Z.ltb_spec a1 b1); destruct (Z.eqb_spec a1 b1);
    destruct (Z.ltb_spec a2 b2); destruct (Z.ltb_spec b1 a1);
    destruct (Z.eqb_spec b1 a1); destruct (Z.ltb_spec b2 a2);
    simpl in *; try lia; try reflexivity; discriminate.
Qed.

Lemma key_le_trans (a b c : Z * Z) : key_le a b -> key_le b c -> key_le a c.
Proof.
  unfold key_le, key_ltb.
  destruct a as [a1 a2], b as [b1 b2], c as [c1 c2]. simpl.
  intros H1 H2.
  destruct (Z.ltb_spec b1 a1); destruct (Z.eqb_spec b1 a1);
    destruct (Z.ltb_spec b2 a2); destruct (Z.ltb_spec c1 b1);
    destruct (Z.eqb_spec c1 b1); destruct (Z.ltb_spec c2 b2);
    destruct (Z.ltb_spec c1 a1); destruct (Z.eqb_spec c1 a1);
    destruct (Z.ltb_spec c2 a2);
    simpl in *; try lia; try reflexivity; discriminate.
Qed.

Lemma insert_keyed_perm (x : (Z * Z) * str) (l : list ((Z * Z) * str)) :
  Permutation (insert_keyed x l) (x :: l).
Proof.
  induction l as [|y l IH]; simpl; [reflexivity|].
  destruct (key_ltb (fst y) (fst x)); [|reflexivity].
  rewrite IH. apply perm_swap.
Qed.

Lemma insert_keyed_sorted (x : (Z * Z) * str) (l : list ((Z * Z) * str)) :
  StronglySorted (fun a b => key_le (fst a) (fst b)) l ->
  StronglySorted (fun a b => key_le (fst a) (fst b)) (insert_keyed x l).
Proof.
  induction l as [|y l IH]; simpl; intros H.
  - constructor; constructor.
  - inversion H as [|? ? Hs Hall]; subst.
    destruct (key_ltb (fst y) (fst x)) eqn:E.
    + constructor; [now apply IH|].
      eapply Permutation_Forall; [symmetry; apply insert_keyed_perm|].
      constructor; [|assumption]. now apply key_ltb_asym.
    + constructor; [assumption|].
      constructor; [exact E|].
      eapply Forall_impl; [|eassumption].
      intros z Hz. eapply key_le_trans; [exact E|exact Hz].
Qed.

Lemma with_keys_ok (names : list str) : forall keyed,
  with_keys names = Ok keyed ->
  map snd keyed = names
  /\ Forall (fun kx => neuron_key (snd kx) = Ok (fst kx)) keyed.
Proof.
  induction names as [|x names IH]; intros keyed H.
  - injection H as <-. split; [reflexivity|constructor].
  - simpl in H. destruct (neuron_key x) as [k|e] eqn:Ek; [|discriminate].
    simpl in H. destruct (with_keys names) as [rest|e]; [|discriminate].
    injection H as <-. destruct (IH rest eq_refl) as [Hm Hf].
    split; [simpl; now rewrite Hm | constructor; assumption].
Qed.

Lemma with_keys_raise (names : list str) (name e : str) :
  In name names -> neuron_key name = Raise e ->
  exists e', with_keys names = Raise e'.
Proof.
  induction names as [|x names IH]; intros Hin Hk; [destruct Hin|].
  simpl. destruct (neuron_key x) as [k|e0] eqn:Ek; [|now exists e0].
  destruct Hin as [->|Hin]; [congruence|].
  destruct (IH Hin Hk) as [e' He']. exists e'. simpl. now rewrite He'.
Qed.

Lemma sorted_by_key_spec (names sorted : list str) :
  sorted_by_key names = Ok sorted ->
  Permutation sorted names /\ StronglySorted name_le sorted.
Proof.
  unfold sorted_by_key. intros H.
  destruct (with_keys names) as [keyed|e] eqn:Ek; [|discriminate].
  injection H as <-. destruct (with_keys_ok _ Ek) as [Hm Hf].
  set (s := fold_right insert_keyed [] keyed).
  assert (Hp : Permutation s keyed).
  { unfold s. clear. induction keyed as [|x l IH]; simpl; [reflexivity|].
    rewrite insert_keyed_perm. now constructor. }
  assert (Hs : StronglySorted (fun a b => key_le (fst a) (fst b)) s).
  { unfold s. clear. induction keyed as [|x l IH]; simpl; [constructor|].
    now apply insert_keyed_sorted. }
  split.
  - rewrite <- Hm. now apply Permutation_map.
  - assert (Hfs : Forall (fun kx => neuron_key (snd kx) = Ok (fst kx)) s).
    { eapply Permutation_Forall; [symmetry; exact Hp|exact Hf]. }
    clear -Hs Hfs. induction Hs as [|a l Hsl IH Hall]; [constructor|].
    inversion Hfs as [|? ? Ha Hl]; subst. simpl. constructor; [now apply IH|].
    rewrite Forall_map. rewrite Forall_forall in *.
    intros b Hb. exists (fst a), (fst b). auto.
Qed.

(** X26.  When [get_available_neurons] returns, its list holds the
    neurons of the series files of the two directories, rearranged so that
    their keys, layer first and then neuron index, never decrease; as
    numbers, so that "L0N20" comes before "L0N100". *)
Theorem get_available_neurons_sorted (fs : file_system) (model : str)
  (neurons : list str) :
  get_available_neurons fs model = Ok neurons ->
  Permutation neurons (collected_names fs model)
  /\ StronglySorted name_le neurons
  /\ sorted_by_key [lit "L0N100"; lit "L0N20"]
     = Ok [lit "L0N20"; lit "L0N100"].
Proof.
  intros H. destruct (sorted_by_key_spec _ H) as [Hp Hs].
  split; [exact Hp|]. split; [exact Hs|]. vm_compute. reflexivity.
Qed.

(** X27.  One series file whose neuron name has no valid key stops the
    export: [get_available_neurons] raises, and with it the collection of
    the data, whatever the other files are. *)
Theorem get_available_neurons_raises
  (json_loads : str -> result checkpoint_record) (fs : file_system)
  (name e : str) :
  In name (collected_names fs (lit "pythia70m")) ->
  neuron_key name = Raise e ->
  (exists e', get_available_neurons fs (lit "pythia70m") = Raise e')
  /\ (exists e', collect_export json_loads fs = Raise e')
  /\ neuron_key (lit "notes") = Raise (lit "ValueError")
  /\ neuron_key (lit "L5") = Raise (lit "IndexError").
Proof.
  intros Hin Hk.
  assert (H : exists e', get_available_neurons fs (lit "pythia70m")
                         = Raise e').
  { unfold get_available_neurons, sorted_by_key.
    destruct (@with_keys_raise _ name e Hin Hk) as [e' He'].
    exists e'. fold (collected_names fs (lit "pythia70m")).
    now rewrite He'. }
  split; [exact H|]. split; [|split; vm_compute; reflexivity].
  destruct H as [e' He']. exists e'. unfold collect_export. now rewrite He'.
Qed.

Lemma get_available_neurons_sorted_witness :
  get_available_neurons
    [(lit "results",
      [(lit "L0N100_pythia70m_ckpt_series.jsonl", [lit "{}"]);
       (lit "L0N20_pythia70m_ckpt_series.jsonl", [lit "{}"])])]
    (lit "pythia70m")
  = Ok [lit "L0N20"; lit "L0N100"]
  /\ StronglySorted name_le [lit "L0N20"; lit "L0N100"].
Proof.
  assert (H : get_available_neurons
                [(lit "results",
                  [(lit "L0N100_pythia70m_ckpt_series.jsonl", [lit "{}"]);
                   (lit "L0N20_pythia70m_ckpt_series.jsonl", [lit "{}"])])]
                (lit "pythia70m")
              = Ok [lit "L0N20"; lit "L0N100"])
    by (vm_compute; reflexivity).
  split; [exact H|].
  exact (proj1 (proj2 (get_available_neurons_sorted _ _ H))).
Defined.

Lemma get_available_neurons_raises_witness :
  In (lit "notes")
     (collected_names
        [(lit "results",
          [(lit "L0N0_pythia70m_ckpt_series.jsonl", [lit "{}"]);
           (lit "notes_pythia70m_ckpt_series.jsonl", [])])]
        (lit "pythia70m"))
  /\ neuron_key (lit "notes") = Raise (lit "ValueError")
  /\ exists e',
       collect_export json_loads_sample
         [(lit "results",
           [(lit "L0N0_pythia70m_ckpt_series.jsonl", [lit "{}"]);
            (lit "notes_pythia70m_ckpt_series.jsonl", [])])]
       = Raise e'.
Proof.
  assert (H1 : In (lit "notes")
                  (collected_names
                     [(lit "results",
                       [(lit "L0N0_pythia70m_ckpt_series.jsonl", [lit "{}"]);
                        (lit "notes_pythia70m_ckpt_series.jsonl", [])])]
                     (lit "pythia70m")))
    by (vm_compute; right; left; reflexivity).
  assert (H2 : neuron_key (lit "notes") = Raise (lit "ValueError"))
    by (vm_compute; reflexivity).
  split; [exact H1|]. split; [exact H2|].
  exact (proj1 (proj2 (@get_available_neurons_raises json_loads_sample _ _ _
                         H1 H2))).
Defined.

(** ** The static export: the data collected *)

Section ExporterFacts.
Variable json_loads : str -> result checkpoint_record.
Variable fs : file_system.

Lemma load_all_spec (neurons : list str) : forall all0 all,
  load_all json_loads fs neurons all0 = Ok all ->
  (forall n, In n neurons ->
     exists data,
       snd (load_checkpoint_data json_loads fs n (lit "pythia70m")) = Ok data
       /\ dict_get str_eqb all n
          = match data with
            | [] => dict_get str_eqb all0 n
            | _ => Some data
            end)
  /\ (forall n, ~ In n neurons ->
        dict_get str_eqb all n = dict_get str_eqb all0 n).
Proof.
  induction neurons as [|x neurons IH]; intros all0 all H.
  - injection H as <-. split; [intros n []|reflexivity].
  - cbn [load_all] in H.
    destruct (snd (load_checkpoint_data json_loads fs x (lit "pythia70m")))
      as [dx|e] eqn:Ex; [|discriminate].
    cbn [bind] in H. destruct (IH _ _ H) as [Hin Hout].
    assert (Hother : forall n, n <> x ->
              dict_get str_eqb
                (match dx with
                 | [] => all0
                 | _ => dict_set str_eqb all0 x dx
                 end) n = dict_get str_eqb all0 n).
    { intros n Hn. destruct dx; [reflexivity|].
      rewrite (dict_get_set _ str_eqb_spec).
      rewrite (eqb_diff _ str_eqb_spec); [reflexivity|congruence]. }
    assert (Hx : dict_get str_eqb
                   (match dx with
                    | [] => all0
                    | _ => dict_set str_eqb all0 x dx
                    end) x
                 = match dx with
                   | [] => dict_get str_eqb all0 x
                   | _ => Some dx
                   end).
    { destruct dx; [reflexivity|].
      now rewrite (dict_get_set _ str_eqb_spec), (eqb_same _ str_eqb_spec). }
    split.
    + intros n Hn.
      destruct (list_eq_dec ascii_dec n x) as [->|Hne].
      * exists dx. split; [assumption|].
        destruct (in_dec (list_eq_dec ascii_dec) x neurons) as [Hxin|Hxout].
        -- destruct (Hin x Hxin) as (d' & Hd' & Hg).
           rewrite Ex in Hd'. injection Hd' as <-.
           rewrite Hg, Hx. destruct dx; reflexivity.
        -- now rewrite (Hout x Hxout), Hx.
      * destruct Hn as [Hn|Hn]; [congruence|].
        destruct (Hin n Hn) as (d' & Hd' & Hg).
        exists d'. split; [assumption|].
        rewrite Hg, (Hother n Hne). reflexivity.
    + intros n Hn.
      assert (n <> x) by (intros ->; apply Hn; now left).
      rewrite Hout by (intros Hc; apply Hn; now right).
      now apply Hother.
Qed.
End ExporterFacts.

(** X28.  When the export collects its data, every listed neuron was
    loaded without an exception, the data kept for a neuron is what its
    file gives, a neuron whose series is empty has no entry, and nothing
    else has an entry.  So the data is not collected when the file of a
    listed neuron does not parse. *)
Theorem collect_export_data
  (json_loads : str -> result checkpoint_record) (fs : file_system)
  (steps : list Z) (all : dict str (list checkpoint_record)) :
  collect_export json_loads fs = Ok (Collected steps all) ->
  exists neurons,
    get_available_neurons fs (lit "pythia70m") = Ok neurons
    /\ (forall n, In n neurons ->
          exists data,
            snd (load_checkpoint_data json_loads fs n (lit "pythia70m"))
            = Ok data
            /\ dict_get str_eqb all n
               = match data with [] => None | _ => Some data end)
    /\ (forall n, ~ In n neurons -> dict_get str_eqb all n = None).
Proof.
  unfold collect_export. intros H.
  destruct (get_available_neurons fs (lit "pythia70m")) as [neurons|e];
    [|discriminate].
  exists neurons. split; [reflexivity|].
  cbn [bind] in H. destruct neurons as [|first rest]; [discriminate|].
  destruct (snd (load_checkpoint_data json_loads fs first (lit "pythia70m")))
    as [sample|e]; [|discriminate].
  cbn [bind] in H. destruct sample as [|s0 sample]; [discriminate|].
  destruct (steps_of (s0 :: sample)) as [st|e]; [|discriminate].
  cbn [bind] in H.
  destruct (load_all json_loads fs (first :: rest) []) as [a|e] eqn:El;
    [|discriminate].
  injection H as _ <-.
  destruct (load_all_spec _ _ _ _ El) as [Hin Hout].
  split; [|exact Hout].
  intros n Hn. destruct (Hin n Hn) as (data & Hd & Hg).
  exists data. split; [assumption|]. rewrite Hg. destruct data; reflexivity.
Qed.

(** ** The two loaders on the same files *)

Section SameFiles.
Variable json_loads : str -> result checkpoint_record.
Variable model_name : str.
Variable id : str.

Lemma load_file_get (st : load_state) (f : file)
  (data : list checkpoint_record) :
  names_neuron model_name id f = true ->
  parse_lines json_loads (snd f) = Ok data ->
  dict_get str_eqb
    (all_neuron_data (load_file json_loads model_name st f)) id
  = Some data.
Proof.
  unfold names_neuron, load_file. intros Hn Hp.
  destruct (neuron_of_filename model_name (fst f)) as [k|]; [|discriminate].
  apply str_eqb_spec in Hn. subst k. rewrite Hp. simpl.
  now rewrite (dict_get_set _ str_eqb_spec), (eqb_same _ str_eqb_spec).
Qed.

Lemma load_file_get_other (st : load_state) (f : file) :
  names_neuron model_name id f = false ->
  dict_get str_eqb
    (all_neuron_data (load_file json_loads model_name st f)) id
  = dict_get str_eqb (all_neuron_data st) id.
Proof.
  unfold names_neuron, load_file. intros Hn.
  destruct (neuron_of_filename model_name (fst f)) as [k|]; [|reflexivity].
  destruct (parse_lines json_loads (snd f)); [|reflexivity].
  simpl. now rewrite (dict_get_set _ str_eqb_spec), Hn.
Qed.

Lemma load_files_get (data : list checkpoint_record) (files : list file) :
  (forall f, In f files -> names_neuron model_name id f = true ->
     parse_lines json_loads (snd f) = Ok data) ->
  forall st,
  dict_get str_eqb
    (all_neuron_data (fold_left (load_file json_loads model_name) files st))
    id
  = if existsb (names_neuron model_name id) files then Some data
    else dict_get str_eqb (all_neuron_data st) id.
Proof.
  induction files as [|f files IH]; intros Hall st; [reflexivity|].
  cbn [fold_left existsb].
  rewrite IH by (intros g Hg; apply Hall; now right).
  destruct (names_neuron model_name id f) eqn:Ef; cbn [orb].
  - rewrite (@load_file_get st f data Ef (Hall f (or_introl eq_refl) Ef)).
    destruct (existsb (names_neuron model_name id) files); reflexivity.
  - now rewrite (load_file_get_other st f Ef).
Qed.
End SameFiles.

(** X29.  The dashboard and the static export agree on a neuron whose
    series file is in the directory of the model: when the lines of the
    file parse, both have the same records for it, whatever the directory
    [results] itself holds for that neuron. *)
Theorem loaders_agree
  (json_loads : str -> result checkpoint_record) (fs : file_system)
  (id : str) (files : list file) (lines : list str)
  (data : list checkpoint_record) :
  no_underscore id = true ->
  dict_get str_eqb fs (lit "results/pythia70m") = Some files ->
  dict_get str_eqb files (id ++ export_suffix (lit "pythia70m"))
  = Some lines ->
  (forall f, In f files ->
     names_neuron (lit "Pythia-70M") id f = true -> snd f = lines) ->
  parse_lines json_loads lines = Ok data ->
  dict_get str_eqb
    (all_neuron_data (load_neuron_data json_loads fs (lit "Pythia-70M"))) id
  = Some data
  /\ load_checkpoint_data json_loads fs id (lit "pythia70m")
     = ([], Ok data).
Proof.
  intros Hid Hfs Hfile Honly Hp. split.
  - unfold load_neuron_data.
    change (search_paths (lit "Pythia-70M"))
      with (Some [lit "results"; lit "results/pythia70m"]).
    cbn [fold_left all_neuron_data].
    unfold load_path at 1. rewrite Hfs.
    rewrite (@load_files_get json_loads (lit "Pythia-70M") id data).
    + replace (existsb (names_neuron (lit "Pythia-70M") id) files) with true;
        [reflexivity|].
      symmetry. apply existsb_exists.
      exists (id ++ export_suffix (lit "pythia70m"), lines). split.
      * eapply dict_get_In; [apply str_eqb_spec|exact Hfile].
      * unfold names_neuron. cbn [fst].
        change (id ++ export_suffix (lit "pythia70m"))
          with (series_name (lit "Pythia-70M") id).
        rewrite neuron_of_series_name_eq; [|now left|assumption].
        apply (eqb_same _ str_eqb_spec).
    + intros f Hf Hn. now rewrite (Honly f Hf Hn).
  - unfold load_checkpoint_data, find_file.
    change (lit "results/" ++ lit "pythia70m") with (lit "results/pythia70m").
    now rewrite Hfs, Hfile, Hp.
Qed.

Lemma collect_export_data_witness :
  collect_export json_loads_lines one_series_fs
  = Ok (Collected [3000%Z] [(lit "L0N0", [record_3000])])
  /\ exists neurons,
       get_available_neurons one_series_fs (lit "pythia70m") = Ok neurons
       /\ (forall n, In n neurons ->
             exists data,
               snd (load_checkpoint_data json_loads_lines one_series_fs n
                                         (lit "pythia70m")) = Ok data
               /\ dict_get str_eqb [(lit "L0N0", [record_3000])] n
                  = match data with [] => None | _ => Some data end)
       /\ (forall n, ~ In n neurons ->
             dict_get str_eqb [(lit "L0N0", [record_3000])] n = None).
Proof.
  assert (H : collect_export json_loads_lines one_series_fs
              = Ok (Collected [3000%Z] [(lit "L0N0", [record_3000])]))
    by (vm_compute; reflexivity).
  split; [exact H|].
  exact (@collect_export_data json_loads_lines one_series_fs _ _ H).
Defined.

Lemma loaders_agree_witness :
  no_underscore (lit "L0N0") = true
  /\ parse_lines json_loads_lines [line_3000] = Ok [record_3000]
  /\ dict_get str_eqb
       (all_neuron_data
          (load_neuron_data json_loads_lines one_series_fs
                            (lit "Pythia-70M")))
       (lit "L0N0")
     = Some [record_3000].
Proof.
  assert (H1 : no_underscore (lit "L0N0") = true) by (vm_compute; reflexivity).
  assert (H2 : parse_lines json_loads_lines [line_3000] = Ok [record_3000])
    by (vm_compute; reflexivity).
  split; [exact H1|]. split; [exact H2|].
  refine (proj1 (@loaders_agree json_loads_lines one_series_fs (lit "L0N0")
                   [(lit "L0N0_pythia70m_ckpt_series.jsonl", [line_3000])]
                   [line_3000] [record_3000] H1 eq_refl _ _ H2)).
  - vm_compute. reflexivity.
  - intros f [<-|[]] _. reflexivity.
Defined.
